(** * Podocyte profiler: a shallow embedding of [podocytes/main.py] and
    [podocytes/util.py], and the properties of its pipeline.

    Conventions of the embedding.
    - Python and numpy integers are [Z]; no coordinate of the program comes
      near the 64-bit range, so wrap-around is not modelled.
    - Floating-point quantities that end up in the result tables (pixel
      sizes, volumes, centroids, diameters, averages) are exact rationals
      ([Qc]): rounding is not modelled, and [x / 0], which numpy evaluates to
      [inf], is [0] here.  No statement below depends on either.
    - A raised exception is [inl e], a normal return is [inr v].
    - The pixel type of the images is a parameter [A]; the routines of
      numpy, scikit-image and pims that the program calls on images are the
      fields of the class [Library].
    - [marker_coords] of [util.py] reads an [xml.etree] element tree, a
      tree of elements here; Python's [int] on a string is a parameter of the
      function.  Its exceptions include the [ZeroDivisionError] and the
      [OverflowError] of Python's division of two integers (a quotient beyond
      the range of the floats); the quotient itself is exact.
    - Logging and the files written are not modelled: the output directory
      is taken to exist and to be writable. *)

From stdpp Require Import base numbers option list list_numbers gmap strings.
From Stdlib Require Import QArith Qcanon Ascii.

Open Scope Z_scope.

(** ** Exceptions *)

Inductive exn : Set :=
  | ValueError | IndexError | KeyError | TypeError | AttributeError
  | RuntimeError | IOError.

#[global] Instance exn_eq_dec : EqDecision exn.
Proof. solve_decision. Defined.

Definition result : Type → Type := sum exn.
#[global] Typeclasses Transparent result.

#[global] Instance result_ret : MRet result := λ _ x, inr x.
#[global] Instance result_bind : MBind result :=
  λ _ _ f m, match m with inl e => inl e | inr x => f x end.

Definition raise {T} (e : exn) : result T := inl e.

(** [for x in xs: s = body(s, x)], stopping at the first exception. *)
Fixpoint for_each {S X} (body : S → X → result S) (s : S) (xs : list X)
  : result S :=
  match xs with
  | [] => mret s
  | x :: xs' => s' ← body s x; for_each body s' xs'
  end.

(** [l[i]] on a Python sequence, for [i >= 0]. *)
Definition getitem {T} (l : list T) (i : nat) : result T :=
  match l !! i with Some x => mret x | None => raise IndexError end.

(** [int(q)]: truncation toward zero. *)
Definition py_int (q : Qc) : Z := Z.quot (Qnum (this q)) (Z.pos (Qden (this q))).

(** ** numpy arrays *)

(** An N-dimensional array: its shape and its content as a function of the
    index tuple (meaningful on the indices within the shape). *)
Record ndarray (A : Type) : Type := NDArray {
  shape : list Z;
  data : list Z → A
}.
Arguments NDArray {A} _ _.
Arguments shape {A} _.
Arguments data {A} _ _.

Definition ndim {A} (a : ndarray A) : nat := length (shape a).

(** The index tuples of an array of shape [sh], in raster (C) order. *)
Fixpoint indices (sh : list Z) : list (list Z) :=
  match sh with
  | [] => [[]]
  | n :: sh' => i ← seqZ 0 n; (i ::.) <$> indices sh'
  end.

Definition in_range (sh : list Z) (idx : list Z) : Prop :=
  Forall2 (λ n i, 0 ≤ i < n) sh idx.

(** The first index tuple of an array of shape [sh]. *)
Definition origin (sh : list Z) : list Z := (λ _, 0) <$> sh.

(** Two index tuples that differ by one step along one axis. *)
Definition adjacent (i j : list Z) : Prop :=
  ∃ pre a suf, i = pre ++ a :: suf ∧ j = pre ++ (a + 1) :: suf.

Module np.

(** Element-wise binary operation on two 1-D integer arrays, with numpy's
    broadcasting of a length-1 operand. *)
Definition broadcast2 (f : Z → Z → Z) (a b : list Z) : result (list Z) :=
  if decide (length a = length b) then mret (zip_with f a b)
  else match a, b with
       | [x], _ => mret (f x <$> b)
       | _, [y] => mret ((λ x, f x y) <$> a)
       | _, _ => raise ValueError
       end.

Definition subtract := broadcast2 Z.sub.
Definition minimum := broadcast2 Z.min.

(** [np.full(shape, v)]; a negative dimension is a [ValueError]. *)
Definition full {A} (sh : list Z) (v : A) : result (ndarray A) :=
  if decide (Forall (λ n, 0 ≤ n) sh) then mret (NDArray sh (λ _, v))
  else raise ValueError.

(** [np.max] of a boolean array; an empty array is a [ValueError]. *)
Definition max (a : ndarray bool) : result bool :=
  match indices (shape a) with
  | [] => raise ValueError
  | idxs => mret (existsb (data a) idxs)
  end.

(** One index of [a[i]]: negative indices count from the end. *)
Definition normalize_index (n i : Z) : result Z :=
  if decide (0 ≤ i < n) then mret i
  else if decide (- n ≤ i < 0) then mret (i + n)
  else raise IndexError.

Fixpoint normalize_indices (sh idx : list Z) : result (list Z) :=
  match idx, sh with
  | [], _ => mret []
  | i :: idx', n :: sh' =>
      i' ← normalize_index n i; r ← normalize_indices sh' idx'; mret (i' :: r)
  | _ :: _, [] => raise IndexError
  end.

(** [a[i1, ..., ik] = v] for a scalar [v]: every element whose first [k]
    indices are [i1, ..., ik] is set. *)
Definition setitem {A} (a : ndarray A) (idx : list Z) (v : A)
  : result (ndarray A) :=
  idx' ← normalize_indices (shape a) idx;
  mret (NDArray (shape a)
          (λ j, if decide (take (length idx') j = idx') then v else data a j)).

(** [slice(start, stop, 1).indices(n)]: first index and length. *)
Definition slice_bounds (n : Z) (sl : Z * Z) : Z * Z :=
  let norm x := if decide (x < 0) then Z.max (x + n) 0 else Z.min x n in
  let s := norm sl.1 in
  let e := norm sl.2 in
  (s, Z.max 0 (e - s)).

(** The bounds selected on each axis by a tuple of slices; the axes after
    the last slice are taken whole. *)
Definition bounds (sh : list Z) (sl : list (Z * Z)) : list (Z * Z) :=
  zip_with slice_bounds sh sl ++ ((λ n, (0, n)) <$> drop (length sl) sh).

(** [a[s1, ..., sk]] for a tuple of slices. *)
Definition getitem_slices {A} (a : ndarray A) (sl : list (Z * Z))
  : result (ndarray A) :=
  if decide (length sl ≤ ndim a)%nat then
    let bs := bounds (shape a) sl in
    mret (NDArray (snd <$> bs)
            (λ j, data a (zip_with (λ b x, b.1 + x) bs j)))
  else raise IndexError.

(** The index read in the source of an assignment for the index [x]
    (relative to the start of the slice) of the target, on an axis where the
    source has [d] elements: a source axis of length 1 is broadcast. *)
Definition broadcast_index (d x : Z) : Z := if decide (d = 1) then 0 else x.

Definition broadcastable (src tgt : list Z) : Prop :=
  Forall2 (λ d t, d = t ∨ d = 1) src tgt.

#[global] Instance broadcastable_dec src tgt : Decision (broadcastable src tgt).
Proof. unfold broadcastable. apply _. Defined.

(** [a[s1, ..., sk] = src] for arrays of the same rank (the only case the
    program has): the shape of [src] must broadcast to the selected
    region. *)
Definition setitem_slices {A} (a : ndarray A) (sl : list (Z * Z))
    (src : ndarray A) : result (ndarray A) :=
  if decide (length sl ≤ ndim a)%nat then
    let bs := bounds (shape a) sl in
    if decide (broadcastable (shape src) (snd <$> bs)) then
      mret (NDArray (shape a)
              (λ j, if decide (Forall2 (λ b x, b.1 ≤ x < b.1 + b.2) bs j)
                    then data src
                           (zip_with (λ db x, broadcast_index db.1 (x - db.2.1))
                                     (zip (shape src) bs) j)
                    else data a j))
    else raise ValueError
  else raise IndexError.

(** [np.floor] of a number, as a number. *)
Definition floor (q : Qc) : Qc :=
  Qc_of_Z (Qnum (this q) `div` Z.pos (Qden (this q))).

End np.

(** ** Region properties (scikit-image [RegionProperties]) *)

Record RegionProperties : Type := {
  label : Z;
  bbox : list Z;
  centroid : list Qc;
  area : Z;
  filled_area : Z;
  equivalent_diameter : Qc
}.

#[global] Instance RegionProperties_eq_dec : EqDecision RegionProperties.
Proof. solve_decision. Defined.

(** ** Python strings *)

Module str.
Definition endswith (s suffix : string) : bool :=
  bool_decide (String.list_ascii_of_string suffix `suffix_of` String.list_ascii_of_string s).
Definition startswith (s prefix : string) : bool :=
  bool_decide (String.list_ascii_of_string prefix `prefix_of` String.list_ascii_of_string s).
End str.

(** ** The file system seen by [os.walk] *)

Module os.

(** A directory: its name, the names of its files, its sub-directories. *)
#[local] Set Warnings "-register-all".
Inductive dir : Type :=
  | Dir (name : string) (files : list string) (subdirs : list dir).

Definition dirname (d : dir) : string := match d with Dir name _ _ => name end.

(** [os.path.join(a, b)] on POSIX paths. *)
Definition path_join (a b : string) : string :=
  if str.startswith b "/" then b
  else if bool_decide (a = "") || str.endswith a "/" then a +:+ b
  else a +:+ "/" +:+ b.

(** [os.walk(top)], top-down, for the directory [d] found at [top]: one
    triple [(root, dirnames, filenames)] per directory. *)
Fixpoint walk (top : string) (d : dir)
  : list (string * list string * list string) :=
  match d with
  | Dir _ files subdirs =>
      (top, dirname <$> subdirs, files)
      :: (fix walk_subdirs (l : list dir) :=
            match l with
            | [] => []
            | sub :: l' => walk (path_join top (dirname sub)) sub ++ walk_subdirs l'
            end) subdirs
  end.

End os.

(** ** XML element trees ([xml.etree.ElementTree]) *)

Module xml.

(** An element: its tag, its text ([None] when it has none) and its
    children. *)
#[local] Set Warnings "-register-all".
Inductive Element : Type :=
  | Elem (tag : string) (text : option string) (children : list Element).

Definition tag (e : Element) : string := match e with Elem t _ _ => t end.
Definition text (e : Element) : option string := match e with Elem _ t _ => t end.
Definition children (e : Element) : list Element :=
  match e with Elem _ _ cs => cs end.

(** [e.iter()]: the element and the elements below it, in document order. *)
Fixpoint iter (e : Element) : list Element :=
  match e with
  | Elem _ _ cs =>
      e :: (fix iter_children (l : list Element) :=
              match l with
              | [] => []
              | c :: l' => iter c ++ iter_children l'
              end) cs
  end.

(** [e.findall('.//tag')]: the elements below [e] with that tag, in
    document order. *)
Definition findall_below (e : Element) (t : string) : list Element :=
  filter (λ x, tag x = t) (tail (iter e)).

(** [e.find('.//tag')]: the first of them, [None] when there is none. *)
Definition find_below (e : Element) (t : string) : option Element :=
  head (findall_below e t).

(** [e.find('tag')]: the first child of [e] with that tag. *)
Definition find (e : Element) (t : string) : option Element :=
  head (filter (λ x, tag x = t) (children e)).

End xml.

(** ** pandas data frames *)

(** The content of a cell; a missing cell (NaN) is an absent key of the row. *)
Inductive value : Type :=
  | VNum (q : Qc)
  | VStr (s : string).

#[global] Instance value_eq_dec : EqDecision value.
Proof. solve_decision. Defined.

Definition VInt (n : Z) : value := VNum (Qc_of_Z n).

Module pd.

Record DataFrame : Type := {
  columns : list string;
  rows : list (gmap string value)
}.

#[global] Instance DataFrame_eq_dec : EqDecision DataFrame.
Proof. solve_decision. Defined.

(** [pd.DataFrame()] *)
Definition empty : DataFrame := {| columns := []; rows := [] |}.

Definition len (df : DataFrame) : nat := length (rows df).

(** The columns of a frame after columns named [new] were added: new names
    follow the existing ones, in order of appearance. *)
Definition union_columns (cols new : list string) : list string :=
  foldl (λ acc c, if decide (c ∈ acc) then acc else acc ++ [c]) cols new.

(** [df.append(contents, ignore_index=True, sort=False)] for a dict. *)
Definition append_dict (df : DataFrame) (contents : list (string * value))
  : DataFrame :=
  {| columns := union_columns (columns df) (fst <$> contents);
     rows := rows df ++ [list_to_map contents] |}.

(** [df.append(other, ignore_index=True, sort=False)] for a frame: the
    cells of a column that one of the frames lacks are missing. *)
Definition append (df other : DataFrame) : DataFrame :=
  {| columns := union_columns (columns df) (columns other);
     rows := rows df ++ rows other |}.

(** [df[col] = v] for a scalar [v] ([None] is NaN): the cell of every row
    is set. *)
Definition setitem (df : DataFrame) (col : string) (v : option value)
  : DataFrame :=
  {| columns := union_columns (columns df) [col];
     rows := (λ r, match v with
                   | Some x => <[col := x]> r
                   | None => delete col r
                   end) <$> rows df |}.

(** The cells of row [r] in the columns [cols]. *)
Definition project (cols : list string) (r : gmap string value)
  : gmap string value :=
  filter (λ kv, kv.1 ∈ cols) r.

(** [df[cols]] for a list of column names. *)
Definition getitem_list (df : DataFrame) (cols : list string)
  : result DataFrame :=
  if decide (cols ⊆ columns df)
  then mret {| columns := cols; rows := project cols <$> rows df |}
  else raise KeyError.

(** The rows of [l] that are not in [seen] and not repeated, each at its
    first occurrence. *)
Fixpoint first_occurrences (seen l : list (gmap string value))
  : list (gmap string value) :=
  match l with
  | [] => []
  | r :: l' =>
      if decide (r ∈ seen) then first_occurrences seen l'
      else r :: first_occurrences (r :: seen) l'
  end.

(** [df.drop_duplicates()] (keep='first'; missing cells compare equal). *)
Definition drop_duplicates (df : DataFrame) : DataFrame :=
  {| columns := columns df; rows := first_occurrences [] (rows df) |}.

(** [np.mean(df[col])]: the mean of the cells that are not missing, NaN
    ([None]) when there is none. *)
Definition mean (df : DataFrame) (col : string) : result (option Qc) :=
  if decide (col ∈ columns df) then
    cells ← mapM (λ v, match v with
                       | VNum q => mret q
                       | VStr _ => raise TypeError
                       end) (omap (.!! col) (rows df));
    match cells with
    | [] => mret None
    | _ => mret (Some (foldr Qcplus 0%Qc cells / Qc_of_Z (Z.of_nat (length cells)))%Qc)
    end
  else raise KeyError.

(** [df.append(contents, ignore_index=True)] for a dict of which a value
    may be [None]: the column is there and the cell is missing. *)
Definition append_dict_missing (df : DataFrame)
    (contents : list (string * option value)) : DataFrame :=
  {| columns := union_columns (columns df) (fst <$> contents);
     rows := rows df
             ++ [list_to_map (omap (λ kv, pair kv.1 <$> kv.2) contents)] |}.

End pd.

(** ** The libraries the program calls on images *)

(** A pims frame: the pixel array with the metadata the program reads. *)
Record Frame (A : Type) : Type := {
  pixels : ndarray A;
  mpp : Qc;                (* metadata['mpp'] *)
  mppZ : Qc;               (* metadata['mppZ'] *)
  axes : list ascii        (* metadata['axes'] *)
}.
Arguments pixels {A} _.
Arguments mpp {A} _.
Arguments mppZ {A} _.
Arguments axes {A} _.

(** One image series of a file: [ImageID(n)], [ImageName(n)] and the frame
    [images[0]] read with [bundle_axes = 'zyxc']. *)
Record Series (A : Type) : Type := {
  ImageID : string;
  ImageName : string;
  frame : Frame A
}.
Arguments ImageID {A} _.
Arguments ImageName {A} _.
Arguments frame {A} _.

Module pims.

(** [image[..., channel]]: the view of one channel (an index on the last
    axis), with the metadata of the frame. *)
Definition channel {A} (image : Frame A) (channel : Z) : result (Frame A) :=
  match last (shape (pixels image)) with
  | None => raise IndexError
  | Some n =>
      c ← np.normalize_index n channel;
      mret {| pixels := NDArray (removelast (shape (pixels image)))
                          (λ j, data (pixels image) (j ++ [c]));
              mpp := mpp image; mppZ := mppZ image; axes := axes image |}
  end.

End pims.

Module lib.

Class Library (A : Type) : Type := {
  (* arithmetic of the pixel type *)
  zero : A;
  add : A → A → A;
  abs : A → A;
  gt : A → A → bool;
  (* numpy *)
  mean : ndarray A → A;                             (* np.mean *)
  gradient : ndarray A → result (list (ndarray A)); (* np.gradient *)
  (* skimage *)
  gaussian : ndarray A → list Qc → result (ndarray A);
  threshold_yen : ndarray A → A;
  label : ndarray bool → ndarray Z;
  (* regionprops: of a label image of 2 or 3 axes (on another rank
     scikit-image raises a TypeError, which is not modelled) *)
  regionprops : ndarray Z → option (ndarray A) → list RegionProperties;
  blob_dog : ndarray A → Qc → Qc → Qc → list (list Qc);
  watershed : ndarray A → ndarray Z → result (ndarray Z);
  (* pims *)
  open : string → result (list (Series A))
}.

(** What the proofs below use of the documented behaviour of the libraries.
    - [np.gradient] accepts an array with at least two elements on every axis
      and returns one array of the same shape per axis.  (This is numpy's
      behaviour from rank 2 on, the ranks of the images of the pipeline; of a
      rank-1 array numpy returns the bare array.)
    - [skimage.measure.label] keeps the shape, gives [0] to the background
      and only to it, numbers the components in raster order (the component of
      the first voxel is 1) and gives two neighbouring foreground voxels the
      same number.
    - [skimage.morphology.watershed] accepts markers of the shape of the
      image and gives every voxel [0] or the number of one of the markers. *)
Class Laws (A : Type) `{!Library A} : Prop := {
  gradient_spec : ∀ a : ndarray A,
    shape a ≠ [] → Forall (λ n, 2 ≤ n) (shape a) →
    ∃ gs, gradient a = inr gs ∧ length gs = ndim a
          ∧ Forall (λ g, shape g = shape a) gs;
  label_shape : ∀ s, shape (label s) = shape s;
  label_background : ∀ s i,
    in_range (shape s) i → data (label s) i = 0 ↔ data s i = false;
  label_first : ∀ s,
    in_range (shape s) (origin (shape s)) →
    data s (origin (shape s)) = true →
    data (label s) (origin (shape s)) = 1;
  label_adjacent : ∀ s i j,
    in_range (shape s) i → in_range (shape s) j → adjacent i j →
    data s i = true → data s j = true →
    data (label s) i = data (label s) j;
  watershed_spec : ∀ (image : ndarray A) markers,
    shape image = shape markers →
    ∃ w, watershed image markers = inr w ∧ shape w = shape markers
         ∧ ∀ i, in_range (shape markers) i →
                data w i = 0
                ∨ ∃ j, in_range (shape markers) j ∧ data markers j ≠ 0
                       ∧ data w i = data markers j
}.

End lib.

(** ** [podocytes/util.py] *)

Module util.

(** [find_files(input_directory, ext)], for the directory [d] found at
    [input_directory]. *)
Definition find_files (d : os.dir) (input_directory ext : string)
  : list string :=
  '(root, _, files) ← os.walk input_directory d;
  f ← files;
  (* ignore hidden files *)
  if str.endswith f ext && negb (str.startswith f ".")
  then [os.path_join root f] else [].

(** [marker_coords] divides by [n_channels]: besides an exception of the
    pipeline it can raise a [ZeroDivisionError] or an [OverflowError]. *)
Inductive raised : Set :=
  | Raised (e : exn)
  | ZeroDivisionError
  | OverflowError.

#[global] Instance raised_eq_dec : EqDecision raised.
Proof. solve_decision. Defined.

Definition outcome : Type → Type := sum raised.
#[global] Typeclasses Transparent outcome.

#[global] Instance outcome_ret : MRet outcome := λ _ x, inr x.
#[global] Instance outcome_bind : MBind outcome :=
  λ _ _ f m, match m with inl e => inl e | inr x => f x end.

Definition lift {T} (r : result T) : outcome T :=
  match r with inl e => inl (Raised e) | inr x => inr x end.

(** [for x in xs: s = body(s, x)], stopping at the first exception. *)
Fixpoint loop {S X} (body : S → X → outcome S) (s : S) (xs : list X)
  : outcome S :=
  match xs with
  | [] => mret s
  | x :: xs' => s' ← body s x; loop body s' xs'
  end.

(** The quotient of [a] by [b] is too large for a float: it is rounded to
    the nearest float, and the quotients from [2^1024 - 2^970] on, in
    absolute value, are beyond the largest one. *)
Definition too_large_for_float (a b : Z) : Prop :=
  (2 ^ 1024 - 2 ^ 970) * Z.abs b ≤ Z.abs a.

#[global] Instance too_large_for_float_dec a b : Decision (too_large_for_float a b).
Proof. unfold too_large_for_float. apply _. Defined.

(** [a / b] for two Python integers: division by zero and a quotient too
    large for a float are exceptions.  The quotient is kept exact. *)
Definition truediv (a b : Z) : outcome Qc :=
  if decide (b = 0) then inl ZeroDivisionError
  else if decide (too_large_for_float a b) then inl OverflowError
  else mret (Qc_of_Z a / Qc_of_Z b)%Qc.

(** [x.text] for the result [x] of a [find]: [None] has no attribute
    [text]. *)
Definition text (x : option xml.Element) : result (option string) :=
  match x with
  | Some e => mret (xml.text e)
  | None => raise AttributeError
  end.

Section marker_coords.

(** Python's [int] on a string. *)
Variable int : string → result Z.

(** [int(t)] for a text [t]: [int(None)] is a [TypeError]. *)
Definition int_text (t : option string) : result Z :=
  match t with
  | Some s => int s
  | None => raise TypeError
  end.

(** [marker_coords(tree, n_channels)], for an integer [n_channels]. *)
Definition marker_coords (tree : xml.Element) (n_channels : Z)
  : outcome pd.DataFrame :=
  let df := pd.empty in
  image_name ← lift (text (xml.find_below tree "Image_Filename"));
  loop (λ df marker,
          x_coord ← lift (t ← text (xml.find marker "MarkerX"); int_text t);
          y_coord ← lift (t ← text (xml.find marker "MarkerY"); int_text t);
          z ← lift (t ← text (xml.find marker "MarkerZ"); int_text t);
          quotient ← truediv z n_channels;
          let z_coord := np.floor quotient in
          let contents :=
            [("Image_Filename", VStr <$> image_name);
             ("MarkerX", Some (VInt x_coord));
             ("MarkerY", Some (VInt y_coord));
             ("MarkerZ", Some (VNum z_coord))] in
          mret (pd.append_dict_missing df contents))
       df (xml.findall_below tree "Marker").

End marker_coords.

End util.

(** ** [podocytes/main.py] *)

Module main.
Section main.

Context {A : Type} `{!lib.Library A}.

Definition blob_dog_image (blobs : list (list Qc)) (image_shape : list Z)
  : result (ndarray bool) :=
  blob_map ← np.full image_shape false;
  for_each (λ blob_map blob,
              b0 ← getitem blob 0;
              b1 ← getitem blob 1;
              b2 ← getitem blob 2;
              np.setitem blob_map [py_int b0; py_int b1; py_int b2] true)
           blob_map blobs.

Definition summary_columns : list string :=
  ["image_filename"; "image_series_name"; "image_series_num";
   "glomeruli_index"; "glomeruli_label_number"; "glomeruli_voxel_number";
   "glomeruli_volume"; "glomeruli_equiv_diam_pixels";
   "glomeruli_centroid_x"; "glomeruli_centroid_y"; "glomeruli_centroid_z";
   "number_of_podocytes"; "avg_podocyte_voxel_number";
   "avg_podocyte_volume"; "podocyte_density"].

(** [None] is Python's [None]. *)
Definition create_summary_stats (dataframe : pd.DataFrame)
  : result (option pd.DataFrame) :=
  if decide (pd.len dataframe = 0%nat) then mret None
  else
    projected ← pd.getitem_list dataframe summary_columns;
    let summary_dataframe := pd.drop_duplicates projected in
    mret (Some summary_dataframe).

(** [for dim in range(ndims)], collecting the results. *)
Definition for_dims {T} (ndims : nat) (f : nat → result T) : result (list T) :=
  mapM f (seq 0 ndims).

Definition crop_region_of_interest (image : ndarray A) (bbox : list Z)
    (margin : Z) (pad_mode : string) : result (ndarray A) :=
  let ndims := ndim image in
  let max_image_size := shape image in
  let bbox_min_plus_margin := (λ coord, coord - margin) <$> take ndims bbox in
  let bbox_max_plus_margin := (λ coord, coord + margin) <$> drop ndims bbox in
  let image_min_coords := Z.max 0 <$> bbox_min_plus_margin in
  image_max_coords ← np.minimum bbox_max_plus_margin max_image_size;
  max_roi_size ← for_dims ndims (λ dim,
                    hi ← getitem bbox_max_plus_margin dim;
                    lo ← getitem bbox_min_plus_margin dim;
                    mret (Z.abs (hi - lo)));
  undershoot ← np.subtract image_min_coords bbox_min_plus_margin;
  let roi_min_coord := Z.abs <$> undershoot in
  overshoot ← np.subtract bbox_max_plus_margin image_max_coords;
  roi_max_coord ← np.subtract max_roi_size (Z.abs <$> overshoot);
  image_slicer ← for_dims ndims (λ dim,
                    start ← getitem image_min_coords dim;
                    stop ← getitem image_max_coords dim;
                    mret (start, stop));
  roi_slicer ← for_dims ndims (λ dim,
                  start ← getitem roi_min_coord dim;
                  stop ← getitem roi_max_coord dim;
                  mret (start, stop));
  roi_image ←
    (if decide (pad_mode = "zeros") then np.full max_roi_size lib.zero
     else if decide (pad_mode = "mean") then
       (* np.ones(max_roi_size) * mean: every element is the mean *)
       valid ← np.getitem_slices image image_slicer;
       np.full max_roi_size (lib.mean valid)
     else raise ValueError);
  valid ← np.getitem_slices image image_slicer;
  np.setitem_slices roi_image roi_slicer valid.

(** The loop of [denoise_image] over [image.metadata['axes']]. *)
Definition voxel_dimensions (axes : list ascii) (xy_pixel_size z_pixel_size : Qc)
  : list Qc :=
  foldl (λ voxel_dimensions i,
           if bool_decide (i = "x"%char) || bool_decide (i = "y"%char)
           then voxel_dimensions ++ [xy_pixel_size]
           else if bool_decide (i = "z"%char)
           then voxel_dimensions ++ [z_pixel_size]
           else voxel_dimensions)
        [] axes.

Definition denoise_image (image : Frame A) : result (ndarray A) :=
  let xy_pixel_size := mpp image in
  let z_pixel_size := mppZ image in
  let voxel_dimensions := voxel_dimensions (axes image) xy_pixel_size z_pixel_size in
  let sigma := (λ d, xy_pixel_size / d)%Qc <$> voxel_dimensions in
  lib.gaussian (pixels image) sigma.

Definition filter_by_size (label_image : ndarray Z)
    (min_diameter max_diameter : Qc) : list RegionProperties :=
  foldl (λ regions region,
           if bool_decide (min_diameter ≤ equivalent_diameter region)%Qc
              && bool_decide (equivalent_diameter region ≤ max_diameter)%Qc
           then regions ++ [region] else regions)
        [] (lib.regionprops label_image None).

(** [find_files(input_directory, ext)], for the directory [d] found at
    [input_directory]. *)
Definition find_files (d : os.dir) (input_directory ext : string)
  : list string :=
  '(root, _, files) ← os.walk input_directory d;
  f ← files;
  if str.endswith f ext then [os.path_join root f] else [].

(** [np.gradient] returns one array per axis (for an image of rank 2 or
    more); they are stacked along a new last axis and the absolute values
    summed along it. *)
Definition gradient_of_image (image : ndarray A) : result (ndarray A) :=
  grad ← lib.gradient image;
  match grad with
  | [] => raise ValueError
  | g :: _ =>
      if decide (Forall (λ g', shape g' = shape g) grad) then
        mret (NDArray (shape g)
                (λ j, foldl (λ acc g', lib.add acc (lib.abs (data g' j)))
                            lib.zero grad))
      else raise ValueError
  end.

(** Assigning the integer [n] to an element of a boolean array. *)
Definition bool_of_int (n : Z) : bool := negb (n =? 0).

Definition marker_controlled_watershed (grayscale_image : ndarray A)
    (marker_coords : list (list Qc)) : result (ndarray Z) :=
  gradient_image ← gradient_of_image grayscale_image;
  seeds ← blob_dog_image marker_coords (shape grayscale_image);
  (* must have seed for the background area too *)
  m ← np.max seeds;
  seeds ← np.setitem seeds [0] (bool_of_int (Z.b2z m + 1));
  wshed ← lib.watershed gradient_image (lib.label seeds);
  (* set background area to zero *)
  m ← np.max seeds;
  mret (NDArray (shape wshed)
          (λ j, if decide (data wshed j = Z.b2z m) then 0 else data wshed j)).

Definition find_podocytes (podocyte_image : ndarray A)
    (glomeruli_region : RegionProperties)
  : result (list RegionProperties * list Z * ndarray Z) :=
  let min_sigma := Qc_of_Z 1 in
  let max_sigma := Qc_of_Z 4 in
  let dog_threshold := Q2Qc (17 # 100) in
  let bbox := bbox glomeruli_region in
  let cropping_margin := 10 in
  centroid_offset ← for_dims (ndim podocyte_image) (λ dim,
                       b ← getitem bbox dim; mret (b - cropping_margin));
  image_roi ← crop_region_of_interest podocyte_image bbox cropping_margin "mean";
  let blobs := lib.blob_dog image_roi min_sigma max_sigma dog_threshold in
  wshed ← marker_controlled_watershed image_roi blobs;
  let regions := lib.regionprops wshed (Some image_roi) in
  mret (regions, centroid_offset, wshed).

Definition glom_statistics (df : pd.DataFrame) (glom : RegionProperties)
    (glom_index : Z) (voxel_volume : Qc) : result pd.DataFrame :=
  let n := Qc_of_Z (Z.of_nat (pd.len df)) in
  let df := pd.setitem df "number_of_podocytes" (Some (VNum n)) in
  let df := pd.setitem df "podocyte_density"
              (Some (VNum (n / (Qc_of_Z (filled_area glom) * voxel_volume))%Qc)) in
  let df := pd.setitem df "glomeruli_index" (Some (VInt glom_index)) in
  let df := pd.setitem df "glomeruli_label_number" (Some (VInt (label glom))) in
  let df := pd.setitem df "glomeruli_voxel_number" (Some (VInt (filled_area glom))) in
  let df := pd.setitem df "glomeruli_volume"
              (Some (VNum (Qc_of_Z (filled_area glom) * voxel_volume)%Qc)) in
  let df := pd.setitem df "glomeruli_equiv_diam_pixels"
              (Some (VNum (equivalent_diameter glom))) in
  x ← getitem (centroid glom) 2;
  let df := pd.setitem df "glomeruli_centroid_x" (Some (VNum x)) in
  y ← getitem (centroid glom) 1;
  let df := pd.setitem df "glomeruli_centroid_y" (Some (VNum y)) in
  z ← getitem (centroid glom) 0;
  let df := pd.setitem df "glomeruli_centroid_z" (Some (VNum z)) in
  mret df.

Definition podocyte_avg_statistics (df : pd.DataFrame) : result pd.DataFrame :=
  m ← pd.mean df "podocyte_voxel_number";
  let df := pd.setitem df "avg_podocyte_voxel_number" (VNum <$> m) in
  m ← pd.mean df "podocyte_volume";
  let df := pd.setitem df "avg_podocyte_volume" (VNum <$> m) in
  m ← pd.mean df "podocyte_equiv_diam_pixels";
  let df := pd.setitem df "avg_podocyte_equiv_diam_pixels" (VNum <$> m) in
  mret df.

(** [None] is Python's [None]. *)
Definition podocyte_statistics (podocyte_regions : list RegionProperties)
    (centroid_offset : list Z) (voxel_volume : Qc)
  : result (option pd.DataFrame) :=
  df ← for_each (λ df pod,
          real_podocyte_centroid ←
            for_dims (length (centroid pod)) (λ dim,
              c ← getitem (centroid pod) dim;
              o ← getitem centroid_offset dim;
              mret (c + Qc_of_Z o)%Qc);
          (* Add interesting statistics to the dataframe *)
          x ← getitem real_podocyte_centroid 2;
          y ← getitem real_podocyte_centroid 1;
          z ← getitem real_podocyte_centroid 0;
          let contents :=
            [("podocyte_label_number", VInt (label pod));
             ("podocyte_voxel_number", VInt (area pod));
             ("podocyte_volume", VNum (Qc_of_Z (area pod) * voxel_volume)%Qc);
             ("podocyte_equiv_diam_pixels", VNum (equivalent_diameter pod));
             ("podocyte_centroid_x", VNum x);
             ("podocyte_centroid_y", VNum y);
             ("podocyte_centroid_z", VNum z)] in
          (* Add individual podocyte statistics to dataframe *)
          mret (pd.append_dict df contents))
        pd.empty podocyte_regions;
  if decide (0 < pd.len df)%nat then mret (Some df) else mret None.

Definition preprocess_glomeruli (glomeruli_view : Frame A)
  : result (ndarray Z) :=
  glomeruli_view ← denoise_image glomeruli_view;
  let threshold := lib.threshold_yen glomeruli_view in
  let label_image :=
    lib.label (NDArray (shape glomeruli_view)
                 (λ j, lib.gt (data glomeruli_view j) threshold)) in
  mret label_image.

(** A numpy array of one element, [item] being that element [a[0]].  It
    compares with a number as its element does. *)
Record Array1 : Type := { item : Qc }.

(** The arguments of the command line, as [main] and [log_file_begins]
    read them: the directories as lists of words, the channel numbers and the
    extension through their element [0]; the diameters both through their
    element [0] (by [log_file_begins]) and in the comparisons of
    [filter_by_size] with a number, which an array of one element allows. *)
Record Args : Type := {
  input_directory : list string;
  output_directory : list string;
  glomeruli_channel_number : list Z;
  podocyte_channel_number : list Z;
  minimum_glomerular_diameter : Array1;
  maximum_glomerular_diameter : Array1;
  file_extension : list string
}.

(** [log_file_begins(output_directory, args, timestamp)].  The log itself
    is not modelled; what is left are the reads of its lines on the
    arguments: [args.file_extension[0]] and the element [0] of the two
    diameters. *)
Definition log_file_begins (args : Args) : result unit :=
  _ ← getitem (file_extension args) 0;
  let _ := item (minimum_glomerular_diameter args) in
  let _ := item (maximum_glomerular_diameter args) in
  mret ().

(** What [main] leaves on disk: the detailed table as last written (none
    when no series was processed) and the summary table. *)
Record Output : Type := {
  detailed_stats_csv : option pd.DataFrame;
  summary_stats_csv : pd.DataFrame
}.

#[global] Instance Output_eq_dec : EqDecision Output.
Proof. solve_decision. Defined.

(** The body of [for glom in glom_regions], on the variables it updates:
    [detailed_stats] and [glom_index]. *)
Definition main_glom (podocytes_view : ndarray A) (voxel_volume : Qc)
    (st : pd.DataFrame * Z) (glom : RegionProperties)
  : result (pd.DataFrame * Z) :=
  let '(detailed_stats, glom_index) := st in
  '(podocyte_regions, centroid_offset, wshed) ←
    find_podocytes podocytes_view glom;
  df ← podocyte_statistics podocyte_regions centroid_offset voxel_volume;
  match df with
  | None => mret (detailed_stats, glom_index)   (* continue *)
  | Some df =>
      (* the log line reads glom.centroid[2], [1] and [0] *)
      _ ← getitem (centroid glom) 2;
      _ ← getitem (centroid glom) 1;
      _ ← getitem (centroid glom) 0;
      df ← podocyte_avg_statistics df;
      df ← glom_statistics df glom glom_index voxel_volume;
      let detailed_stats := pd.append detailed_stats df in
      mret (detailed_stats, glom_index + 1)
  end.

(** The body of [for im_series_num in range(ImageCount())], on the variable
    [detailed_stats] and the detailed file. *)
Definition main_series (channel_glomeruli channel_podocytes : Z)
    (min_glom_diameter max_glom_diameter : Qc) (filename : string)
    (st : pd.DataFrame * option pd.DataFrame) (series : Series A)
  : result (pd.DataFrame * option pd.DataFrame) :=
  let '(detailed_stats, _) := st in
  let image := frame series in
  let voxel_volume := (mpp image * mpp image * mppZ image)%Qc in
  glomeruli_view ← pims.channel image channel_glomeruli;
  glomeruli_labels ← preprocess_glomeruli glomeruli_view;
  let glom_regions :=
    filter_by_size glomeruli_labels min_glom_diameter max_glom_diameter in
  let glom_index := 0 in
  detailed_stats ←
    (if decide (0 < length glom_regions)%nat then
       podocytes_view ← pims.channel image channel_podocytes;
       podocytes_view ← denoise_image podocytes_view;
       st ← for_each (main_glom podocytes_view voxel_volume)
              (detailed_stats, glom_index) glom_regions;
       mret st.1
     else mret detailed_stats);
  (* add image details to dataframe ([detailed_stats] is never None) *)
  let detailed_stats :=
    pd.setitem detailed_stats "image_series_num" (Some (VStr (ImageID series))) in
  let detailed_stats :=
    pd.setitem detailed_stats "image_series_name" (Some (VStr (ImageName series))) in
  let detailed_stats :=
    pd.setitem detailed_stats "image_filename" (Some (VStr filename)) in
  mret (detailed_stats, Some detailed_stats).

(** The body of [for filename in filelist]. *)
Definition main_file (channel_glomeruli channel_podocytes : Z)
    (min_glom_diameter max_glom_diameter : Qc)
    (st : pd.DataFrame * option pd.DataFrame) (filename : string)
  : result (pd.DataFrame * option pd.DataFrame) :=
  images ← lib.open filename;
  for_each (main_series channel_glomeruli channel_podocytes
              min_glom_diameter max_glom_diameter filename) st images.

(** [main()], for the command-line arguments [args] and the directory [d]
    found at the input directory. *)
Definition main (d : os.dir) (args : Args) : result Output :=
  (* User input arguments *)
  let input_directory := String.concat " " (input_directory args) in
  g ← getitem (glomeruli_channel_number args) 0;
  let channel_glomeruli := g - 1 in
  p ← getitem (podocyte_channel_number args) 0;
  let channel_podocytes := p - 1 in
  let min_glom_diameter := minimum_glomerular_diameter args in
  let max_glom_diameter := maximum_glomerular_diameter args in
  ext ← getitem (file_extension args) 0;
  (* Initialize *)
  _ ← log_file_begins args;
  let detailed_stats := pd.empty in
  (* Get to work *)
  let filelist := find_files d input_directory ext in
  (* [filter_by_size] compares the diameters through their element *)
  st ← for_each (main_file channel_glomeruli channel_podocytes
                   (item min_glom_diameter) (item max_glom_diameter))
         (detailed_stats, None) filelist;
  let '(detailed_stats, written) := st in
  (* Summarize output and write to file *)
  summary_stats ← create_summary_stats detailed_stats;
  match summary_stats with
  | None => raise AttributeError   (* None has no [to_csv] *)
  | Some summary_stats =>
      mret {| detailed_stats_csv := written;
              summary_stats_csv := summary_stats |}
  end.

End main.
End main.

(** ** A small instance of the libraries

    Integer pixels and stand-ins for the library routines that are simple
    enough to run the pipeline on volumes of a few voxels.  They are used to
    evaluate the program on concrete inputs; the general statements below
    hold for every instance of [lib.Library]. *)

Module toy.

Definition mean (a : ndarray Z) : Z :=
  let idxs := indices (shape a) in
  foldr Z.add 0 (data a <$> idxs) `div` Z.of_nat (length idxs).

(** One copy of the image per axis; numpy needs two elements on each axis. *)
Definition gradient (a : ndarray Z) : result (list (ndarray Z)) :=
  if decide (Forall (λ n, 2 ≤ n) (shape a)) then mret (replicate (ndim a) a)
  else raise ValueError.

(** No smoothing; the filter needs one sigma per axis. *)
Definition gaussian (a : ndarray Z) (sigma : list Qc) : result (ndarray Z) :=
  if decide (length sigma = ndim a) then mret a else raise RuntimeError.

Definition extent (f : Z → Z → Z) (coords : list (list Z)) : list Z :=
  match coords with
  | [] => []
  | c :: cs => foldr (zip_with f) c cs
  end.

(** One region per number in the label image, in ascending order, with
    its bounding box, centroid and voxel count.  The equivalent diameter,
    irrational in general, is replaced by the voxel count. *)
Definition regionprops (l : ndarray Z) (intensity_image : option (ndarray Z))
  : list RegionProperties :=
  let idxs := indices (shape l) in
  let values := data l <$> idxs in
  (λ v,
     let voxels := filter (λ i, data l i = v) idxs in
     let n := Z.of_nat (length voxels) in
     {| label := v;
        bbox := extent Z.min voxels ++ (Z.succ <$> extent Z.max voxels);
        centroid := (λ total, Qc_of_Z total / Qc_of_Z n)%Qc
                      <$> extent Z.add voxels;
        area := n;
        filled_area := n;
        equivalent_diameter := Qc_of_Z n |})
  <$> filter (λ v, v ∈ values) (seqZ 1 (foldr Z.max 0 values)).

(** The glomerulus that fills a [1 x 1 x 2] volume. *)
Definition glom : RegionProperties :=
  {| label := 1; bbox := [0; 0; 0; 1; 1; 2];
     centroid := [Qc_of_Z 0; Qc_of_Z 0; Q2Qc (1 # 2)];
     area := 2; filled_area := 2; equivalent_diameter := Qc_of_Z 2 |}.

(** A podocyte of one voxel, in the coordinates of the ROI of [glom]. *)
Definition podocyte : RegionProperties :=
  {| label := 2; bbox := [10; 10; 10; 11; 11; 11];
     centroid := [Qc_of_Z 10; Qc_of_Z 10; Qc_of_Z 10];
     area := 1; filled_area := 1; equivalent_diameter := Qc_of_Z 1 |}.

(** The foreground voxels of the plane [0] of the first axis, and every
    foreground voxel if one lies in the plane [1], get the number 1; the
    other foreground voxels get the number 2. *)
Definition label (s : ndarray bool) : ndarray Z :=
  let touches :=
    match shape s with
    | n :: sh' => bool_decide (2 ≤ n) && existsb (λ j, data s (1 :: j)) (indices sh')
    | [] => false
    end in
  NDArray (shape s)
    (λ i, if data s i
          then if touches || bool_decide (default 0 (head i) = 0) then 1 else 2
          else 0).

(** One blob at every voxel brighter than the mean of the image. *)
Definition blob_dog (a : ndarray Z) (min_sigma max_sigma threshold : Qc)
  : list (list Qc) :=
  let m := mean a in
  (λ i, (Qc_of_Z <$> i) ++ [min_sigma])
  <$> filter (λ i, m < data a i) (indices (shape a)).

(** Every voxel without a marker joins the basin of the first voxel. *)
Definition watershed (image : ndarray Z) (markers : ndarray Z)
  : result (ndarray Z) :=
  if decide (shape image = shape markers) then
    let first := data markers (origin (shape markers)) in
    mret (NDArray (shape markers)
            (λ i, if decide (data markers i = 0) then first else data markers i))
  else raise ValueError.

(** A [1 x 1 x 2] volume with two channels: the glomeruli channel holds
    [1] at both voxels, the podocyte channel holds [p] at the voxel
    [(0, 0, x)] and [0] at the other one. *)
Definition volume (x p : Z) : Frame Z :=
  {| pixels := NDArray [1; 1; 2; 2]
                 (λ i, match i with
                       | [_; _; _; 0] => 1
                       | [_; _; x'; _] => if decide (x' = x) then p else 0
                       | _ => 0
                       end);
     mpp := Qc_of_Z 1; mppZ := Qc_of_Z 2;
     axes := ["z"; "y"; "x"; "c"]%char |}.

(** The files: [scans/a.lif] holds one series with a podocyte,
    [scans/more/b.lif] one series with a podocyte and one without,
    [blank/c.lif] one series without, [empty/d.lif] no series. *)
Definition open (filename : string) : result (list (Series Z)) :=
  if decide (filename = "scans/a.lif") then
    mret [ {| ImageID := "Image:0"; ImageName := "kidney A"; frame := volume 0 5 |} ]
  else if decide (filename = "scans/more/b.lif") then
    mret [ {| ImageID := "Image:0"; ImageName := "kidney B"; frame := volume 1 7 |};
           {| ImageID := "Image:1"; ImageName := "blank"; frame := volume 0 0 |} ]
  else if decide (filename = "blank/c.lif") then
    mret [ {| ImageID := "Image:0"; ImageName := "blank"; frame := volume 0 0 |} ]
  else if decide (filename = "empty/d.lif") then mret []
  else raise IOError.

(** A directory whose only file holds a series without podocytes. *)
Definition blank : os.dir := os.Dir "blank" ["c.lif"] [].

(** A directory whose only file holds no series. *)
Definition empty : os.dir := os.Dir "empty" ["d.lif"] [].

(** The series of [blank/c.lif]. *)
Definition blank_series : Series Z :=
  {| ImageID := "Image:0"; ImageName := "blank"; frame := volume 0 0 |}.

Definition scans : os.dir :=
  os.Dir "scans" ["a.lif"; "notes.txt"] [os.Dir "more" ["b.lif"; "B.LIF"] []].

(** The same directory after a file manager left a hidden file in it. *)
Definition scans_hidden : os.dir :=
  os.Dir "scans" ["a.lif"; ".a.lif"; "notes.txt"]
    [os.Dir "more" ["b.lif"; "B.LIF"] []].

#[global] Instance library : lib.Library Z := {|
  lib.zero := 0;
  lib.add := Z.add;
  lib.abs := Z.abs;
  lib.gt := Z.gtb;
  lib.mean := mean;
  lib.gradient := gradient;
  lib.gaussian := gaussian;
  lib.threshold_yen := λ _, 0;
  lib.label := label;
  lib.regionprops := regionprops;
  lib.blob_dog := blob_dog;
  lib.watershed := watershed;
  lib.open := open
|}.

Definition args (input_directory ext : string) : main.Args :=
  {| main.input_directory := [input_directory];
     main.output_directory := ["out"];
     main.glomeruli_channel_number := [1];
     main.podocyte_channel_number := [2];
     main.minimum_glomerular_diameter := {| main.item := Qc_of_Z 1 |};
     main.maximum_glomerular_diameter := {| main.item := Qc_of_Z 300 |};
     main.file_extension := [ext] |}.

(** A row of a detailed table: the podocyte [pod] of the glomerulus 0 of the
    series [Image:0] of [scans/a.lif], whose glomerulus is recorded with [n]
    podocytes. *)
Definition row (pod n : Z) : gmap string value :=
  list_to_map
    [("podocyte_label_number", VInt pod); ("podocyte_voxel_number", VInt 1);
     ("podocyte_volume", VInt 2); ("podocyte_equiv_diam_pixels", VInt 1);
     ("podocyte_centroid_x", VInt pod); ("podocyte_centroid_y", VInt 0);
     ("podocyte_centroid_z", VInt 0); ("avg_podocyte_voxel_number", VInt 1);
     ("avg_podocyte_volume", VInt 2); ("avg_podocyte_equiv_diam_pixels", VInt 1);
     ("number_of_podocytes", VInt n); ("podocyte_density", VInt 1);
     ("glomeruli_index", VInt 0); ("glomeruli_label_number", VInt 1);
     ("glomeruli_voxel_number", VInt 2); ("glomeruli_volume", VInt 4);
     ("glomeruli_equiv_diam_pixels", VInt 2); ("glomeruli_centroid_x", VInt 0);
     ("glomeruli_centroid_y", VInt 0); ("glomeruli_centroid_z", VInt 0);
     ("image_series_num", VStr "Image:0"); ("image_series_name", VStr "kidney A");
     ("image_filename", VStr "scans/a.lif")].

Definition table (rows : list (gmap string value)) : pd.DataFrame :=
  {| pd.columns :=
       ["podocyte_label_number"; "podocyte_voxel_number"; "podocyte_volume";
        "podocyte_equiv_diam_pixels"; "podocyte_centroid_x";
        "podocyte_centroid_y"; "podocyte_centroid_z";
        "avg_podocyte_voxel_number"; "avg_podocyte_volume";
        "avg_podocyte_equiv_diam_pixels"; "number_of_podocytes";
        "podocyte_density"; "glomeruli_index"; "glomeruli_label_number";
        "glomeruli_voxel_number"; "glomeruli_volume";
        "glomeruli_equiv_diam_pixels"; "glomeruli_centroid_x";
        "glomeruli_centroid_y"; "glomeruli_centroid_z"; "image_series_num";
        "image_series_name"; "image_filename"];
     pd.rows := rows |}.

(** Two rows of the same glomerulus that disagree on its podocyte count. *)
Definition conflicting : pd.DataFrame := table [row 2 1; row 3 2].

(** The rows of the two podocytes of one glomerulus. *)
Definition consistent : pd.DataFrame := table [row 2 2; row 3 2].

(** The podocyte channel of a [1 x 1 x 2] volume with one bright voxel, and
    of a volume without any. *)
Definition bright_view : ndarray Z :=
  NDArray [1; 1; 2] (λ i, match i with [_; _; 0] => 5 | _ => 0 end).

Definition blank_view : ndarray Z := NDArray [1; 1; 2] (λ _, 0).

(** What [find_podocytes] returns for [glom] in [view]: the regions and the
    offset, and the watershed image. *)
Definition found (view : ndarray Z) : result (list RegionProperties * list Z) :=
  match main.find_podocytes view glom with
  | inr (regions, centroid_offset, _) => inr (regions, centroid_offset)
  | inl e => inl e
  end.

Definition found_wshed (view : ndarray Z) : ndarray Z :=
  match main.find_podocytes view glom with
  | inr (_, _, wshed) => wshed
  | inl _ => NDArray [] (λ _, 0)
  end.

(** The table of [podocyte_statistics] for this podocyte. *)
Definition podocyte_table : pd.DataFrame :=
  match main.podocyte_statistics [podocyte] [-10; -10; -10] (Qc_of_Z 2) with
  | inr (Some df) => df
  | _ => pd.empty
  end.

(** A label image with a region of one voxel and a region of two. *)
Definition two_regions : ndarray Z :=
  NDArray [1; 1; 4]
    (λ i, match i with
          | [_; _; 0] => 1 | [_; _; 1] => 2 | [_; _; 2] => 2 | _ => 0
          end).

(** A [3 x 4] image, and a bounding box that touches its border. *)
Definition plate : ndarray Z := NDArray [3; 4] (λ _, 1).
Definition plate_bbox : list Z := [0; 1; 2; 4].

(** A [3 x 2 x 2] ROI with one seed. *)
Definition block : ndarray Z := NDArray [3; 2; 2] (λ _, 0).
Definition block_seeds : list (list Qc) :=
  [[Qc_of_Z 2; Qc_of_Z 1; Qc_of_Z 1; Qc_of_Z 1]].

(** A stand-in for Python's [int]: the strings of decimal digits. *)
Definition digit (c : ascii) : option Z :=
  let n := Z.of_N (N_of_ascii c) in
  if decide (48 ≤ n ≤ 57) then Some (n - 48) else None.

Definition int (s : string) : result Z :=
  match mapM digit (String.list_ascii_of_string s) with
  | Some (d :: ds) => mret (foldl (λ n d, 10 * n + d) 0 (d :: ds))
  | _ => raise ValueError
  end.

(** A CellCounter file with two markers, on the planes 5 and 7 of a
    stack. *)
Definition counter : xml.Element :=
  xml.Elem "CellCounter_Marker_File" None
    [xml.Elem "Image_Properties" None
       [xml.Elem "Image_Filename" (Some "kidney.tif") []];
     xml.Elem "Marker_Data" None
       [xml.Elem "Marker_Type" None
          [xml.Elem "Marker" None
             [xml.Elem "MarkerX" (Some "12") [];
              xml.Elem "MarkerY" (Some "34") [];
              xml.Elem "MarkerZ" (Some "5") []];
           xml.Elem "Marker" None
             [xml.Elem "MarkerX" (Some "56") [];
              xml.Elem "MarkerY" (Some "78") [];
              xml.Elem "MarkerZ" (Some "7") []]]]].

End toy.

(** ** Vocabulary of the statements *)

(** The (file, series, glomerulus index) triple of a row. *)
Definition glomerulus_key (r : gmap string value)
  : option value * option value * option value :=
  (r !! "image_filename", r !! "image_series_num", r !! "glomeruli_index").

(** The axis labels that [denoise_image] knows. *)
Definition known_axis (i : ascii) : Prop := i ∈ ["x"; "y"; "z"]%char.

#[global] Instance known_axis_dec i : Decision (known_axis i).
Proof. unfold known_axis. apply _. Defined.

(** The row [row] reports, in its three centroid columns, the centroid of the
    region [pod] translated by the offset [o]. *)
Definition reports_centroid (o : list Z) (pod : RegionProperties)
    (row : gmap string value) : Prop :=
  ∀ dim column,
    (dim, column) ∈ [(0%nat, "podocyte_centroid_z");
                     (1%nat, "podocyte_centroid_y");
                     (2%nat, "podocyte_centroid_x")] →
    ∃ c off, centroid pod !! dim = Some c ∧ o !! dim = Some off
             ∧ row !! column = Some (VNum (c + Qc_of_Z off)%Qc).

(** The bounding box [bbox] (the lower corner, then the upper corner, as
    scikit-image gives it) lies within an image of shape [sh]. *)
Definition bbox_within (sh bbox : list Z) : Prop :=
  length bbox = (2 * length sh)%nat
  ∧ Forall (λ t, 0 ≤ t.1 ≤ t.2.1 ∧ t.2.1 ≤ t.2.2)
      (zip (take (length sh) bbox) (zip (drop (length sh) bbox) sh)).

(** The blob [blob] (coordinates, then sigma) lies within an image of shape
    [sh]: scikit-image returns it with three coordinates in range. *)
Definition seed_in_image (sh : list Z) (blob : list Qc) : Prop :=
  ∃ b0 b1 b2 rest,
    blob = b0 :: b1 :: b2 :: rest
    ∧ in_range (take 3 sh) [py_int b0; py_int b1; py_int b2].

(** The voxel [j] is marked by one of the blobs of [marker_coords]. *)
Definition seed_voxel (marker_coords : list (list Qc)) (j : list Z) : Prop :=
  ∃ b0 b1 b2 rest,
    b0 :: b1 :: b2 :: rest ∈ marker_coords
    ∧ take 3 j = [py_int b0; py_int b1; py_int b2].

(** The files below the directory [d] found at [input_directory], as
    [os.walk] lists them: the path of the directory and the name of the
    file. *)
Definition walk_files (d : os.dir) (input_directory : string)
  : list (string * string) :=
  '(root, _, files) ← os.walk input_directory d;
  (λ f, (root, f)) <$> files.

(** The row [r1] appears in [l], and before every occurrence of [r2]. *)
Definition appears_before {T} (l : list T) (r1 r2 : T) : Prop :=
  ∃ k : nat, l !! k = Some r1 ∧ ∀ k' : nat, l !! k' = Some r2 → (k < k')%nat.

#[global] Instance in_range_dec sh idx : Decision (in_range sh idx).
Proof. unfold in_range. apply _. Defined.

(** The region [pod] has a centroid of three coordinates or more and the
    offset [o] has a coordinate for each of them: a region of a 3-D label
    image, with the offset of its ROI. *)
Definition measurable (o : list Z) (pod : RegionProperties) : Prop :=
  (3 ≤ length (centroid pod) ≤ length o)%nat.

#[global] Instance measurable_dec o pod : Decision (measurable o pod).
Proof. unfold measurable. apply _. Defined.

(** The columns that [podocyte_statistics] fills. *)
Definition podocyte_columns : list string :=
  ["podocyte_label_number"; "podocyte_voxel_number"; "podocyte_volume";
   "podocyte_equiv_diam_pixels"; "podocyte_centroid_x"; "podocyte_centroid_y";
   "podocyte_centroid_z"].

(** The columns that [glom_statistics] sets. *)
Definition glomerulus_columns : list string :=
  ["number_of_podocytes"; "podocyte_density"; "glomeruli_index";
   "glomeruli_label_number"; "glomeruli_voxel_number"; "glomeruli_volume";
   "glomeruli_equiv_diam_pixels"; "glomeruli_centroid_x";
   "glomeruli_centroid_y"; "glomeruli_centroid_z"].

(** The arithmetic mean of the numbers [qs]. *)
Definition average (qs : list Qc) : Qc :=
  (foldr Qcplus 0 qs / Qc_of_Z (Z.of_nat (length qs)))%Qc.

(** The row [r] carries the identifiers of the series [series] of the file
    [filename]. *)
Definition stamped {A} (filename : string) (series : Series A)
    (r : gmap string value) : Prop :=
  r !! "image_filename" = Some (VStr filename)
  ∧ r !! "image_series_num" = Some (VStr (ImageID series))
  ∧ r !! "image_series_name" = Some (VStr (ImageName series)).

(** The row [new] is the row [old] with the identifiers of the series
    [series] of the file [filename] in place of its own. *)
Definition restamped {A} (filename : string) (series : Series A)
    (old new : gmap string value) : Prop :=
  stamped filename series new
  ∧ ∀ column,
      column ∉ ["image_filename"; "image_series_name"; "image_series_num"] →
      new !! column = old !! column.

(** The rows [block] are those of the glomerulus [glom] of the series
    [series]: one row per podocyte region that [find_podocytes] returns for
    it in the denoised podocyte channel, in their order (no row when there is
    none), with the number of the region, the number of the glomerulus, the
    number of podocytes of the glomerulus and the identifiers of the
    series. *)
Definition glomerulus_rows {A} `{!lib.Library A} (channel_podocytes : Z)
    (filename : string) (series : Series A) (glom : RegionProperties)
    (block : list (gmap string value)) : Prop :=
  ∃ view podocytes_view podocyte_regions centroid_offset wshed,
    pims.channel (frame series) channel_podocytes = inr view
    ∧ main.denoise_image view = inr podocytes_view
    ∧ main.find_podocytes podocytes_view glom
      = inr (podocyte_regions, centroid_offset, wshed)
    ∧ Forall2 (λ pod r,
         r !! "podocyte_label_number" = Some (VInt (label pod))
         ∧ r !! "glomeruli_label_number" = Some (VInt (label glom))
         ∧ r !! "number_of_podocytes"
           = Some (VNum (Qc_of_Z (Z.of_nat (length podocyte_regions))))
         ∧ stamped filename series r)
        podocyte_regions block.

(** The number of blocks of [blocks] that have a row. *)
Definition nonempty_blocks {X} (blocks : list (list X)) : nat :=
  length (filter (λ block, block ≠ []) blocks).

(** The axes of a bounding box in an image: the lower corner, the upper
    corner and the image size of each axis. *)
Definition box_axes (sh bbox : list Z) : list (Z * (Z * Z)) :=
  zip (take (length sh) bbox) (zip (drop (length sh) bbox) sh).

(** What [crop_region_of_interest] computes on the axis [(lo, (hi, n))]:
    [max_roi_size], the slice of [image_slicer] and the slice of
    [roi_slicer]. *)
Definition roi_size (margin : Z) (t : Z * (Z * Z)) : Z :=
  Z.abs (t.2.1 + margin - (t.1 - margin)).

Definition image_slice (margin : Z) (t : Z * (Z * Z)) : Z * Z :=
  (Z.max 0 (t.1 - margin), Z.min (t.2.1 + margin) t.2.2).

Definition roi_slice (margin : Z) (t : Z * (Z * Z)) : Z * Z :=
  (Z.abs (Z.max 0 (t.1 - margin) - (t.1 - margin)),
   Z.abs (t.2.1 + margin - (t.1 - margin))
   - Z.abs (t.2.1 + margin - Z.min (t.2.1 + margin) t.2.2)).

(** The element [e] has a child with the tag [t] whose text [int] reads as
    the integer [n]. *)
Definition child_int (int : string → result Z) (e : xml.Element) (t : string)
    (n : Z) : Prop :=
  ∃ child s, xml.find e t = Some child ∧ xml.text child = Some s ∧ int s = inr n.

(** The marker element [marker] gives the coordinates [x], [y] and [z]. *)
Definition marker_at (int : string → result Z) (marker : xml.Element)
    (x y z : Z) : Prop :=
  child_int int marker "MarkerX" x
  ∧ child_int int marker "MarkerY" y
  ∧ child_int int marker "MarkerZ" z.

(** Reading the child [t] of [e] as an integer raises [err]: there is no
    such child ([None] has no [text]), the child has no text, or [int]
    rejects the text. *)
Definition child_error (int : string → result Z) (e : xml.Element) (t : string)
    (err : exn) : Prop :=
  match xml.find e t with
  | None => err = AttributeError
  | Some child =>
      match xml.text child with
      | None => err = TypeError
      | Some s => int s = inl err
      end
  end.

(** The round of the loop of [marker_coords] for [marker] raises [err]: the
    first of [MarkerX], [MarkerY], [MarkerZ] that cannot be read raises, or
    all three are read and the division of [MarkerZ] by [n_channels] raises,
    a [ZeroDivisionError] for [n_channels = 0] and else an [OverflowError]
    for a quotient too large for a float. *)
Definition marker_error (int : string → result Z) (n_channels : Z)
    (marker : xml.Element) (err : util.raised) : Prop :=
  (∃ e, child_error int marker "MarkerX" e ∧ err = util.Raised e)
  ∨ (∃ x e, child_int int marker "MarkerX" x
            ∧ child_error int marker "MarkerY" e ∧ err = util.Raised e)
  ∨ (∃ x y e, child_int int marker "MarkerX" x
              ∧ child_int int marker "MarkerY" y
              ∧ child_error int marker "MarkerZ" e ∧ err = util.Raised e)
  ∨ (∃ x y z, marker_at int marker x y z
              ∧ n_channels = 0 ∧ err = util.ZeroDivisionError)
  ∨ (∃ x y z, marker_at int marker x y z
              ∧ n_channels ≠ 0 ∧ util.too_large_for_float z n_channels
              ∧ err = util.OverflowError).

(** * Properties *)

(** ** The exception monad and the loops *)

Lemma bind_inr {X Y} (m : result X) (f : X → result Y) y :
  m ≫= f = inr y ↔ ∃ x, m = inr x ∧ f x = inr y.
Proof.
  destruct m as [e|x]; simpl; split.
  - discriminate.
  - by intros (x & ? & _).
  - eauto.
  - by intros (x' & [= <-] & ?).
Qed.

Lemma bind_ret {X Y} (x : X) (f : X → result Y) : inr x ≫= f = f x.
Proof. done. Qed.

Lemma bind_mret {X Y} (x : X) (f : X → result Y) : mret x ≫= f = f x.
Proof. done. Qed.

Lemma bind_inr_exists {X Y} (m : result X) (f : X → result Y) (P : Y → Prop) x :
  m = inr x → (∃ y, f x = inr y ∧ P y) → ∃ y, m ≫= f = inr y ∧ P y.
Proof. by intros ->. Qed.

Lemma for_each_cons {S X} (body : S → X → result S) s x xs :
  for_each body s (x :: xs) = body s x ≫= λ s', for_each body s' xs.
Proof. done. Qed.

Lemma for_each_app {S X} (body : S → X → result S) s xs ys :
  for_each body s (xs ++ ys) = for_each body s xs ≫= λ s', for_each body s' ys.
Proof.
  revert s. induction xs as [|x xs IH]; intros s; simpl; [done|].
  destruct (body s x) as [e|s']; simpl; [done|]. apply IH.
Qed.

Lemma mapM_inr {X Y} (f : X → result Y) (g : X → Y) l :
  (∀ x, x ∈ l → f x = inr (g x)) → mapM f l = inr (g <$> l).
Proof.
  induction l as [|x l IH]; intros Hf; simpl; [done|].
  rewrite (Hf x) by left. simpl.
  rewrite IH; [done|]. intros y Hy. apply Hf. by right.
Qed.

Lemma getitem_inr {T} (l : list T) i x : l !! i = Some x → getitem l i = inr x.
Proof. unfold getitem. by intros ->. Qed.

Lemma getitem_inv {T} (l : list T) i x : getitem l i = inr x → l !! i = Some x.
Proof. unfold getitem. destruct (l !! i); by intros [= ->]. Qed.

(** ** [filter_by_size] (C6) *)

Section filter_by_size.
Context {A : Type} `{!lib.Library A}.

Lemma foldl_keep {T} (P : T → Prop) `{!∀ x, Decision (P x)} (f : T → bool) acc l :
  (∀ x, f x = bool_decide (P x)) →
  foldl (λ kept x, if f x then kept ++ [x] else kept) acc l = acc ++ filter P l.
Proof.
  intros Hf. revert acc. induction l as [|x l IH]; intros acc; simpl.
  - by rewrite app_nil_r.
  - rewrite IH, filter_cons, Hf. destruct (decide (P x)).
    + rewrite bool_decide_eq_true_2 by done. by rewrite <-app_assoc.
    + by rewrite bool_decide_eq_false_2.
Qed.

Lemma filter_by_size_filter (label_image : ndarray Z) (lo hi : Qc) :
  main.filter_by_size label_image lo hi
  = filter (λ r, (lo ≤ equivalent_diameter r)%Qc ∧ (equivalent_diameter r ≤ hi)%Qc)
      (lib.regionprops label_image None).
Proof.
  unfold main.filter_by_size.
  rewrite (foldl_keep (λ r, (lo ≤ equivalent_diameter r)%Qc
                            ∧ (equivalent_diameter r ≤ hi)%Qc)); [done|].
  intros r. destruct (decide (lo ≤ equivalent_diameter r)%Qc),
    (decide (equivalent_diameter r ≤ hi)%Qc).
  - by rewrite !bool_decide_eq_true_2.
  - rewrite (bool_decide_eq_false_2 (equivalent_diameter r ≤ hi)%Qc) by done.
    rewrite andb_false_r. symmetry. apply bool_decide_eq_false_2. tauto.
  - rewrite (bool_decide_eq_false_2 (lo ≤ equivalent_diameter r)%Qc) by done.
    symmetry. apply bool_decide_eq_false_2. tauto.
  - rewrite (bool_decide_eq_false_2 (lo ≤ equivalent_diameter r)%Qc) by done.
    symmetry. apply bool_decide_eq_false_2. tauto.
Qed.

(** C6. [filter_by_size] is monotonic in its diameter range: the regions
    kept for [[a, b]] are kept, in the same order, for every wider range
    [[a', b']]; and a region is kept exactly when it is a region of the label
    image whose equivalent diameter [d] satisfies [a <= d <= b], both ends
    included. *)
Theorem filter_by_size_monotonic (label_image : ndarray Z) (a b a' b' : Qc) :
  (a' ≤ a)%Qc → (b ≤ b')%Qc →
  main.filter_by_size label_image a b
    `sublist_of` main.filter_by_size label_image a' b'
  ∧ (∀ region, region ∈ main.filter_by_size label_image a b
               → region ∈ main.filter_by_size label_image a' b')
  ∧ (∀ region, region ∈ main.filter_by_size label_image a b
               ↔ region ∈ lib.regionprops label_image None
                 ∧ (a ≤ equivalent_diameter region)%Qc
                 ∧ (equivalent_diameter region ≤ b)%Qc).
Proof.
  intros Ha Hb. rewrite !filter_by_size_filter.
  assert (Hsub : filter (λ r, (a ≤ equivalent_diameter r)%Qc
                              ∧ (equivalent_diameter r ≤ b)%Qc)
                   (lib.regionprops label_image None)
                 `sublist_of`
                 filter (λ r, (a' ≤ equivalent_diameter r)%Qc
                              ∧ (equivalent_diameter r ≤ b')%Qc)
                   (lib.regionprops label_image None)).
  { induction (lib.regionprops label_image None) as [|r rs IH]; [done|].
    rewrite !filter_cons.
    destruct (decide ((a ≤ _)%Qc ∧ _)) as [[H1 H2]|Hn].
    - rewrite decide_True.
      + by apply sublist_skip.
      + split; [by etrans|by etrans].
    - destruct (decide _); [by apply sublist_cons|done]. }
  split; [done|]. split.
  - intros region Hin. by eapply elem_of_sublist.
  - intros region. rewrite list_elem_of_filter. tauto.
Qed.

End filter_by_size.

(** ** [find_files] (C9) *)

Lemma list_ascii_of_string_app (s t : string) :
  String.list_ascii_of_string (s +:+ t)
  = String.list_ascii_of_string s ++ String.list_ascii_of_string t.
Proof. induction s as [|c s IH]; simpl; [done|]. by rewrite IH. Qed.

Lemma list_ascii_of_string_inj (s t : string) :
  String.list_ascii_of_string s = String.list_ascii_of_string t → s = t.
Proof.
  intros H. rewrite <-(String.string_of_list_ascii_of_string s),
    <-(String.string_of_list_ascii_of_string t). by rewrite H.
Qed.

(** [s.endswith(suffix)] holds exactly when [s] is some string followed by
    [suffix], character for character (the match is case-sensitive). *)
Lemma endswith_spec (s suffix : string) :
  str.endswith s suffix = true ↔ ∃ p, s = p +:+ suffix.
Proof.
  unfold str.endswith. rewrite bool_decide_eq_true. split.
  - intros [k Hk]. exists (String.string_of_list_ascii k).
    apply list_ascii_of_string_inj.
    by rewrite list_ascii_of_string_app, String.list_ascii_of_string_of_list_ascii.
  - intros [p ->]. exists (String.list_ascii_of_string p).
    apply list_ascii_of_string_app.
Qed.

Lemma startswith_spec (s prefix : string) :
  str.startswith s prefix = true ↔ ∃ r, s = prefix +:+ r.
Proof.
  unfold str.startswith. rewrite bool_decide_eq_true. split.
  - intros [k Hk]. exists (String.string_of_list_ascii k).
    apply list_ascii_of_string_inj.
    by rewrite list_ascii_of_string_app, String.list_ascii_of_string_of_list_ascii.
  - intros [r ->]. exists (String.list_ascii_of_string r).
    apply list_ascii_of_string_app.
Qed.

(** The files [main.find_files] returns: every file below the input
    directory whose name ends with the extension, hidden or not. *)
Lemma main_find_files_spec (d : os.dir) (input_directory ext path : string) :
  path ∈ main.find_files d input_directory ext
  ↔ ∃ root dirs files f,
      (root, dirs, files) ∈ os.walk input_directory d ∧ f ∈ files
      ∧ (∃ p, f = p +:+ ext) ∧ path = os.path_join root f.
Proof.
  unfold main.find_files. rewrite list_elem_of_bind. split.
  - intros ([[root dirs] files] & Hp & Hw).
    apply list_elem_of_bind in Hp as (f & Hp & Hf).
    destruct (str.endswith f ext) eqn:E; [|by apply elem_of_nil in Hp].
    apply list_elem_of_singleton in Hp. apply endswith_spec in E.
    by exists root, dirs, files, f.
  - intros (root & dirs & files & f & Hw & Hf & He & ->).
    exists (root, dirs, files). split; [|done].
    apply list_elem_of_bind. exists f. split; [|done].
    apply endswith_spec in He. rewrite He. by apply list_elem_of_singleton.
Qed.

(** The files [util.find_files] returns: those of them whose name does not
    begin with a dot. *)
Lemma util_find_files_spec (d : os.dir) (input_directory ext path : string) :
  path ∈ util.find_files d input_directory ext
  ↔ ∃ root dirs files f,
      (root, dirs, files) ∈ os.walk input_directory d ∧ f ∈ files
      ∧ (∃ p, f = p +:+ ext) ∧ (¬ ∃ r, f = "." +:+ r)
      ∧ path = os.path_join root f.
Proof.
  unfold util.find_files. rewrite list_elem_of_bind. split.
  - intros ([[root dirs] files] & Hp & Hw).
    apply list_elem_of_bind in Hp as (f & Hp & Hf).
    destruct (str.endswith f ext) eqn:E; [|by apply elem_of_nil in Hp].
    destruct (str.startswith f ".") eqn:E'; [by apply elem_of_nil in Hp|].
    apply list_elem_of_singleton in Hp. apply endswith_spec in E.
    exists root, dirs, files, f. repeat split; try done.
    intros Hs. apply startswith_spec in Hs. congruence.
  - intros (root & dirs & files & f & Hw & Hf & He & Hh & ->).
    exists (root, dirs, files). split; [|done].
    apply list_elem_of_bind. exists f. split; [|done].
    apply endswith_spec in He. rewrite He.
    destruct (str.startswith f ".") eqn:E'.
    + apply startswith_spec in E'. contradiction.
    + by apply list_elem_of_singleton.
Qed.

(** C9. The file discovery of the pipeline, [find_files] of [main.py],
    matches the extension as a case-sensitive suffix ([B.LIF] is left out)
    but does not exclude hidden files: in a directory that holds [.a.lif] it
    returns [scans/.a.lif].  [find_files] of [util.py], which [main] does not
    call, leaves the hidden file out. *)
Theorem main_find_files_keeps_hidden_files :
  main.find_files toy.scans_hidden "scans" ".lif"
  = ["scans/a.lif"; "scans/.a.lif"; "scans/more/b.lif"]
  ∧ util.find_files toy.scans_hidden "scans" ".lif"
    = ["scans/a.lif"; "scans/more/b.lif"].
Proof. split; vm_compute; reflexivity. Qed.

(** ** [create_summary_stats] (C2, C10) *)

Lemma lookup_project (cols : list string) (r : gmap string value) c :
  c ∈ cols → pd.project cols r !! c = r !! c.
Proof.
  intros Hc. unfold pd.project. apply option_eq. intros v.
  rewrite map_lookup_filter_Some. simpl. tauto.
Qed.

Lemma glomerulus_key_project (r : gmap string value) :
  glomerulus_key (pd.project main.summary_columns r) = glomerulus_key r.
Proof.
  unfold glomerulus_key.
  rewrite !lookup_project; [done|..]; unfold main.summary_columns;
    rewrite !elem_of_cons; tauto.
Qed.

Lemma elem_of_first_occurrences seen l r :
  r ∈ pd.first_occurrences seen l ↔ r ∈ l ∧ r ∉ seen.
Proof.
  revert seen. induction l as [|x l IH]; intros seen; simpl.
  - rewrite elem_of_nil. tauto.
  - destruct (decide (x ∈ seen)) as [Hx|Hx].
    + rewrite IH, elem_of_cons. split; [tauto|].
      intros [[->|?] ?]; tauto.
    + rewrite !elem_of_cons, IH, elem_of_cons.
      destruct (decide (r = x)) as [->|]; tauto.
Qed.

Lemma NoDup_first_occurrences seen l : NoDup (pd.first_occurrences seen l).
Proof.
  revert seen. induction l as [|x l IH]; intros seen; simpl.
  - constructor.
  - destruct (decide (x ∈ seen)); [done|].
    constructor; [|done].
    rewrite elem_of_first_occurrences, elem_of_cons. tauto.
Qed.

(** [first_occurrences] keeps the order of the first occurrences. *)
Lemma first_occurrences_sublist seen l : pd.first_occurrences seen l `sublist_of` l.
Proof.
  revert seen. induction l as [|x l IH]; intros seen; simpl; [done|].
  destruct (decide (x ∈ seen)); [by apply sublist_cons|by apply sublist_skip].
Qed.

Lemma create_summary_stats_rows (df : pd.DataFrame) :
  pd.len df ≠ 0%nat → main.summary_columns ⊆ pd.columns df →
  main.create_summary_stats df
  = inr (Some {| pd.columns := main.summary_columns;
                 pd.rows := pd.first_occurrences []
                              (pd.project main.summary_columns <$> pd.rows df) |}).
Proof.
  intros Hlen Hcols. unfold main.create_summary_stats, pd.getitem_list.
  rewrite decide_False by done. by rewrite decide_True.
Qed.

Lemma NoDup_fmap_inj_on {X Y} (f : X → Y) (l : list X) x y :
  NoDup (f <$> l) → x ∈ l → y ∈ l → f x = f y → x = y.
Proof.
  induction l as [|z l IH]; simpl; intros Hnd Hx Hy Hf.
  - by apply elem_of_nil in Hx.
  - apply NoDup_cons in Hnd as [Hz Hnd].
    apply elem_of_cons in Hx as [->|Hx], Hy as [->|Hy]; [done|..].
    + destruct Hz. rewrite Hf. by apply list_elem_of_fmap_2.
    + destruct Hz. rewrite <-Hf. by apply list_elem_of_fmap_2.
    + by apply IH.
Qed.

(** C2, as the code has it.  For a non-empty detailed table that holds the
    summary columns, the summary table has no duplicate rows and holds
    exactly the projections of the detailed rows on the glomerulus-scope
    columns; so it has at least one row per distinct (file, series,
    glomerulus index) triple, and exactly one row per triple if and only if
    the rows that agree on the triple agree on every glomerulus-scope
    column. *)
Theorem summary_rows_per_triple (df : pd.DataFrame) :
  pd.len df ≠ 0%nat → main.summary_columns ⊆ pd.columns df →
  ∃ summary,
    main.create_summary_stats df = inr (Some summary)
    ∧ NoDup (pd.rows summary)
    ∧ (∀ r, r ∈ pd.rows summary
            ↔ ∃ r0, r0 ∈ pd.rows df ∧ r = pd.project main.summary_columns r0)
    ∧ (length (remove_dups (glomerulus_key <$> pd.rows df)) ≤ pd.len summary)%nat
    ∧ (pd.len summary = length (remove_dups (glomerulus_key <$> pd.rows df))
       ↔ ∀ r1 r2, r1 ∈ pd.rows df → r2 ∈ pd.rows df →
                  glomerulus_key r1 = glomerulus_key r2 →
                  pd.project main.summary_columns r1
                  = pd.project main.summary_columns r2).
Proof.
  intros Hlen Hcols. eexists. split; [by apply create_summary_stats_rows|].
  unfold pd.len. simpl.
  set (P := pd.project main.summary_columns <$> pd.rows df).
  set (S := pd.first_occurrences [] P).
  set (K := remove_dups (glomerulus_key <$> pd.rows df)).
  assert (HS : ∀ r, r ∈ S ↔ ∃ r0, r0 ∈ pd.rows df
                                  ∧ r = pd.project main.summary_columns r0).
  { intros r. unfold S. rewrite elem_of_first_occurrences, elem_of_nil.
    unfold P. rewrite list_elem_of_fmap. split.
    - intros [(r0 & -> & ?) _]. eauto.
    - intros (r0 & ? & ->). eauto. }
  assert (HK : ∀ k, k ∈ K ↔ k ∈ glomerulus_key <$> S).
  { intros k. unfold K. rewrite elem_of_remove_dups, !list_elem_of_fmap. split.
    - intros (r0 & -> & Hr0). exists (pd.project main.summary_columns r0).
      rewrite glomerulus_key_project. split; [done|]. apply HS. eauto.
    - intros (r & -> & Hr). apply HS in Hr as (r0 & Hr0 & ->).
      rewrite glomerulus_key_project. eauto. }
  assert (HndS : NoDup S) by apply NoDup_first_occurrences.
  assert (HndK : NoDup K) by apply NoDup_remove_dups.
  assert (Hsub : K ⊆+ glomerulus_key <$> S).
  { apply NoDup_submseteq; [done|]. intros k. apply HK. }
  split; [done|]. split; [done|]. split.
  { apply submseteq_length in Hsub. by rewrite length_fmap in Hsub. }
  split.
  - intros Heq r1 r2 Hr1 Hr2 Hkey.
    assert (Hperm : K ≡ₚ glomerulus_key <$> S).
    { apply submseteq_length_Permutation; [done|]. rewrite length_fmap. lia. }
    assert (Hnd : NoDup (glomerulus_key <$> S)) by by rewrite <-Hperm.
    eapply (NoDup_fmap_inj_on glomerulus_key S); [done|..].
    + apply HS. eauto.
    + apply HS. eauto.
    + by rewrite !glomerulus_key_project.
  - intros Hfd.
    assert (Hnd : NoDup (glomerulus_key <$> S)).
    { apply NoDup_fmap_2_strong; [|done].
      intros r r' Hr Hr' Hkey.
      apply HS in Hr as (r1 & Hr1 & ->). apply HS in Hr' as (r2 & Hr2 & ->).
      rewrite !glomerulus_key_project in Hkey. by apply Hfd. }
    assert (Hperm : K ≡ₚ glomerulus_key <$> S).
    { apply NoDup_Permutation; [done..|]. apply HK. }
    rewrite Hperm. by rewrite length_fmap.
Qed.

(** C2, as the specification states it, fails: two rows of one glomerulus
    (same file, series and glomerulus index) that differ in a
    glomerulus-scope column, here the number of podocytes, give two summary
    rows for one triple. *)
Lemma summary_rows_exceed_triples :
  pd.len toy.conflicting ≠ 0%nat
  ∧ length (remove_dups (glomerulus_key <$> pd.rows toy.conflicting)) = 1%nat
  ∧ ∃ summary, main.create_summary_stats toy.conflicting = inr (Some summary)
               ∧ pd.len summary = 2%nat.
Proof.
  split; [done|]. split; [by vm_compute|].
  eexists. split.
  - apply create_summary_stats_rows; [done|].
    apply (bool_decide_unpack _). by vm_compute.
  - by vm_compute.
Qed.

(** C10. On a detailed table without rows [create_summary_stats] returns
    [None], not a table; every table it returns has rows, and it returns
    [None] on no other input.  A caller therefore meets [None] as a case of
    its own. *)
Theorem create_summary_stats_none :
  (∀ columns,
     main.create_summary_stats {| pd.columns := columns; pd.rows := [] |}
     = inr None)
  ∧ (∀ df, main.create_summary_stats df = inr None ↔ pd.len df = 0%nat)
  ∧ (∀ df summary, main.create_summary_stats df = inr (Some summary) →
                   pd.len df ≠ 0%nat ∧ pd.len summary ≠ 0%nat).
Proof.
  split; [done|]. split.
  - intros df. unfold main.create_summary_stats.
    destruct (decide (pd.len df = 0%nat)) as [Hz|Hnz]; [done|].
    split; [|done]. unfold pd.getitem_list.
    destruct (decide (_ ⊆ _)); simpl; discriminate.
  - intros df summary. unfold main.create_summary_stats.
    destruct (decide (pd.len df = 0%nat)) as [Hz|Hnz]; [discriminate|].
    unfold pd.getitem_list. destruct (decide (_ ⊆ _)); simpl; [|discriminate].
    intros [= <-]. split; [done|]. unfold pd.len, pd.drop_duplicates. simpl.
    destruct df as [cols [|r rs]]; [done|]. simpl. lia.

Qed.

Lemma mapM_inr_Forall2 {X Y} (f : X → result Y) l k :
  mapM f l = inr k → Forall2 (λ x y, f x = inr y) l k.
Proof.
  revert k. induction l as [|x l IH]; simpl; intros k.
  - intros [= <-]. constructor.
  - intros Hk. apply bind_inr in Hk as (y & Hy & Hk).
    apply bind_inr in Hk as (k' & Hk' & [= <-]). constructor; auto.
Qed.

Lemma for_dims_lookup {T} n (f : nat → result T) l i y :
  main.for_dims n f = inr l → l !! i = Some y → (i < n)%nat ∧ f i = inr y.
Proof.
  unfold main.for_dims. intros Hl Hi. apply mapM_inr_Forall2 in Hl.
  destruct (Forall2_lookup_r _ _ _ _ _ Hl Hi) as (j & Hj & Hf).
  apply lookup_seq in Hj as [-> ?]. done.
Qed.

Lemma for_dims_length {T} n (f : nat → result T) l :
  main.for_dims n f = inr l → length l = n.
Proof.
  unfold main.for_dims. intros Hl. apply mapM_inr_Forall2 in Hl.
  apply Forall2_length in Hl. by rewrite length_seq in Hl.
Qed.

(** ** [denoise_image] (C7) *)

Section denoise_image.
Context {A : Type} `{!lib.Library A}.

Lemma foldl_collect {T U} (P : T → Prop) `{!∀ x, Decision (P x)} (g : T → U)
    (step : list U → T → list U) acc l :
  (∀ acc x, step acc x = if decide (P x) then acc ++ [g x] else acc) →
  foldl step acc l = acc ++ (g <$> filter P l).
Proof.
  intros Hstep. revert acc. induction l as [|x l IH]; intros acc; simpl.
  - by rewrite app_nil_r.
  - rewrite IH, Hstep, filter_cons. destruct (decide (P x)); [|done].
    simpl. by rewrite <-app_assoc.
Qed.

Lemma voxel_dimensions_known (axes : list ascii) (xy z : Qc) :
  main.voxel_dimensions axes xy z
  = (λ i, if decide (i = "z"%char) then z else xy) <$> filter known_axis axes.
Proof.
  unfold main.voxel_dimensions.
  rewrite (foldl_collect known_axis
             (λ i, if decide (i = "z"%char) then z else xy)); [done|].
  intros acc i. unfold known_axis.
  destruct (decide (i = "x"%char)) as [->|Hx].
  { rewrite decide_True by (rewrite !elem_of_cons; tauto). done. }
  destruct (decide (i = "y"%char)) as [->|Hy].
  { rewrite decide_True by (rewrite !elem_of_cons; tauto). done. }
  destruct (decide (i = "z"%char)) as [->|Hz].
  { rewrite decide_True by (rewrite !elem_of_cons; tauto). done. }
  rewrite !bool_decide_eq_false_2 by done. simpl.
  rewrite decide_False; [done|].
  rewrite !elem_of_cons, elem_of_nil. tauto.
Qed.

(** C7, as the code has it.  [denoise_image] raises no error of its own:
    an axis label that is not [x], [y] or [z] is skipped, and the result, a
    denoised image or an error, is that of the Gaussian filter called with
    one sigma per known label ([mpp / mpp] for [x] and [y], [mpp / mppZ] for
    [z]).  The result is the one for the frame without the unknown labels. *)
Theorem denoise_image_skips_unknown_axes (image : Frame A) :
  main.denoise_image image
  = lib.gaussian (pixels image)
      ((λ i, if decide (i = "z"%char) then (mpp image / mppZ image)%Qc
             else (mpp image / mpp image)%Qc)
       <$> filter known_axis (axes image))
  ∧ main.denoise_image image
    = main.denoise_image {| pixels := pixels image; mpp := mpp image;
                            mppZ := mppZ image;
                            axes := filter known_axis (axes image) |}.
Proof.
  unfold main.denoise_image. simpl. rewrite !voxel_dimensions_known.
  rewrite <-!list_fmap_compose. split.
  - f_equal. apply list_fmap_ext. intros _ i _. simpl. by destruct (decide _).
  - f_equal. f_equal. symmetry. apply list_filter_filter_l. done.
Qed.

End denoise_image.

(** C7, as the specification states it, fails: the channel view that [main]
    passes to [denoise_image] carries the axis labels [z], [y], [x], [c] of
    the frame; [c] is not one of [x], [y], [z], and the image is denoised. *)
Lemma denoise_image_accepts_channel_axis :
  ∃ view denoised,
    pims.channel (toy.volume 0 5) 1 = inr view
    ∧ "c"%char ∈ axes view ∧ ¬ known_axis "c"%char
    ∧ main.denoise_image view = inr denoised.
Proof.
  eexists _, _. split; [reflexivity|]. split; [|split].
  - simpl. rewrite !elem_of_cons. tauto.
  - by apply (bool_decide_unpack _).
  - reflexivity.
Qed.

(** ** [podocyte_statistics] and [find_podocytes] (C3, C8) *)

Section podocyte_statistics.
Context {A : Type} `{!lib.Library A}.

(** The offset that [find_podocytes] returns is the lower corner of the
    bounding box moved by the cropping margin of 10 voxels. *)
Lemma find_podocytes_offset (image : ndarray A) glom regions o wshed :
  main.find_podocytes image glom = inr (regions, o, wshed) →
  o = (λ b, b - 10) <$> take (ndim image) (bbox glom).
Proof.
  unfold main.find_podocytes. intros Hrun.
  apply bind_inr in Hrun as (o' & Ho & Hrun).
  apply bind_inr in Hrun as (roi & _ & Hrun).
  apply bind_inr in Hrun as (w & _ & [= _ <- _]).
  assert (Hlen := for_dims_length _ _ _ Ho).
  assert (Hget : ∀ i off, o' !! i = Some off →
                          (i < ndim image)%nat
                          ∧ ∃ b, bbox glom !! i = Some b ∧ off = b - 10).
  { intros i off Hi. destruct (for_dims_lookup _ _ _ _ _ Ho Hi) as [Hlt Hf].
    split; [done|]. apply bind_inr in Hf as (b & Hb & [= <-]).
    apply getitem_inv in Hb. eauto. }
  apply list_eq. intros i. rewrite list_lookup_fmap.
  destruct (o' !! i) as [off|] eqn:Hi.
  - destruct (Hget _ _ Hi) as (Hlt & b & Hb & ->).
    by rewrite lookup_take_lt, Hb.
  - apply lookup_ge_None in Hi. rewrite Hlen in Hi.
    by rewrite lookup_take_ge.
Qed.

(** One round of the loop of [podocyte_statistics] appends one row, which
    reports the centroid of the region translated by the offset. *)
Lemma podocyte_statistics_rows (o : list Z) (voxel_volume : Qc) regions df0 df :
  for_each (λ df pod,
      real_podocyte_centroid ←
        main.for_dims (length (centroid pod)) (λ dim,
          c ← getitem (centroid pod) dim;
          o ← getitem o dim;
          mret (c + Qc_of_Z o)%Qc);
      x ← getitem real_podocyte_centroid 2;
      y ← getitem real_podocyte_centroid 1;
      z ← getitem real_podocyte_centroid 0;
      let contents :=
        [("podocyte_label_number", VInt (label pod));
         ("podocyte_voxel_number", VInt (area pod));
         ("podocyte_volume", VNum (Qc_of_Z (area pod) * voxel_volume)%Qc);
         ("podocyte_equiv_diam_pixels", VNum (equivalent_diameter pod));
         ("podocyte_centroid_x", VNum x);
         ("podocyte_centroid_y", VNum y);
         ("podocyte_centroid_z", VNum z)] in
      mret (pd.append_dict df contents)) df0 regions = inr df →
  ∃ rows, pd.rows df = pd.rows df0 ++ rows
          ∧ Forall2 (reports_centroid o) regions rows.
Proof.
  revert df0. induction regions as [|pod regions IH]; simpl; intros df0 Hrun.
  - injection Hrun as <-. exists []. by rewrite app_nil_r.
  - apply bind_inr in Hrun as (df1 & Hstep & Hrun).
    apply IH in Hrun as (rows & Hrows & Hall).
    apply bind_inr in Hstep as (real & Hreal & Hstep).
    apply bind_inr in Hstep as (x & Hx & Hstep).
    apply bind_inr in Hstep as (y & Hy & Hstep).
    apply bind_inr in Hstep as (z & Hz & [= <-]).
    simpl in Hrows. rewrite <-app_assoc in Hrows.
    eexists. split; [exact Hrows|]. simpl. constructor; [|done].
    assert (Hdim : ∀ dim v, real !! dim = Some v →
              ∃ c off, centroid pod !! dim = Some c ∧ o !! dim = Some off
                       ∧ v = (c + Qc_of_Z off)%Qc).
    { intros dim v Hv.
      destruct (for_dims_lookup _ _ _ _ _ Hreal Hv) as [_ Hf].
      apply bind_inr in Hf as (c & Hc & Hf).
      apply bind_inr in Hf as (off & Hoff & [= <-]).
      apply getitem_inv in Hc, Hoff. eauto. }
    apply getitem_inv, Hdim in Hx as (cx & ox & ? & ? & ->).
    apply getitem_inv, Hdim in Hy as (cy & oy & ? & ? & ->).
    apply getitem_inv, Hdim in Hz as (cz & oz & ? & ? & ->).
    intros dim column Hin. rewrite !elem_of_cons, elem_of_nil in Hin.
    destruct Hin as [[= -> ->]|[[= -> ->]|[[= -> ->]|[]]]]; eauto.
Qed.

(** C3. When [find_podocytes] has measured the regions of a glomerulus
    inside its ROI and [podocyte_statistics] has tabulated them, the offset is
    the lower corner of the bounding box of the glomerulus minus the margin
    (10) on every axis, and the row of every region reports, in
    [podocyte_centroid_z], [podocyte_centroid_y] and [podocyte_centroid_x], the
    coordinates 0, 1 and 2 of its local centroid plus that same offset. *)
Theorem podocyte_centroids_are_offset (image : ndarray A) glom regions o wshed
    (voxel_volume : Qc) df :
  main.find_podocytes image glom = inr (regions, o, wshed) →
  main.podocyte_statistics regions o voxel_volume = inr (Some df) →
  o = (λ b, b - 10) <$> take (ndim image) (bbox glom)
  ∧ Forall2 (reports_centroid o) regions (pd.rows df).
Proof.
  intros Hfind Hstat. split; [by eapply find_podocytes_offset|].
  unfold main.podocyte_statistics in Hstat.
  apply bind_inr in Hstat as (df' & Hloop & Hstat).
  destruct (decide _); [|discriminate]. injection Hstat as <-.
  apply podocyte_statistics_rows in Hloop as (rows & Hrows & Hall).
  simpl in Hrows. by rewrite Hrows.
Qed.

(** The skip of a glomerulus (C8).  For a glomerulus whose watershed label
    image has no region, [podocyte_statistics] returns [None] and raises
    nothing; the round of the loop of [main] for this glomerulus leaves the
    table and the glomerulus index as they were, and the loop goes on with
    the next glomeruli exactly as if this one had not been there. *)
Theorem glomerulus_without_podocytes_is_skipped (podocytes_view : ndarray A)
    (voxel_volume : Qc) glom offset wshed detailed_stats glom_index rest :
  main.find_podocytes podocytes_view glom = inr ([], offset, wshed) →
  main.podocyte_statistics [] offset voxel_volume = inr None
  ∧ main.main_glom podocytes_view voxel_volume (detailed_stats, glom_index) glom
    = inr (detailed_stats, glom_index)
  ∧ for_each (main.main_glom podocytes_view voxel_volume)
      (detailed_stats, glom_index) (glom :: rest)
    = for_each (main.main_glom podocytes_view voxel_volume)
        (detailed_stats, glom_index) rest.
Proof.
  intros Hfind.
  assert (Hskip : main.main_glom podocytes_view voxel_volume
                    (detailed_stats, glom_index) glom
                  = inr (detailed_stats, glom_index)).
  { unfold main.main_glom. by rewrite Hfind. }
  split; [done|]. split; [done|]. by rewrite for_each_cons, Hskip.
Qed.

End podocyte_statistics.

(** ** [crop_region_of_interest] (C4) *)

(** The arrays of [crop_region_of_interest] hold one number per axis; on a
    bounding box of the rank of the image each of them is a function of the
    triple (lower corner, upper corner, image size) of its axis. *)

Lemma zip_with_fmap_same {T X Y U} (g : X → Y → U) (f1 : T → X) (f2 : T → Y) l :
  zip_with g (f1 <$> l) (f2 <$> l) = (λ t, g (f1 t) (f2 t)) <$> l.
Proof. induction l as [|t l IH]; simpl; [done|]. by f_equal. Qed.

Lemma getitem_fmap {T X} (f : T → X) l i t :
  l !! i = Some t → getitem (f <$> l) i = inr (f t).
Proof. intros Hi. apply getitem_inr. by rewrite list_lookup_fmap, Hi. Qed.

Lemma mapM_inr_intro {X Y} (f : X → result Y) l k :
  Forall2 (λ x y, f x = inr y) l k → mapM f l = inr k.
Proof.
  induction 1 as [|x y l k Hxy _ IH]; simpl; [done|]. by rewrite Hxy, IH.
Qed.

Lemma for_dims_intro {T} n (f : nat → result T) l :
  length l = n → (∀ i y, l !! i = Some y → f i = inr y) →
  main.for_dims n f = inr l.
Proof.
  intros Hlen Hf. apply mapM_inr_intro.
  apply Forall2_same_length_lookup_2.
  - by rewrite length_seq.
  - intros i j y Hj Hy. apply lookup_seq in Hj as [-> _]. by apply Hf.
Qed.

Lemma for_dims_fmap2 {T X Y U} (g : X → Y → U) (f1 : T → X) (f2 : T → Y) l :
  main.for_dims (length l)
    (λ dim, x ← getitem (f1 <$> l) dim; y ← getitem (f2 <$> l) dim; mret (g x y))
  = inr ((λ t, g (f1 t) (f2 t)) <$> l).
Proof.
  apply for_dims_intro; [by rewrite length_fmap|].
  intros i y Hy. apply list_lookup_fmap_Some in Hy as (t & -> & Ht).
  by rewrite (getitem_fmap f1 _ _ _ Ht), (getitem_fmap f2 _ _ _ Ht).
Qed.

Lemma broadcast2_fmap {T} (g : Z → Z → Z) (f1 f2 : T → Z) l :
  np.broadcast2 g (f1 <$> l) (f2 <$> l) = inr ((λ t, g (f1 t) (f2 t)) <$> l).
Proof.
  unfold np.broadcast2. rewrite decide_True by by rewrite !length_fmap.
  by rewrite zip_with_fmap_same.
Qed.

Lemma bounds_fmap {T} (f : T → Z) (g : T → Z * Z) l :
  np.bounds (f <$> l) (g <$> l) = (λ t, np.slice_bounds (f t) (g t)) <$> l.
Proof.
  unfold np.bounds. rewrite zip_with_fmap_same.
  rewrite drop_ge by (rewrite !length_fmap; lia). simpl. by rewrite app_nil_r.
Qed.

(** The arithmetic of one axis: for a box within the image and a margin
    that is not negative, the window read from the image and the window
    written in the ROI have the same length. *)
Lemma crop_axis_windows (lo hi n margin : Z) :
  0 ≤ margin → 0 ≤ lo ≤ hi → hi ≤ n →
  (np.slice_bounds n (Z.max 0 (lo - margin), Z.min (hi + margin) n)).2
  = (np.slice_bounds (Z.abs (hi + margin - (lo - margin)))
       (Z.abs (Z.max 0 (lo - margin) - (lo - margin)),
        Z.abs (hi + margin - (lo - margin))
        - Z.abs (hi + margin - Z.min (hi + margin) n))).2.
Proof.
  intros Hm Hlo Hhi. unfold np.slice_bounds. simpl.
  repeat case_decide; lia.
Qed.

Section crop_region_of_interest.
Context {A : Type} `{!lib.Library A}.

(** C4. For an image, a bounding box within it, a margin that is not
    negative and one of the pad modes [zeros] and [mean],
    [crop_region_of_interest] returns an array, and its shape is on every axis
    the extent of the bounding box plus twice the margin, however much of the
    enlarged window lies beyond the image. *)
Theorem crop_region_of_interest_shape (image : ndarray A) (bbox : list Z)
    (margin : Z) (pad_mode : string) :
  pad_mode = "zeros" ∨ pad_mode = "mean" →
  0 ≤ margin →
  bbox_within (shape image) bbox →
  ∃ roi_image,
    main.crop_region_of_interest image bbox margin pad_mode = inr roi_image
    ∧ shape roi_image
      = zip_with (λ lo hi, hi - lo + 2 * margin)
          (take (ndim image) bbox) (drop (ndim image) bbox).
Proof.
  intros Hpad Hmargin [Hlen Hbox]. fold (ndim image) in Hlen, Hbox.
  set (T := zip (take (ndim image) bbox) (zip (drop (ndim image) bbox) (shape image)))
    in Hbox.
  assert (Hn : length T = ndim image).
  { unfold T. rewrite !length_zip, length_take, length_drop. unfold ndim in *. lia. }
  assert (HL : take (ndim image) bbox = (λ t, t.1) <$> T).
  { unfold T. symmetry. apply fst_zip.
    rewrite length_zip, length_take, length_drop. unfold ndim in *. lia. }
  assert (HH : drop (ndim image) bbox = (λ t, t.2.1) <$> T).
  { change (drop (ndim image) bbox = (fst ∘ snd) <$> T).
    unfold T. rewrite (list_fmap_compose snd fst), snd_zip, fst_zip; [done|..].
    - rewrite length_drop. unfold ndim in *. lia.
    - rewrite length_zip, length_take, length_drop. unfold ndim in *. lia. }
  assert (HS : shape image = (λ t, t.2.2) <$> T).
  { change (shape image = (snd ∘ snd) <$> T).
    unfold T. rewrite (list_fmap_compose snd snd), !snd_zip; [done|..].
    - rewrite length_drop. unfold ndim in *. lia.
    - rewrite length_zip, length_take, length_drop. unfold ndim in *. lia. }
  unfold main.crop_region_of_interest. cbv zeta.
  rewrite HL, HH, <-Hn, HS. rewrite <-!list_fmap_compose.
  unfold np.minimum, np.subtract.
  rewrite broadcast2_fmap. simpl.
  rewrite for_dims_fmap2. simpl.
  rewrite broadcast2_fmap. simpl.
  rewrite broadcast2_fmap. simpl.
  rewrite <-!list_fmap_compose.
  rewrite broadcast2_fmap. simpl.
  rewrite for_dims_fmap2. simpl.
  rewrite for_dims_fmap2. simpl.
  set (size := (λ t : Z * (Z * Z), Z.abs (t.2.1 + margin - (t.1 - margin)))).
  set (image_slice := (λ t : Z * (Z * Z),
         (Z.max 0 (t.1 - margin), Z.min (t.2.1 + margin) t.2.2))).
  set (roi_slice := (λ t : Z * (Z * Z), (_, _))).
  assert (Hvalid : np.getitem_slices image (image_slice <$> T)
                   = inr (NDArray ((λ t, (np.slice_bounds t.2.2 (image_slice t)).2) <$> T)
                            (λ j, data image
                                    (zip_with (λ b x, b.1 + x)
                                       (np.bounds (shape image) (image_slice <$> T)) j)))).
  { unfold np.getitem_slices.
    rewrite decide_True by (rewrite length_fmap; lia). simpl.
    f_equal. f_equal. rewrite HS at 1. rewrite bounds_fmap.
    by rewrite <-list_fmap_compose. }
  assert (Hfull : ∀ v : A, np.full (size <$> T) v = inr (NDArray (size <$> T) (λ _, v))).
  { intros v. unfold np.full. rewrite decide_True; [done|].
    apply Forall_fmap, Forall_true. intros t. unfold size. simpl. lia. }
  assert (Hset : ∀ roi valid : ndarray A,
            shape roi = size <$> T →
            shape valid = (λ t, (np.slice_bounds t.2.2 (image_slice t)).2) <$> T →
            ∃ roi', np.setitem_slices roi (roi_slice <$> T) valid = inr roi'
                    ∧ shape roi' = size <$> T).
  { intros roi valid Hroi Hval. unfold np.setitem_slices.
    rewrite decide_True by (unfold ndim; rewrite Hroi, !length_fmap; lia).
    rewrite Hroi, bounds_fmap, Hval, <-list_fmap_compose. simpl.
    rewrite decide_True; [eauto|].
    unfold np.broadcastable. apply Forall2_fmap, Forall_Forall2_diag.
    eapply Forall_impl; [exact Hbox|]. intros [lo [hi n]] [Hlo Hhi]. simpl in *.
    left. unfold image_slice, roi_slice, size. simpl.
    by apply crop_axis_windows. }
  assert (Hzip : zip_with (λ lo hi, hi - lo + 2 * margin)
                   ((λ t, t.1) <$> T) ((λ t, t.2.1) <$> T) = size <$> T).
  { rewrite zip_with_fmap_same. apply Forall_fmap_ext_1.
    eapply Forall_impl; [exact Hbox|]. intros [lo [hi n]] [Hlo Hhi].
    unfold size. simpl in *. lia. }
  rewrite Hvalid, Hzip.
  destruct Hpad as [->| ->].
  - eapply bind_inr_exists.
    { rewrite decide_True by done. apply Hfull. }
    rewrite bind_ret. by apply Hset.
  - eapply bind_inr_exists.
    { rewrite decide_False by done. rewrite decide_True by done.
      rewrite bind_ret. apply Hfull. }
    rewrite bind_ret. by apply Hset.
Qed.

End crop_region_of_interest.

(** ** Index tuples *)

Lemma elem_of_indices (sh idx : list Z) : idx ∈ indices sh ↔ in_range sh idx.
Proof.
  unfold in_range. revert idx. induction sh as [|n sh IH]; intros idx; simpl.
  - rewrite list_elem_of_singleton. split; [intros ->; constructor|].
    by intros ->%Forall2_nil_inv_l.
  - rewrite list_elem_of_bind. split.
    + intros (i & Hidx & Hi). apply list_elem_of_fmap in Hidx as (idx' & -> & Hidx').
      apply elem_of_seqZ in Hi. constructor; [lia|]. by apply IH.
    + intros Hr. apply Forall2_cons_inv_l in Hr as (i & idx' & Hi & Hr & ->).
      exists i. split.
      * apply list_elem_of_fmap. exists idx'. split; [done|]. by apply IH.
      * apply elem_of_seqZ. lia.
Qed.

Lemma in_range_origin (sh idx : list Z) : in_range sh idx → in_range sh (origin sh).
Proof.
  unfold in_range, origin. induction 1 as [|n i sh idx Hi _ IH]; simpl.
  - constructor.
  - constructor; [lia|done].
Qed.

Lemma in_range_positive (sh : list Z) :
  Forall (λ n, 2 ≤ n) sh → in_range sh (origin sh).
Proof.
  unfold in_range, origin. induction 1 as [|n sh Hn _ IH]; simpl.
  - constructor.
  - constructor; [lia|done].
Qed.

(** [np.max] of a boolean array that holds [True] at an index in range. *)
Lemma np_max_true (a : ndarray bool) idx :
  in_range (shape a) idx → data a idx = true → np.max a = inr true.
Proof.
  intros Hr Hd. unfold np.max. apply elem_of_indices in Hr.
  destruct (indices (shape a)) as [|i0 idxs] eqn:E.
  - by apply elem_of_nil in Hr.
  - f_equal. apply existsb_exists. exists idx. split; [|done].
    by apply list_elem_of_In.
Qed.

Lemma np_max_inr (a : ndarray bool) idx :
  in_range (shape a) idx → ∃ m, np.max a = inr m.
Proof.
  intros Hr. unfold np.max. apply elem_of_indices in Hr.
  destruct (indices (shape a)) as [|i0 idxs] eqn:E; [|eauto].
  by apply elem_of_nil in Hr.
Qed.

Lemma normalize_indices_in_range (sh idx : list Z) :
  in_range (take (length idx) sh) idx → np.normalize_indices sh idx = inr idx.
Proof.
  unfold in_range. revert sh.
  induction idx as [|i idx IH]; intros sh Hr; [by destruct sh|].
  destruct sh as [|n sh]; simpl in Hr; [by apply Forall2_nil_inv_l in Hr|].
  apply Forall2_cons in Hr as [Hi Hr]. simpl.
  unfold np.normalize_index. rewrite decide_True by done. simpl.
  by rewrite IH.
Qed.

Lemma setitem_in_range {B} (a : ndarray B) (idx : list Z) (v : B) :
  in_range (take (length idx) (shape a)) idx →
  np.setitem a idx v
  = inr (NDArray (shape a)
           (λ j, if decide (take (length idx) j = idx) then v else data a j)).
Proof.
  intros Hr. unfold np.setitem. by rewrite normalize_indices_in_range.
Qed.

(** ** [marker_controlled_watershed] (C5) *)

Section marker_controlled_watershed.
Context {A : Type} `{!lib.Library A} `{!lib.Laws A}.

Lemma gradient_of_image_shape (image : ndarray A) :
  shape image ≠ [] → Forall (λ n, 2 ≤ n) (shape image) →
  ∃ g, main.gradient_of_image image = inr g ∧ shape g = shape image.
Proof.
  intros Hne Hsh.
  destruct (lib.gradient_spec image Hne Hsh) as (gs & Hgs & Hlen & Hall).
  unfold main.gradient_of_image. rewrite Hgs, bind_ret.
  destruct gs as [|g gs].
  { unfold ndim in Hlen. by destruct (shape image). }
  assert (Hg : shape g = shape image) by by apply Forall_cons in Hall as [? _].
  rewrite decide_True.
  - eexists. split; [done|]. done.
  - eapply Forall_impl; [exact Hall|]. simpl. intros g' ->. done.
Qed.

(** The boolean image of the seeds: it has the shape asked for, and a
    voxel is marked only where a blob lies. *)
Lemma blob_dog_image_spec (marker_coords : list (list Qc)) (sh : list Z) :
  Forall (λ n, 2 ≤ n) sh →
  Forall (seed_in_image sh) marker_coords →
  ∃ blob_map, main.blob_dog_image marker_coords sh = inr blob_map
              ∧ shape blob_map = sh
              ∧ ∀ j, data blob_map j = true → seed_voxel marker_coords j.
Proof.
  intros Hsh Hseeds. unfold main.blob_dog_image, np.full.
  rewrite decide_True by (eapply Forall_impl; [exact Hsh|]; simpl; lia).
  rewrite bind_mret.
  cut (∀ blob_map0 : ndarray bool, shape blob_map0 = sh →
         ∃ blob_map,
           for_each (λ blob_map blob,
                       b0 ← getitem blob 0; b1 ← getitem blob 1;
                       b2 ← getitem blob 2;
                       np.setitem blob_map [py_int b0; py_int b1; py_int b2] true)
             blob_map0 marker_coords = inr blob_map
           ∧ shape blob_map = sh
           ∧ ∀ j, data blob_map j = true →
                  data blob_map0 j = true ∨ seed_voxel marker_coords j).
  { intros Hloop. destruct (Hloop (NDArray sh (λ _, false)) eq_refl)
      as (blob_map & Hrun & Hshape & Hdata).
    exists blob_map. split; [done|]. split; [done|].
    intros j Hj. by destruct (Hdata j Hj). }
  induction Hseeds as [|blob coords Hblob _ IH]; intros blob_map0 Hshape0.
  - exists blob_map0. split; [done|]. split; [done|]. auto.
  - destruct Hblob as (b0 & b1 & b2 & rest & -> & Hr).
    rewrite for_each_cons.
    rewrite (getitem_inr (b0 :: b1 :: b2 :: rest) 0 b0 eq_refl), bind_ret.
    rewrite (getitem_inr (b0 :: b1 :: b2 :: rest) 1 b1 eq_refl), bind_ret.
    rewrite (getitem_inr (b0 :: b1 :: b2 :: rest) 2 b2 eq_refl), bind_ret.
    rewrite setitem_in_range by by rewrite Hshape0.
    rewrite bind_ret.
    match goal with
    | |- ∃ _, for_each _ ?marked _ = _ ∧ _ =>
        destruct (IH marked Hshape0) as (blob_map & Hrun & Hshape & Hdata)
    end.
    exists blob_map. split; [done|]. split; [done|].
    intros j Hj. destruct (Hdata j Hj) as [Hj0|(c0 & c1 & c2 & r & Hin & Htake)].
    + simpl in Hj0. destruct (decide _) as [Htake|_]; [|by left].
      right. exists b0, b1, b2, rest. split; [by left|done].
    + right. exists c0, c1, c2, r. split; [by right|done].
Qed.

(** A block of foreground voxels that spans the last axes of the array is
    within one component: every voxel of the block has the number of the
    first one. *)
Lemma label_block (s : ndarray bool) (sh1 sh2 pre : list Z) :
  shape s = sh1 ++ sh2 → in_range sh1 pre →
  (∀ x, in_range sh2 x → data s (pre ++ x) = true) →
  ∀ x, in_range sh2 x →
       data (lib.label s) (pre ++ x) = data (lib.label s) (pre ++ origin sh2).
Proof.
  revert sh1 pre. induction sh2 as [|n sh2 IH]; intros sh1 pre Hsh Hpre Hfg x Hx.
  - by apply Forall2_nil_inv_l in Hx as ->.
  - apply Forall2_cons_inv_l in Hx as (a & x' & Ha & Hx' & ->).
    assert (Hz : in_range sh2 (origin sh2)) by by eapply in_range_origin.
    trans (data (lib.label s) (pre ++ a :: origin sh2)).
    { rewrite !(cons_middle a), !app_assoc.
      apply (IH (sh1 ++ [n]) (pre ++ [a])).
      - by rewrite <-app_assoc.
      - apply Forall2_app; [done|]. by constructor.
      - intros y Hy. rewrite <-app_assoc. apply Hfg. by constructor.
      - done. }
    change (origin (n :: sh2)) with (0 :: origin sh2).
    assert (Hwalk : ∀ k : nat, Z.of_nat k < n →
              data (lib.label s) (pre ++ Z.of_nat k :: origin sh2)
              = data (lib.label s) (pre ++ 0 :: origin sh2)).
    { induction k as [|k IHk]; intros Hk; [done|].
      rewrite <-IHk by lia. symmetry.
      assert (Hin : ∀ c, 0 ≤ c < n → in_range (shape s) (pre ++ c :: origin sh2)).
      { intros c Hc. rewrite Hsh. apply Forall2_app; [done|]. by constructor. }
      apply lib.label_adjacent.
      - apply Hin. lia.
      - apply Hin. lia.
      - exists pre, (Z.of_nat k), (origin sh2). split; [done|].
        do 3 f_equal. lia.
      - apply Hfg. constructor; [lia|done].
      - apply Hfg. constructor; [lia|done]. }
    rewrite <-(Z2Nat.id a) by lia. apply Hwalk. lia.
Qed.

(** C5. For a ROI with at least two voxels on every axis and seeds within
    it, [marker_controlled_watershed] returns a label image of the shape of
    the ROI.  The background marker is the plane of index 0 of the first axis
    of the seed image; no voxel of the result holds its number, and every
    voxel holds 0 or the number that labels a voxel marked by a seed. *)
Theorem marker_controlled_watershed_labels (grayscale_image : ndarray A)
    (marker_coords : list (list Qc)) :
  shape grayscale_image ≠ [] →
  Forall (λ n, 2 ≤ n) (shape grayscale_image) →
  Forall (seed_in_image (shape grayscale_image)) marker_coords →
  ∃ blob_map seeds wshed,
    main.blob_dog_image marker_coords (shape grayscale_image) = inr blob_map
    ∧ np.setitem blob_map [0] true = inr seeds
    ∧ main.marker_controlled_watershed grayscale_image marker_coords = inr wshed
    ∧ shape wshed = shape grayscale_image
    ∧ ∀ i, in_range (shape grayscale_image) i →
        data wshed i
        ≠ data (lib.label seeds) (origin (shape grayscale_image))
        ∧ (data wshed i = 0
           ∨ ∃ j, in_range (shape grayscale_image) j
                  ∧ seed_voxel marker_coords j
                  ∧ data wshed i = data (lib.label seeds) j).
Proof.
  intros Hne Hsh Hseeds.
  destruct (gradient_of_image_shape _ Hne Hsh) as (g & Hg & Hgshape).
  destruct (blob_dog_image_spec _ _ Hsh Hseeds)
    as (blob_map & Hblob & Hbshape & Hbdata).
  assert (Horigin : in_range (shape grayscale_image) (origin (shape grayscale_image)))
    by by apply in_range_positive.
  destruct (shape grayscale_image) as [|n0 sh'] eqn:Eshape; [done|].
  apply Forall_cons in Hsh as [Hn0 Hsh'].
  assert (Hset : np.setitem blob_map [0] true
                 = inr (NDArray (n0 :: sh')
                          (λ j, if decide (take 1 j = [0]) then true
                                else data blob_map j))).
  { rewrite setitem_in_range; [by rewrite Hbshape|].
    rewrite Hbshape. simpl. constructor; [lia|constructor]. }
  set (seeds := NDArray (n0 :: sh')
                  (λ j, if decide (take 1 j = [0]) then true else data blob_map j))
    in *.
  destruct (np_max_inr blob_map (origin (n0 :: sh'))) as [m Hm];
    [by rewrite Hbshape|].
  assert (Hmax : np.max seeds = inr true).
  { by apply (np_max_true seeds (origin (n0 :: sh'))). }
  destruct (lib.watershed_spec g (lib.label seeds)) as (w & Hw & Hwshape & Hwdata).
  { by rewrite lib.label_shape, Hgshape. }
  rewrite lib.label_shape in Hwshape, Hwdata. simpl in Hwshape, Hwdata.
  assert (Hbg : data (lib.label seeds) (origin (n0 :: sh')) = 1).
  { by apply lib.label_first. }
  assert (Hplane : ∀ j, in_range (n0 :: sh') j → take 1 j = [0] →
                        data (lib.label seeds) j = 1).
  { intros j Hj Htake. rewrite <-Hbg.
    apply Forall2_cons_inv_l in Hj as (j0 & j' & Hj0 & Hj' & ->).
    injection Htake as ->.
    apply (label_block seeds [n0] sh' [0]); [done| |done|done].
    constructor; [lia|constructor]. }
  exists blob_map, seeds, (NDArray (shape w)
                             (λ j, if decide (data w j = Z.b2z true) then 0
                                   else data w j)).
  split; [done|]. split; [done|]. split.
  { unfold main.marker_controlled_watershed.
    rewrite Hg, bind_ret, Eshape, Hblob, bind_ret, Hm, bind_ret.
    replace (main.bool_of_int (Z.b2z m + 1)) with true by by destruct m.
    rewrite Hset, bind_ret, Hw, bind_ret, Hmax, bind_ret. done. }
  split; [done|].
  intros i Hi. rewrite Hbg. simpl. split.
  - destruct (decide (data w i = 1)); [done|lia].
  - destruct (decide (data w i = 1)) as [|Hne1]; [by left|].
    destruct (Hwdata i Hi) as [Hz|(j & Hj & Hjne & Hij)]; [by left|].
    right. exists j. split; [done|]. split; [|done].
    apply Hbdata.
    assert (Hfg : data seeds j = true).
    { destruct (data seeds j) eqn:E; [done|].
      apply (lib.label_background seeds j Hj) in E. contradiction. }
    simpl in Hfg. destruct (decide (take 1 j = [0])) as [Htake|_]; [|done].
    destruct Hne1. rewrite Hij. by apply Hplane.
Qed.

End marker_controlled_watershed.

(** ** The small instance satisfies the laws *)

Lemma toy_label_touches (s : ndarray bool) n sh' j :
  shape s = n :: sh' → in_range (n :: sh') (1 :: j) → data s (1 :: j) = true →
  bool_decide (2 ≤ n) && existsb (λ j, data s (1 :: j)) (indices sh') = true.
Proof.
  intros Hs Hj Hd. apply Forall2_cons in Hj as [Hn Hj].
  rewrite bool_decide_eq_true_2 by lia. simpl.
  apply existsb_exists. exists j. split; [|done].
  apply list_elem_of_In. by apply elem_of_indices.
Qed.

#[global] Instance toy_laws : lib.Laws Z.
Proof.
  split.
  - intros a Hne Hsh. exists (replicate (ndim a) a). simpl. unfold toy.gradient.
    rewrite decide_True by done. split; [done|]. split.
    + by rewrite length_replicate.
    + by apply Forall_replicate.
  - done.
  - intros s i _. simpl. destruct (data s i); [|done].
    split; [|done]. by destruct (_ || _).
  - intros s Hr Hfg. simpl. rewrite Hfg.
    replace (bool_decide (default 0 (head (origin (shape s))) = 0)) with true.
    + by rewrite orb_true_r.
    + symmetry. apply bool_decide_eq_true_2. by destruct (shape s).
  - intros s i j Hi Hj (pre & a & suf & -> & ->) Hfi Hfj. simpl.
    rewrite Hfi, Hfj.
    destruct pre as [|p pre]; [|done]. simpl in *.
    destruct (shape s) as [|n sh'] eqn:Es; [by apply Forall2_nil_inv_l in Hi|].
    destruct (decide (a = 0)) as [->|Ha].
    + rewrite (toy_label_touches s n sh' suf Es Hj Hfj). done.
    + apply Forall2_cons in Hi as [Hi _].
      rewrite !(bool_decide_eq_false_2 (_ = 0)) by lia. done.
  - intros image markers Hshape. simpl. unfold toy.watershed.
    rewrite decide_True by done. eexists. split; [done|]. split; [done|].
    intros i Hi. simpl.
    destruct (decide (data markers i = 0)) as [Hz|Hnz].
    + destruct (decide (data markers (origin (shape markers)) = 0)) as [|Hfirst];
        [by left|].
      right. exists (origin (shape markers)). split; [|done].
      by eapply in_range_origin.
    + right. by exists i.
Qed.

(** ** The loop of [main] over the series (C1) *)

Section main_series.
Context {A : Type} `{!lib.Library A}.

(** Whatever the table held before, when the round of a series ends every
    row of the table, the rows of the earlier series included, carries the
    identifiers of this series, and this table is the one written. *)
Lemma main_series_stamps_every_row (channel_glomeruli channel_podocytes : Z)
    (min_glom_diameter max_glom_diameter : Qc) (filename : string)
    (st : pd.DataFrame * option pd.DataFrame) (series : Series A)
    detailed_stats written :
  main.main_series channel_glomeruli channel_podocytes min_glom_diameter
    max_glom_diameter filename st series = inr (detailed_stats, written) →
  written = Some detailed_stats
  ∧ Forall (λ r, r !! "image_filename" = Some (VStr filename)
                 ∧ r !! "image_series_num" = Some (VStr (ImageID series))
                 ∧ r !! "image_series_name" = Some (VStr (ImageName series)))
      (pd.rows detailed_stats).
Proof.
  unfold main.main_series. destruct st as [detailed_stats0 written0].
  intros Hrun.
  apply bind_inr in Hrun as (view & _ & Hrun).
  apply bind_inr in Hrun as (labels & _ & Hrun).
  apply bind_inr in Hrun as (table & _ & [= <- <-]).
  split; [done|]. simpl. rewrite <-!list_fmap_compose.
  apply Forall_fmap, Forall_true. intros r. simpl. split; [|split].
  - by rewrite lookup_insert_eq.
  - rewrite !lookup_insert_ne by done. by rewrite lookup_insert_eq.
  - rewrite lookup_insert_ne by done. by rewrite lookup_insert_eq.
Qed.

End main_series.

(** ** The program on concrete inputs *)

Lemma run_inr {X} (r : result X) (P : X → Prop) `{!∀ x, Decision (P x)} :
  match r with inr x => bool_decide (P x) | inl _ => false end = true →
  ∃ x, r = inr x ∧ P x.
Proof.
  destruct r as [e|x]; [discriminate|]. intros HP%bool_decide_eq_true. eauto.
Qed.

Lemma found_inr (view : ndarray Z) regions centroid_offset :
  toy.found view = inr (regions, centroid_offset) →
  main.find_podocytes view toy.glom
  = inr (regions, centroid_offset, toy.found_wshed view).
Proof.
  unfold toy.found, toy.found_wshed.
  destruct (main.find_podocytes view toy.glom) as [e|[[rs off] w]];
    [discriminate|].
  by intros [= -> ->].
Qed.

Lemma found_bright :
  main.find_podocytes toy.bright_view toy.glom
  = inr ([toy.podocyte], [-10; -10; -10], toy.found_wshed toy.bright_view).
Proof. apply found_inr. apply (bool_decide_unpack _). by vm_compute. Qed.

Lemma found_blank :
  main.find_podocytes toy.blank_view toy.glom
  = inr ([], [-10; -10; -10], toy.found_wshed toy.blank_view).
Proof. apply found_inr. by vm_compute. Qed.

Lemma podocyte_table_inr :
  main.podocyte_statistics [toy.podocyte] [-10; -10; -10] (Qc_of_Z 2)
  = inr (Some toy.podocyte_table).
Proof.
  unfold toy.podocyte_table.
  assert (Hrun : match main.podocyte_statistics [toy.podocyte] [-10; -10; -10]
                         (Qc_of_Z 2) with
                 | inr (Some _) => true
                 | _ => false
                 end = true) by by vm_compute.
  by destruct (main.podocyte_statistics _ _ _) as [e|[df|]].
Qed.

(** The caller of [create_summary_stats] in [main] does not meet the case
    [None]: when no podocyte is found in the whole batch, the table has no
    row and the run ends with the [AttributeError] of [None.to_csv]. *)
Lemma main_fails_without_rows :
  main.main toy.blank (toy.args "blank" ".lif") = inl AttributeError.
Proof. vm_compute. reflexivity. Qed.

(** C8. The batch of the one file [blank/c.lif], whose series holds one
    glomerulus and no podocyte.  The glomerulus is found and
    [find_podocytes] returns no region for it; [podocyte_statistics] returns
    [None], the glomerulus is skipped and the round of the series ends
    normally, with a table without rows.  The run does not: with its only
    glomerulus skipped, [create_summary_stats] returns [None] and [main]
    stops with the [AttributeError] of [None.to_csv]. *)
Theorem main_fails_when_every_glomerulus_is_skipped :
  ∃ glomeruli_view glomeruli_labels podocytes_view denoised wshed detailed_stats,
    main.find_files toy.blank "blank" ".lif" = ["blank/c.lif"]
    ∧ lib.open "blank/c.lif" = inr [toy.blank_series]
    ∧ pims.channel (frame toy.blank_series) 0 = inr glomeruli_view
    ∧ main.preprocess_glomeruli glomeruli_view = inr glomeruli_labels
    ∧ main.filter_by_size glomeruli_labels (Qc_of_Z 1) (Qc_of_Z 300) = [toy.glom]
    ∧ pims.channel (frame toy.blank_series) 1 = inr podocytes_view
    ∧ main.denoise_image podocytes_view = inr denoised
    ∧ main.find_podocytes denoised toy.glom = inr ([], [-10; -10; -10], wshed)
    ∧ main.podocyte_statistics [] [-10; -10; -10] (Qc_of_Z 2) = inr None
    ∧ main.main_series 0 1 (Qc_of_Z 1) (Qc_of_Z 300) "blank/c.lif"
        (pd.empty, None) toy.blank_series
      = inr (detailed_stats, Some detailed_stats)
    ∧ pd.rows detailed_stats = []
    ∧ main.create_summary_stats detailed_stats = inr None
    ∧ main.main toy.blank (toy.args "blank" ".lif") = inl AttributeError.
Proof.
  set (value_of := λ {T} (r : result T) (d : T),
         match r with inr v => v | inl _ => d end).
  set (glomeruli_view :=
         value_of _ (pims.channel (frame toy.blank_series) 0)
           (frame toy.blank_series)).
  set (glomeruli_labels :=
         value_of _ (main.preprocess_glomeruli glomeruli_view) (NDArray [] (λ _, 0))).
  set (podocytes_view :=
         value_of _ (pims.channel (frame toy.blank_series) 1)
           (frame toy.blank_series)).
  set (denoised :=
         value_of _ (main.denoise_image podocytes_view) (NDArray [] (λ _, 0))).
  set (wshed :=
         value_of _ (main.find_podocytes denoised toy.glom)
           ([], [], NDArray [] (λ _, 0))).
  set (detailed_stats :=
         value_of _ (main.main_series 0 1 (Qc_of_Z 1) (Qc_of_Z 300) "blank/c.lif"
                       (pd.empty, None) toy.blank_series) (pd.empty, None)).
  assert (Hvalue : ∀ T (r : result T) d,
            match r with inr _ => true | inl _ => false end = true →
            r = inr (value_of T r d)).
  { intros T [e|v] d; [discriminate|done]. }
  exists glomeruli_view, glomeruli_labels, podocytes_view, denoised, wshed.2,
    detailed_stats.1.
  split; [vm_compute; reflexivity|].
  split; [vm_compute; reflexivity|].
  split; [apply Hvalue; vm_compute; reflexivity|].
  split; [apply Hvalue; vm_compute; reflexivity|].
  split; [apply (bool_decide_unpack _); vm_compute; reflexivity|].
  split; [apply Hvalue; vm_compute; reflexivity|].
  split; [apply Hvalue; vm_compute; reflexivity|].
  split.
  { assert (Hrun : main.find_podocytes denoised toy.glom = inr wshed)
      by (apply Hvalue; vm_compute; reflexivity).
    assert (Hw : wshed.1 = ([], [-10; -10; -10])).
    { apply (bool_decide_unpack _). vm_compute. reflexivity. }
    clearbody wshed. destruct wshed as [[regions offset] w].
    simpl in Hw. injection Hw as -> ->. exact Hrun. }
  split; [apply (bool_decide_unpack _); vm_compute; reflexivity|].
  assert (Hrun : main.main_series 0 1 (Qc_of_Z 1) (Qc_of_Z 300) "blank/c.lif"
                   (pd.empty, None) toy.blank_series = inr detailed_stats)
    by (apply Hvalue; vm_compute; reflexivity).
  assert (Hwritten : detailed_stats.2 = Some detailed_stats.1).
  { apply (bool_decide_unpack _). vm_compute. reflexivity. }
  assert (Hrows : pd.rows detailed_stats.1 = []).
  { apply (bool_decide_unpack _). vm_compute. reflexivity. }
  assert (Hsummary : main.create_summary_stats detailed_stats.1 = inr None).
  { apply (bool_decide_unpack _). vm_compute. reflexivity. }
  clearbody detailed_stats. destruct detailed_stats as [table written].
  simpl in Hwritten, Hrows, Hsummary. subst written.
  split; [exact Hrun|]. split; [exact Hrows|]. split; [exact Hsummary|].
  vm_compute. reflexivity.
Qed.

(** C1. Two files are processed: [scans/a.lif] with one series and one
    podocyte (at [x = 0]), then [scans/more/b.lif] with the series [Image:0]
    and one podocyte (at [x = 1]) and the series [Image:1] without any.  When
    the batch is over the detailed table holds the two rows, and both carry
    the file and the series of the last series processed, which produced
    neither. *)
Theorem main_restamps_earlier_rows :
  ∃ out detailed_stats,
    main.main toy.scans (toy.args "scans" ".lif") = inr out
    ∧ main.detailed_stats_csv out = Some detailed_stats
    ∧ (λ r, r !! "podocyte_centroid_x") <$> pd.rows detailed_stats
      = [Some (VInt 0); Some (VInt 1)]
    ∧ Forall (λ r, r !! "image_filename" = Some (VStr "scans/more/b.lif")
                   ∧ r !! "image_series_num" = Some (VStr "Image:1")
                   ∧ r !! "image_series_name" = Some (VStr "blank"))
        (pd.rows detailed_stats).
Proof.
  destruct (run_inr (main.main toy.scans (toy.args "scans" ".lif"))
              (λ out,
                 is_Some (main.detailed_stats_csv out)
                 ∧ (λ r, r !! "podocyte_centroid_x")
                   <$> pd.rows (default pd.empty (main.detailed_stats_csv out))
                   = [Some (VInt 0); Some (VInt 1)]
                 ∧ Forall (λ r, r !! "image_filename"
                                = Some (VStr "scans/more/b.lif")
                                ∧ r !! "image_series_num" = Some (VStr "Image:1")
                                ∧ r !! "image_series_name" = Some (VStr "blank"))
                     (pd.rows (default pd.empty (main.detailed_stats_csv out)))))
    as (out & Hrun & [detailed_stats Hcsv] & Hx & Hstamp).
  { vm_compute. reflexivity. }
  rewrite Hcsv in Hx, Hstamp. exists out, detailed_stats.
  split; [exact Hrun|]. split; [exact Hcsv|]. split; [exact Hx|exact Hstamp].
Qed.

Lemma py_int_of_Z (n : Z) : py_int (Qc_of_Z n) = n.
Proof. unfold py_int. simpl. apply Z.quot_1_r. Qed.

Lemma Qc_of_Z_le (n m : Z) : n ≤ m → (Qc_of_Z n ≤ Qc_of_Z m)%Qc.
Proof. apply Z2Qc_inj_le. Qed.

(** The statement of C2 on the rows of the two podocytes of one glomerulus. *)
Lemma summary_rows_per_triple_witness :
  pd.len toy.consistent ≠ 0%nat
  ∧ main.summary_columns ⊆ pd.columns toy.consistent
  ∧ ∃ summary,
      main.create_summary_stats toy.consistent = inr (Some summary)
      ∧ NoDup (pd.rows summary)
      ∧ (length (remove_dups (glomerulus_key <$> pd.rows toy.consistent))
         ≤ pd.len summary)%nat.
Proof.
  assert (Hlen : pd.len toy.consistent ≠ 0%nat) by (vm_compute; lia).
  assert (Hcols : main.summary_columns ⊆ pd.columns toy.consistent).
  { apply (bool_decide_unpack _). vm_compute. exact I. }
  split; [exact Hlen|]. split; [exact Hcols|].
  destruct (summary_rows_per_triple toy.consistent Hlen Hcols)
    as (summary & Hrun & Hnd & _ & Hle & _).
  exists summary. split; [exact Hrun|]. split; [exact Hnd|exact Hle].
Defined.

(** The statement of C3 on the podocyte of the bright voxel. *)
Lemma podocyte_centroids_are_offset_witness :
  main.find_podocytes toy.bright_view toy.glom
  = inr ([toy.podocyte], [-10; -10; -10], toy.found_wshed toy.bright_view)
  ∧ main.podocyte_statistics [toy.podocyte] [-10; -10; -10] (Qc_of_Z 2)
    = inr (Some toy.podocyte_table)
  ∧ [-10; -10; -10]
    = (λ b, b - 10) <$> take (ndim toy.bright_view) (bbox toy.glom)
  ∧ Forall2 (reports_centroid [-10; -10; -10]) [toy.podocyte]
      (pd.rows toy.podocyte_table).
Proof.
  split; [exact found_bright|]. split; [exact podocyte_table_inr|].
  exact (podocyte_centroids_are_offset toy.bright_view toy.glom [toy.podocyte]
           [-10; -10; -10] (toy.found_wshed toy.bright_view) (Qc_of_Z 2)
           toy.podocyte_table found_bright podocyte_table_inr).
Defined.

(** The statement of C4 on a box at the border of a [3 x 4] image. *)
Lemma crop_region_of_interest_shape_witness :
  ("mean" = "zeros" ∨ "mean" = "mean")
  ∧ 0 ≤ 2
  ∧ bbox_within (shape toy.plate) toy.plate_bbox
  ∧ ∃ roi_image,
      main.crop_region_of_interest toy.plate toy.plate_bbox 2 "mean"
      = inr roi_image
      ∧ shape roi_image = [6; 7].
Proof.
  assert (Hpad : "mean" = "zeros" ∨ "mean" = "mean") by (right; reflexivity).
  assert (Hmargin : 0 ≤ 2) by lia.
  assert (Hbox : bbox_within (shape toy.plate) toy.plate_bbox).
  { split; [reflexivity|]. simpl. repeat constructor; simpl; lia. }
  split; [exact Hpad|]. split; [exact Hmargin|]. split; [exact Hbox|].
  exact (crop_region_of_interest_shape toy.plate toy.plate_bbox 2 "mean"
           Hpad Hmargin Hbox).
Defined.

(** The statement of C5 on a [3 x 2 x 2] ROI with one seed. *)
Lemma marker_controlled_watershed_labels_witness :
  lib.Laws Z
  ∧ shape toy.block ≠ []
  ∧ Forall (λ n, 2 ≤ n) (shape toy.block)
  ∧ Forall (seed_in_image (shape toy.block)) toy.block_seeds
  ∧ ∃ blob_map seeds wshed,
      main.blob_dog_image toy.block_seeds (shape toy.block) = inr blob_map
      ∧ np.setitem blob_map [0] true = inr seeds
      ∧ main.marker_controlled_watershed toy.block toy.block_seeds = inr wshed
      ∧ shape wshed = shape toy.block
      ∧ ∀ i, in_range (shape toy.block) i →
          data wshed i ≠ data (lib.label seeds) (origin (shape toy.block))
          ∧ (data wshed i = 0
             ∨ ∃ j, in_range (shape toy.block) j
                    ∧ seed_voxel toy.block_seeds j
                    ∧ data wshed i = data (lib.label seeds) j).
Proof.
  assert (Hne : shape toy.block ≠ []) by discriminate.
  assert (Hsh : Forall (λ n, 2 ≤ n) (shape toy.block)).
  { simpl. repeat constructor; lia. }
  assert (Hseeds : Forall (seed_in_image (shape toy.block)) toy.block_seeds).
  { constructor; [|constructor].
    exists (Qc_of_Z 2), (Qc_of_Z 1), (Qc_of_Z 1), [Qc_of_Z 1].
    split; [reflexivity|]. rewrite !py_int_of_Z. simpl.
    repeat constructor; lia. }
  split; [exact toy_laws|]. split; [exact Hne|]. split; [exact Hsh|].
  split; [exact Hseeds|].
  exact (marker_controlled_watershed_labels toy.block toy.block_seeds
           Hne Hsh Hseeds).
Defined.

(** The statement of C6 on a label image with a region of diameter 1 and
    one of diameter 2, for the ranges [[2, 3]] and [[1, 5]]. *)
Lemma filter_by_size_monotonic_witness :
  (Qc_of_Z 1 ≤ Qc_of_Z 2)%Qc
  ∧ (Qc_of_Z 3 ≤ Qc_of_Z 5)%Qc
  ∧ main.filter_by_size toy.two_regions (Qc_of_Z 2) (Qc_of_Z 3)
      `sublist_of` main.filter_by_size toy.two_regions (Qc_of_Z 1) (Qc_of_Z 5)
  ∧ (∀ region,
       region ∈ main.filter_by_size toy.two_regions (Qc_of_Z 2) (Qc_of_Z 3)
       → region ∈ main.filter_by_size toy.two_regions (Qc_of_Z 1) (Qc_of_Z 5))
  ∧ (∀ region,
       region ∈ main.filter_by_size toy.two_regions (Qc_of_Z 2) (Qc_of_Z 3)
       ↔ region ∈ lib.regionprops toy.two_regions None
         ∧ (Qc_of_Z 2 ≤ equivalent_diameter region)%Qc
         ∧ (equivalent_diameter region ≤ Qc_of_Z 3)%Qc).
Proof.
  assert (Hlo : (Qc_of_Z 1 ≤ Qc_of_Z 2)%Qc) by (apply Qc_of_Z_le; lia).
  assert (Hhi : (Qc_of_Z 3 ≤ Qc_of_Z 5)%Qc) by (apply Qc_of_Z_le; lia).
  split; [exact Hlo|]. split; [exact Hhi|].
  exact (filter_by_size_monotonic toy.two_regions (Qc_of_Z 2) (Qc_of_Z 3)
           (Qc_of_Z 1) (Qc_of_Z 5) Hlo Hhi).
Defined.

(** The skip on the glomerulus of a volume without podocytes. *)
Lemma glomerulus_without_podocytes_is_skipped_witness :
  main.find_podocytes toy.blank_view toy.glom
  = inr ([], [-10; -10; -10], toy.found_wshed toy.blank_view)
  ∧ main.podocyte_statistics [] [-10; -10; -10] (Qc_of_Z 2) = inr None
  ∧ main.main_glom toy.blank_view (Qc_of_Z 2) (pd.empty, 0) toy.glom
    = inr (pd.empty, 0)
  ∧ for_each (main.main_glom toy.blank_view (Qc_of_Z 2)) (pd.empty, 0)
      [toy.glom; toy.glom]
    = for_each (main.main_glom toy.blank_view (Qc_of_Z 2)) (pd.empty, 0)
        [toy.glom].
Proof.
  split; [exact found_blank|].
  exact (glomerulus_without_podocytes_is_skipped toy.blank_view (Qc_of_Z 2)
           toy.glom [-10; -10; -10] (toy.found_wshed toy.blank_view)
           pd.empty 0 [toy.glom] found_blank).
Defined.

(** * Further properties of the pipeline *)

(** ** More on [find_files] *)

Lemma string_app_assoc (s t u : string) : (s +:+ t) +:+ u = s +:+ (t +:+ u).
Proof.
  apply list_ascii_of_string_inj. rewrite !list_ascii_of_string_app.
  by rewrite (assoc_L (++)).
Qed.

(** [os.path.join(a, b)] ends with [b]. *)
Lemma path_join_suffix (a b : string) : ∃ q, os.path_join a b = q +:+ b.
Proof.
  unfold os.path_join. destruct (str.startswith b "/").
  - by exists "".
  - destruct (_ || _).
    + by exists a.
    + exists (a +:+ "/"). by rewrite string_app_assoc.
Qed.

Lemma bind_sublist {X Y} (f g : X → list Y) (l : list X) :
  (∀ x, f x `sublist_of` g x) → l ≫= f `sublist_of` l ≫= g.
Proof.
  intros Hfg. induction l as [|x l IH]; simpl; [done|]. by apply sublist_app.
Qed.

Lemma bind_ext_in {X Y} (f g : X → list Y) (l : list X) :
  (∀ x, x ∈ l → f x = g x) → l ≫= f = l ≫= g.
Proof.
  induction l as [|x l IH]; intros Hfg; simpl; [done|].
  f_equal; [apply Hfg; left|]. apply IH. intros y Hy. apply Hfg. by right.
Qed.

(** X1. Every path that [find_files] returns, in [main.py] and in [util.py],
    ends with the extension asked for: the test is made on the file name and
    [os.path.join] keeps the file name at the end of the path. *)
Theorem find_files_paths_end_with_extension (d : os.dir)
    (input_directory ext : string) :
  Forall (λ path, str.endswith path ext = true)
    (main.find_files d input_directory ext)
  ∧ Forall (λ path, str.endswith path ext = true)
      (util.find_files d input_directory ext).
Proof.
  assert (Hjoin : ∀ root f, (∃ p, f = p +:+ ext) →
                            str.endswith (os.path_join root f) ext = true).
  { intros root f [p ->]. destruct (path_join_suffix root (p +:+ ext)) as [q ->].
    apply endswith_spec. exists (q +:+ p). by rewrite string_app_assoc. }
  split; apply Forall_forall; intros path Hpath.
  - apply main_find_files_spec in Hpath as (root & _ & _ & f & _ & _ & Hf & ->).
    by apply Hjoin.
  - apply util_find_files_spec in Hpath as (root & _ & _ & f & _ & _ & Hf & _ & ->).
    by apply Hjoin.
Qed.

(** Both loops of [find_files] keep, in the order of [os.walk], the files
    whose name passes the test, and join each with the path of its
    directory. *)
Lemma find_files_loop (test : string → bool)
    (triples : list (string * list string * list string)) :
  ('(root, _, files) ← triples;
   f ← files;
   if test f then [os.path_join root f] else [])
  = (λ e, os.path_join e.1 e.2)
    <$> filter (λ e, test e.2 = true)
          ('(root, _, files) ← triples; (λ f, (root, f)) <$> files).
Proof.
  induction triples as [|[[root dirs] files] triples IH]; [done|].
  change (('(root, _, files) ← ((root, dirs, files) :: triples);
           f ← files; if test f then [os.path_join root f] else []))
    with ((f ← files; if test f then [os.path_join root f] else [])
          ++ ('(root, _, files) ← triples;
              f ← files; if test f then [os.path_join root f] else [])).
  change (('(root, _, files) ← ((root, dirs, files) :: triples);
           (λ f, (root, f)) <$> files))
    with (((λ f, (root, f)) <$> files)
          ++ ('(root, _, files) ← triples; (λ f, (root, f)) <$> files)).
  rewrite filter_app, fmap_app, IH. f_equal. clear.
  induction files as [|f files IH]; [done|].
  change (f ← (f :: files); if test f then [os.path_join root f] else [])
    with ((if test f then [os.path_join root f] else [])
          ++ (f ← files; if test f then [os.path_join root f] else [])).
  rewrite fmap_cons, IH. destruct (test f) eqn:Hf.
  - by rewrite filter_cons_True by done.
  - rewrite filter_cons_False; [done|]. simpl. by rewrite Hf.
Qed.

(** X2. [find_files] of [util.py] returns the paths of [find_files] of
    [main.py] without those of the hidden files, in the same order. Of the
    files that [os.walk] lists, [main.py] keeps those whose name ends with the
    extension, and [util.py] keeps those of them whose name does not begin
    with a dot; so the list of [util.py] is a sublist of the list of
    [main.py], and the two agree on a directory tree without a file whose name
    begins with a dot. *)
Theorem util_find_files_sublist_of_main (d : os.dir)
    (input_directory ext : string) :
  main.find_files d input_directory ext
  = (λ e, os.path_join e.1 e.2)
    <$> filter (λ e, str.endswith e.2 ext = true) (walk_files d input_directory)
  ∧ util.find_files d input_directory ext
    = (λ e, os.path_join e.1 e.2)
      <$> filter (λ e, str.startswith e.2 "." = false)
            (filter (λ e, str.endswith e.2 ext = true)
                    (walk_files d input_directory))
  ∧ util.find_files d input_directory ext
      `sublist_of` main.find_files d input_directory ext
  ∧ ((∀ root dirs files f,
        (root, dirs, files) ∈ os.walk input_directory d → f ∈ files →
        str.startswith f "." = false) →
     util.find_files d input_directory ext
     = main.find_files d input_directory ext).
Proof.
  split; [apply (find_files_loop (λ f, str.endswith f ext))|].
  split.
  { unfold util.find_files, walk_files.
    rewrite (find_files_loop
               (λ f, str.endswith f ext && negb (str.startswith f "."))).
    f_equal. rewrite list_filter_filter. apply list_filter_iff.
    intros [root f]. simpl.
    destruct (str.endswith f ext), (str.startswith f "."); simpl; intuition. }
  unfold util.find_files, main.find_files. split.
  - apply bind_sublist. intros [[root dirs] files].
    apply bind_sublist. intros f.
    destruct (str.endswith f ext); [|done].
    destruct (str.startswith f "."); simpl; [apply sublist_nil_l|done].
  - intros Hvisible. apply bind_ext_in. intros [[root dirs] files] Hw.
    apply bind_ext_in. intros f Hf.
    by rewrite (Hvisible root dirs files f Hw Hf), andb_true_r.
Qed.

(** ** More on [filter_by_size] *)

Section filter_by_size_more.
Context {A : Type} `{!lib.Library A}.

(** X3. On a label image of two or three axes, those that [regionprops]
    accepts, a diameter range given the wrong way round ([max_diameter] below
    [min_diameter]) keeps no region: the list returned is empty. *)
Theorem filter_by_size_inverted_range (label_image : ndarray Z)
    (min_diameter max_diameter : Qc) :
  (2 ≤ ndim label_image ≤ 3)%nat →
  (max_diameter < min_diameter)%Qc →
  main.filter_by_size label_image min_diameter max_diameter = [].
Proof.
  intros _ Hlt. rewrite filter_by_size_filter.
  induction (lib.regionprops label_image None) as [|r rs IH]; [done|].
  rewrite filter_cons, decide_False; [done|].
  intros [Hlo Hhi]. apply (Qclt_not_le _ _ Hlt). by etrans.
Qed.

End filter_by_size_more.

(** ** More on [create_summary_stats] *)

(** X4. The only exception [create_summary_stats] raises is the [KeyError] of
    [dataframe[summary_columns]], and it raises it exactly on a table that has
    rows and lacks one of the 15 summary columns. *)
Theorem create_summary_stats_KeyError (df : pd.DataFrame) (e : exn) :
  main.create_summary_stats df = inl e
  ↔ e = KeyError ∧ pd.len df ≠ 0%nat ∧ ¬ main.summary_columns ⊆ pd.columns df.
Proof.
  unfold main.create_summary_stats, pd.getitem_list.
  destruct (decide (pd.len df = 0%nat)) as [Hz|Hnz].
  - split; [discriminate|]. by intros (_ & Hlen & _).
  - destruct (decide (main.summary_columns ⊆ pd.columns df)) as [Hc|Hc]; simpl.
    + split; [discriminate|]. by intros (_ & _ & Hn).
    + split; [by intros [= <-]|]. by intros (-> & _).
Qed.

Lemma project_project (cols : list string) (r : gmap string value) :
  pd.project cols (pd.project cols r) = pd.project cols r.
Proof. unfold pd.project. apply map_filter_filter_l. done. Qed.

Lemma first_occurrences_NoDup seen l :
  NoDup l → (∀ r, r ∈ l → r ∉ seen) → pd.first_occurrences seen l = l.
Proof.
  revert seen. induction l as [|x l IH]; intros seen Hnd Hseen; simpl; [done|].
  apply NoDup_cons in Hnd as [Hx Hnd].
  rewrite decide_False by (apply Hseen; left).
  f_equal. apply IH; [done|]. intros r Hr.
  rewrite elem_of_cons. intros [->|Hin]; [done|].
  by apply (Hseen r); [right|].
Qed.

(** X5. Summarising a summary changes nothing: [create_summary_stats] returns
    its own output unchanged. *)
Theorem create_summary_stats_idempotent (df summary : pd.DataFrame) :
  main.create_summary_stats df = inr (Some summary) →
  main.create_summary_stats summary = inr (Some summary).
Proof.
  unfold main.create_summary_stats at 1.
  destruct (decide (pd.len df = 0%nat)) as [Hz|Hnz]; [discriminate|].
  unfold pd.getitem_list.
  destruct (decide (main.summary_columns ⊆ pd.columns df)); simpl; [|discriminate].
  intros [= <-]. unfold pd.drop_duplicates. simpl.
  set (S := pd.first_occurrences [] (pd.project main.summary_columns <$> pd.rows df)).
  rewrite create_summary_stats_rows; simpl.
  - do 3 f_equal.
    assert (Hid : pd.project main.summary_columns <$> S = S).
    { rewrite <-(list_fmap_id S) at 2. apply list_fmap_ext.
      intros i r Hr. apply list_elem_of_lookup_2 in Hr.
      apply elem_of_first_occurrences in Hr as [Hr _].
      apply list_elem_of_fmap in Hr as (r0 & -> & _). apply project_project. }
    rewrite Hid. apply first_occurrences_NoDup.
    + apply NoDup_first_occurrences.
    + intros r _. apply not_elem_of_nil.
  - unfold pd.len, S. simpl. unfold pd.len in Hnz.
    destruct (pd.rows df) as [|r rs]; [done|]. simpl. lia.
  - done.
Qed.

(** The rows that [first_occurrences] keeps are in the order of their first
    occurrence: a row kept before another one occurs in the list before every
    occurrence of the other one. *)
Lemma first_occurrences_order seen l (i j : nat) r1 r2 :
  (i < j)%nat →
  pd.first_occurrences seen l !! i = Some r1 →
  pd.first_occurrences seen l !! j = Some r2 →
  appears_before l r1 r2.
Proof.
  revert seen i j. induction l as [|x l IH]; intros seen i j Hij Hi Hj; [done|].
  assert (Hlater : ∀ seen' (n : nat),
            pd.first_occurrences seen' l !! n = Some r2 → x ∈ seen' →
            ∀ k' : nat, (x :: l) !! k' = Some r2 → ∃ k'' : nat, k' = S k'').
  { intros seen' n Hn Hx [|k''] Hk'; [|eauto]. injection Hk' as ->.
    apply list_elem_of_lookup_2, elem_of_first_occurrences in Hn as [_ Hn].
    done. }
  simpl in Hi, Hj. destruct (decide (x ∈ seen)) as [Hx|Hx].
  - destruct (IH seen i j Hij Hi Hj) as (k & Hk & Hbefore).
    exists (S k). split; [done|]. intros k' Hk'.
    destruct (Hlater seen j Hj Hx k' Hk') as [k'' ->].
    apply Hbefore in Hk'. lia.
  - destruct j as [|j]; [lia|]. simpl in Hj.
    assert (Hx' : x ∈ x :: seen) by left.
    destruct i as [|i]; simpl in Hi.
    + injection Hi as ->. exists 0%nat. split; [done|]. intros k' Hk'.
      destruct (Hlater (r1 :: seen) j Hj Hx' k' Hk') as [k'' ->]. lia.
    + destruct (IH (x :: seen) i j ltac:(lia) Hi Hj) as (k & Hk & Hbefore).
      exists (S k). split; [done|]. intros k' Hk'.
      destruct (Hlater (x :: seen) j Hj Hx' k' Hk') as [k'' ->].
      apply Hbefore in Hk'. lia.
Qed.

(** X6. The layout of the summary table: it has the 15 summary columns and its
    rows have no cell outside them; its rows are projections of detailed rows,
    in the order in which each first appears in the detailed table (of two
    rows of the summary, the first one is the projection of a detailed row
    that comes before every detailed row with the projection of the second
    one). *)
Theorem create_summary_stats_layout (df summary : pd.DataFrame) :
  main.create_summary_stats df = inr (Some summary) →
  pd.columns summary = main.summary_columns
  ∧ pd.rows summary
      `sublist_of` (pd.project main.summary_columns <$> pd.rows df)
  ∧ Forall (λ r, ∀ column, is_Some (r !! column) → column ∈ main.summary_columns)
      (pd.rows summary)
  ∧ ∀ (i j : nat) r1 r2,
      (i < j)%nat →
      pd.rows summary !! i = Some r1 → pd.rows summary !! j = Some r2 →
      appears_before (pd.project main.summary_columns <$> pd.rows df) r1 r2.
Proof.
  unfold main.create_summary_stats.
  destruct (decide (pd.len df = 0%nat)) as [Hz|Hnz]; [discriminate|].
  unfold pd.getitem_list.
  destruct (decide (main.summary_columns ⊆ pd.columns df)); simpl; [|discriminate].
  intros [= <-]. simpl. split; [done|]. split; [|split].
  - apply first_occurrences_sublist.
  - apply Forall_forall. intros r Hr column [v Hv].
    apply elem_of_first_occurrences in Hr as [Hr _].
    apply list_elem_of_fmap in Hr as (r0 & -> & _).
    unfold pd.project in Hv. apply map_lookup_filter_Some in Hv as [_ Hc]. done.
  - intros i j r1 r2. apply first_occurrences_order.
Qed.

(** ** More on [podocyte_statistics] *)

Lemma getitem_ge {T} (l : list T) i :
  (length l ≤ i)%nat → getitem l i = inl IndexError.
Proof. intros Hi. unfold getitem. by rewrite lookup_ge_None_2. Qed.

Lemma getitem_error {T} (l : list T) i e : getitem l i = inl e → e = IndexError.
Proof. unfold getitem. destruct (l !! i); [discriminate|]. by intros [= <-]. Qed.

Lemma mapM_fmap {X Y T} (g : X → Y) (f : Y → result T) l :
  mapM f (g <$> l) = mapM (f ∘ g) l.
Proof.
  induction l as [|x l IH]; [done|].
  change (mapM f (g <$> x :: l))
    with (f (g x) ≫= λ y, mapM f (g <$> l) ≫= λ k, mret (y :: k)).
  by rewrite IH.
Qed.

Lemma for_dims_S {T} n (f : nat → result T) :
  main.for_dims (S n) f
  = f 0%nat ≫= λ y, main.for_dims n (f ∘ S) ≫= λ k, mret (y :: k).
Proof. unfold main.for_dims. simpl. by rewrite <-fmap_S_seq, mapM_fmap. Qed.

(** The tuple [real_podocyte_centroid]: the centroid plus the offset,
    coordinate by coordinate; an offset with fewer coordinates than the
    centroid is an [IndexError]. *)
Lemma real_podocyte_centroid_spec (c : list Qc) (o : list Z) :
  main.for_dims (length c)
    (λ dim, c' ← getitem c dim; o' ← getitem o dim; mret (c' + Qc_of_Z o')%Qc)
  = if decide (length c ≤ length o)%nat
    then inr (zip_with (λ c' o', (c' + Qc_of_Z o')%Qc) c o)
    else inl IndexError.
Proof.
  revert o. induction c as [|c0 c IH]; intros o.
  - by rewrite decide_True by (simpl; lia).
  - cbn [length]. rewrite for_dims_S. destruct o as [|o0 o].
    + by rewrite decide_False by (simpl; lia).
    + cbn [length].
      change (getitem (c0 :: c) 0 ≫= _) with (inr (B:=Qc) (A:=exn) c0 ≫= λ c',
                 o' ← getitem (o0 :: o) 0; mret (c' + Qc_of_Z o')%Qc).
      rewrite bind_ret.
      change (getitem (o0 :: o) 0) with (inr (A:=exn) o0). rewrite bind_ret, bind_mret.
      etrans.
      { apply (f_equal (λ m, m ≫= λ k, mret ((c0 + Qc_of_Z o0)%Qc :: k))).
        exact (IH o). }
      destruct (decide (length c ≤ length o)%nat).
      * by rewrite decide_True by lia.
      * by rewrite decide_False by lia.
Qed.

Lemma union_columns_podocyte (regions : list RegionProperties) :
  foldl (λ cols _, pd.union_columns cols podocyte_columns) podocyte_columns regions
  = podocyte_columns.
Proof. induction regions as [|pod regions IH]; [done|]. exact IH. Qed.

(** The loop of [podocyte_statistics]: it appends one row per region when
    every region is measurable, and ends with an [IndexError] otherwise. *)
Lemma podocyte_statistics_loop (o : list Z) (voxel_volume : Qc) regions df0 :
  (Forall (measurable o) regions →
   ∃ rows,
     for_each (λ df pod,
         real_podocyte_centroid ←
           main.for_dims (length (centroid pod)) (λ dim,
             c ← getitem (centroid pod) dim;
             o ← getitem o dim;
             mret (c + Qc_of_Z o)%Qc);
         x ← getitem real_podocyte_centroid 2;
         y ← getitem real_podocyte_centroid 1;
         z ← getitem real_podocyte_centroid 0;
         let contents :=
           [("podocyte_label_number", VInt (label pod));
            ("podocyte_voxel_number", VInt (area pod));
            ("podocyte_volume", VNum (Qc_of_Z (area pod) * voxel_volume)%Qc);
            ("podocyte_equiv_diam_pixels", VNum (equivalent_diameter pod));
            ("podocyte_centroid_x", VNum x);
            ("podocyte_centroid_y", VNum y);
            ("podocyte_centroid_z", VNum z)] in
         mret (pd.append_dict df contents)) df0 regions
     = inr {| pd.columns :=
                foldl (λ cols _, pd.union_columns cols podocyte_columns)
                  (pd.columns df0) regions;
              pd.rows := pd.rows df0 ++ rows |}
     ∧ Forall2 (λ pod row, ∃ x y z,
          row = list_to_map
            [("podocyte_label_number", VInt (label pod));
             ("podocyte_voxel_number", VInt (area pod));
             ("podocyte_volume", VNum (Qc_of_Z (area pod) * voxel_volume)%Qc);
             ("podocyte_equiv_diam_pixels", VNum (equivalent_diameter pod));
             ("podocyte_centroid_x", VNum x);
             ("podocyte_centroid_y", VNum y);
             ("podocyte_centroid_z", VNum z)]) regions rows)
  ∧ (¬ Forall (measurable o) regions →
     for_each (λ df pod,
         real_podocyte_centroid ←
           main.for_dims (length (centroid pod)) (λ dim,
             c ← getitem (centroid pod) dim;
             o ← getitem o dim;
             mret (c + Qc_of_Z o)%Qc);
         x ← getitem real_podocyte_centroid 2;
         y ← getitem real_podocyte_centroid 1;
         z ← getitem real_podocyte_centroid 0;
         let contents :=
           [("podocyte_label_number", VInt (label pod));
            ("podocyte_voxel_number", VInt (area pod));
            ("podocyte_volume", VNum (Qc_of_Z (area pod) * voxel_volume)%Qc);
            ("podocyte_equiv_diam_pixels", VNum (equivalent_diameter pod));
            ("podocyte_centroid_x", VNum x);
            ("podocyte_centroid_y", VNum y);
            ("podocyte_centroid_z", VNum z)] in
         mret (pd.append_dict df contents)) df0 regions
     = inl IndexError).
Proof.
  revert df0. induction regions as [|pod regions IH]; intros df0.
  { split.
    - intros _. exists []. split; [|constructor].
      simpl. rewrite app_nil_r. by destruct df0.
    - intros Hn. destruct Hn. constructor. }
  rewrite for_each_cons. cbv beta zeta. rewrite real_podocyte_centroid_spec.
  destruct (decide (measurable o pod)) as [[H3 Ho]|Hm].
  - rewrite decide_True by done. rewrite bind_ret.
    destruct (centroid pod) as [|c0 [|c1 [|c2 c]]] eqn:Ec; simpl in H3; try lia.
    destruct o as [|o0 [|o1 [|o2 o]]]; simpl in Ho; try lia.
    cbn [zip_with].
    match goal with
    | |- context [getitem ?l 2] =>
        rewrite (getitem_inr l 2 _ eq_refl), bind_ret,
          (getitem_inr l 1 _ eq_refl), bind_ret,
          (getitem_inr l 0 _ eq_refl), bind_ret
    end.
    rewrite bind_mret.
    match goal with
    | |- context [for_each _ ?df1 regions] => destruct (IH df1) as [IH1 IH2]
    end.
    split.
    + intros Hall. apply Forall_cons in Hall as [_ Hall].
      destruct (IH1 Hall) as (rows & Hrun & Hrows).
      eexists (_ :: rows). split.
      * cbv beta zeta in Hrun. rewrite Hrun.
        cbn [pd.append_dict pd.rows pd.columns foldl].
        by rewrite <-app_assoc.
      * constructor; [|done]. by eexists _, _, _.
    + intros Hn. apply IH2. intros Hall. apply Hn. constructor; [|done].
      split; rewrite ?Ec; simpl; lia.
  - split.
    + intros Hall. apply Forall_cons in Hall as [? _]. contradiction.
    + intros _. destruct (decide (length (centroid pod) ≤ length o)%nat) as [Hle|Hle];
        [|done].
      rewrite bind_ret, (getitem_ge _ 2); [done|].
      rewrite length_zip_with. unfold measurable in Hm. lia.
Qed.

Lemma bind_eq {X Y} (m m' : result X) (f : X → result Y) :
  m = m' → m ≫= f = m' ≫= f.
Proof. by intros ->. Qed.

(** The three ways [podocyte_statistics] ends. *)
Lemma podocyte_statistics_cases regions (o : list Z) (voxel_volume : Qc) :
  (Forall (measurable o) regions → regions ≠ [] →
   ∃ rows,
     main.podocyte_statistics regions o voxel_volume
     = inr (Some {| pd.columns := podocyte_columns; pd.rows := rows |})
     ∧ Forall2 (λ pod row, ∃ x y z,
          row = list_to_map
            [("podocyte_label_number", VInt (label pod));
             ("podocyte_voxel_number", VInt (area pod));
             ("podocyte_volume", VNum (Qc_of_Z (area pod) * voxel_volume)%Qc);
             ("podocyte_equiv_diam_pixels", VNum (equivalent_diameter pod));
             ("podocyte_centroid_x", VNum x);
             ("podocyte_centroid_y", VNum y);
             ("podocyte_centroid_z", VNum z)]) regions rows)
  ∧ (¬ Forall (measurable o) regions →
     main.podocyte_statistics regions o voxel_volume = inl IndexError)
  ∧ (regions = [] → main.podocyte_statistics regions o voxel_volume = inr None).
Proof.
  destruct (podocyte_statistics_loop o voxel_volume regions pd.empty) as [Hok Herr].
  split; [|split].
  - intros Hall Hne. destruct (Hok Hall) as (rows & Hrun & Hrows).
    exists rows. split; [|done].
    unfold main.podocyte_statistics.
    etrans; [apply (bind_eq _ _ _ Hrun)|]. rewrite bind_ret.
    destruct Hrows as [|pod row regions' rows' _ Hrows']; [done|].
    rewrite decide_True by (unfold pd.len; simpl; lia).
    cbn [foldl pd.columns pd.empty]. simpl app.
    change (pd.union_columns [] podocyte_columns) with podocyte_columns.
    by rewrite union_columns_podocyte.
  - intros Hn. unfold main.podocyte_statistics.
    etrans; [apply (bind_eq _ _ _ (Herr Hn))|]. done.
  - by intros ->.
Qed.

(** X7. [podocyte_statistics] fails exactly when one of the regions is not
    measurable, a region of a 2-D label image for instance, and the failure is
    the [IndexError] of a read of a coordinate that is not there. *)
Theorem podocyte_statistics_IndexError regions (o : list Z) (voxel_volume : Qc)
    (e : exn) :
  main.podocyte_statistics regions o voxel_volume = inl e
  ↔ e = IndexError ∧ ¬ Forall (measurable o) regions.
Proof.
  destruct (podocyte_statistics_cases regions o voxel_volume)
    as (Hok & Herr & Hnil).
  destruct (decide (Forall (measurable o) regions)) as [Hall|Hn].
  - split; [|by intros [_ ?]].
    destruct regions as [|pod regions].
    + by rewrite Hnil.
    + destruct (Hok Hall) as (rows & -> & _); done.
  - rewrite (Herr Hn). split; [by intros [= <-]|by intros [-> _]].
Qed.

(** X8. The table of [podocyte_statistics] for measurable regions, one at
    least: one row per region, in order, with the seven podocyte columns and
    nothing else; the row of a region holds its label, its voxel count, its
    volume (the voxel count times the voxel volume) and its equivalent
    diameter. *)
Theorem podocyte_statistics_table regions (o : list Z) (voxel_volume : Qc) :
  Forall (measurable o) regions → regions ≠ [] →
  ∃ df,
    main.podocyte_statistics regions o voxel_volume = inr (Some df)
    ∧ pd.columns df = podocyte_columns
    ∧ pd.len df = length regions
    ∧ Forall2 (λ pod row,
         row !! "podocyte_label_number" = Some (VInt (label pod))
         ∧ row !! "podocyte_voxel_number" = Some (VInt (area pod))
         ∧ row !! "podocyte_volume"
           = Some (VNum (Qc_of_Z (area pod) * voxel_volume)%Qc)
         ∧ row !! "podocyte_equiv_diam_pixels"
           = Some (VNum (equivalent_diameter pod))
         ∧ ∀ column, is_Some (row !! column) ↔ column ∈ podocyte_columns)
        regions (pd.rows df).
Proof.
  intros Hall Hne.
  destruct (podocyte_statistics_cases regions o voxel_volume) as (Hok & _).
  destruct (Hok Hall Hne) as (rows & Hrun & Hrows).
  eexists. split; [exact Hrun|]. split; [done|]. split.
  { unfold pd.len. simpl. symmetry. by eapply Forall2_length. }
  simpl. eapply Forall2_impl; [exact Hrows|].
  intros pod row (x & y & z & ->). rewrite !list_to_map_cons, list_to_map_nil.
  split; [|split; [|split; [|split; [|intros column; split]]]].
  - by rewrite lookup_insert_eq.
  - rewrite lookup_insert_ne by done. by rewrite lookup_insert_eq.
  - rewrite !lookup_insert_ne by done. by rewrite lookup_insert_eq.
  - rewrite !lookup_insert_ne by done. by rewrite lookup_insert_eq.
  - intros Hsome. unfold podocyte_columns. rewrite !elem_of_cons.
    rewrite !lookup_insert_is_Some in Hsome. rewrite lookup_empty in Hsome.
    destruct Hsome as [<-|[_ [<-|[_ [<-|[_ [<-|[_ [<-|[_ [<-|[_ [<-|[_ Hs]]]]]]]]]]]]]];
      try tauto.
    by destruct Hs.
  - unfold podocyte_columns. rewrite !elem_of_cons, elem_of_nil.
    intros Hc. rewrite !lookup_insert_is_Some.
    destruct (decide ("podocyte_label_number" = column)); [tauto|].
    destruct (decide ("podocyte_voxel_number" = column)); [tauto|].
    destruct (decide ("podocyte_volume" = column)); [tauto|].
    destruct (decide ("podocyte_equiv_diam_pixels" = column)); [tauto|].
    destruct (decide ("podocyte_centroid_x" = column)); [tauto|].
    destruct (decide ("podocyte_centroid_y" = column)); [tauto|].
    destruct (decide ("podocyte_centroid_z" = column)); [tauto|].
    exfalso. repeat (destruct Hc as [->|Hc]; [done|]). done.
Qed.

(** ** [podocyte_avg_statistics] *)

Lemma elem_of_union_columns (cols new : list string) c :
  c ∈ cols → c ∈ pd.union_columns cols new.
Proof.
  unfold pd.union_columns. revert cols.
  induction new as [|x new IH]; intros cols Hc; simpl; [done|].
  apply IH. destruct (decide (x ∈ cols)); [done|].
  apply elem_of_app. by left.
Qed.

(** [np.mean] of a column whose cells are all numbers. *)
Lemma mean_numeric (df : pd.DataFrame) (col : string) (qs : list Qc) :
  col ∈ pd.columns df →
  Forall2 (λ row q, row !! col = Some (VNum q)) (pd.rows df) qs →
  qs ≠ [] →
  pd.mean df col = inr (Some (average qs)).
Proof.
  intros Hcol Hcells Hne. unfold pd.mean. rewrite decide_True by done.
  assert (Hom : omap (.!! col) (pd.rows df) = VNum <$> qs).
  { clear Hcol Hne. revert Hcells. generalize (pd.rows df). intros rows0 Hcells.
    induction Hcells as [|row q rows qs' Hrow _ IH]; [done|].
    change (omap (.!! col) (row :: rows))
      with (match row !! col with
            | Some y => y :: omap (.!! col) rows
            | None => omap (.!! col) rows
            end).
    rewrite Hrow, IH. done. }
  rewrite Hom, mapM_fmap.
  rewrite (mapM_inr _ id) by done. rewrite list_fmap_id, bind_ret.
  by destruct qs.
Qed.

(** [podocyte_avg_statistics] on a table whose three podocyte columns hold
    numbers: the three averages are written in every row. *)
Lemma podocyte_avg_statistics_inr (df : pd.DataFrame) (ns vs ds : list Qc) :
  "podocyte_voxel_number" ∈ pd.columns df →
  "podocyte_volume" ∈ pd.columns df →
  "podocyte_equiv_diam_pixels" ∈ pd.columns df →
  Forall2 (λ row q, row !! "podocyte_voxel_number" = Some (VNum q)) (pd.rows df) ns →
  Forall2 (λ row q, row !! "podocyte_volume" = Some (VNum q)) (pd.rows df) vs →
  Forall2 (λ row q, row !! "podocyte_equiv_diam_pixels" = Some (VNum q))
    (pd.rows df) ds →
  pd.rows df ≠ [] →
  ∃ df',
    main.podocyte_avg_statistics df = inr df'
    ∧ pd.rows df'
      = (λ r, <["avg_podocyte_equiv_diam_pixels" := VNum (average ds)]>
                (<["avg_podocyte_volume" := VNum (average vs)]>
                   (<["avg_podocyte_voxel_number" := VNum (average ns)]> r)))
        <$> pd.rows df.
Proof.
  intros Hc1 Hc2 Hc3 Hns Hvs Hds Hne.
  assert (Hn : ns ≠ []).
  { intros ->. by apply Forall2_nil_inv_r in Hns. }
  assert (Hv : vs ≠ []).
  { intros ->. by apply Forall2_nil_inv_r in Hvs. }
  assert (Hd : ds ≠ []).
  { intros ->. by apply Forall2_nil_inv_r in Hds. }
  unfold main.podocyte_avg_statistics.
  rewrite (mean_numeric df _ ns) by done. rewrite bind_ret.
  rewrite (mean_numeric _ _ vs); [|by apply elem_of_union_columns|..|done].
  2:{ simpl. apply Forall2_fmap_l. eapply Forall2_impl; [exact Hvs|].
      intros row q Hrow. simpl. by rewrite lookup_insert_ne. }
  rewrite bind_ret.
  rewrite (mean_numeric _ _ ds);
    [|by do 2 apply elem_of_union_columns|..|done].
  2:{ simpl. do 2 apply Forall2_fmap_l. eapply Forall2_impl; [exact Hds|].
      intros row q Hrow. simpl. by rewrite !lookup_insert_ne. }
  rewrite bind_ret. eexists. split; [done|].
  simpl. by rewrite <-!list_fmap_compose.
Qed.

(** X9. [podocyte_statistics] followed by [podocyte_avg_statistics], as in
    [main]: every row of the table of a glomerulus records the arithmetic
    means, over the podocytes of the glomerulus, of the voxel count, of the
    volume and of the equivalent diameter; the podocyte columns are left as
    they were. *)
Theorem podocyte_avg_statistics_means regions (o : list Z) (voxel_volume : Qc)
    (df : pd.DataFrame) :
  main.podocyte_statistics regions o voxel_volume = inr (Some df) →
  ∃ df',
    main.podocyte_avg_statistics df = inr df'
    ∧ pd.len df' = length regions
    ∧ Forall (λ row,
         row !! "avg_podocyte_voxel_number"
         = Some (VNum (average ((λ pod, Qc_of_Z (area pod)) <$> regions)))
         ∧ row !! "avg_podocyte_volume"
           = Some (VNum (average ((λ pod, Qc_of_Z (area pod) * voxel_volume)%Qc
                                  <$> regions)))
         ∧ row !! "avg_podocyte_equiv_diam_pixels"
           = Some (VNum (average (equivalent_diameter <$> regions))))
        (pd.rows df')
    ∧ Forall2 (λ row row', ∀ column,
         column ∈ podocyte_columns → row' !! column = row !! column)
        (pd.rows df) (pd.rows df').
Proof.
  intros Hrun.
  destruct (podocyte_statistics_cases regions o voxel_volume)
    as (Hok & Herr & Hnil).
  destruct (decide (Forall (measurable o) regions)) as [Hall|Hn];
    [|by rewrite (Herr Hn) in Hrun].
  destruct (decide (regions = [])) as [Hempty|Hne];
    [by rewrite (Hnil Hempty) in Hrun|].
  destruct (Hok Hall Hne) as (rows & Hrun' & Hrows).
  rewrite Hrun' in Hrun. injection Hrun as <-.
  assert (Hcell : ∀ (column : string) (f : RegionProperties → Qc),
            (∀ pod (row : gmap string value) x y z,
               row = list_to_map
                 [("podocyte_label_number", VInt (label pod));
                  ("podocyte_voxel_number", VInt (area pod));
                  ("podocyte_volume", VNum (Qc_of_Z (area pod) * voxel_volume)%Qc);
                  ("podocyte_equiv_diam_pixels", VNum (equivalent_diameter pod));
                  ("podocyte_centroid_x", VNum x);
                  ("podocyte_centroid_y", VNum y);
                  ("podocyte_centroid_z", VNum z)] →
               row !! column = Some (VNum (f pod))) →
            Forall2 (λ row q, row !! column = Some (VNum q)) rows (f <$> regions)).
  { intros column f Hf. apply Forall2_fmap_r, Forall2_flip.
    eapply Forall2_impl; [exact Hrows|].
    intros pod row (x & y & z & Hrow). by eapply Hf. }
  destruct (podocyte_avg_statistics_inr
              {| pd.columns := podocyte_columns; pd.rows := rows |}
              ((λ pod, Qc_of_Z (area pod)) <$> regions)
              ((λ pod, Qc_of_Z (area pod) * voxel_volume)%Qc <$> regions)
              (equivalent_diameter <$> regions)) as (df' & Havg & Hrows').
  - unfold podocyte_columns. simpl. rewrite !elem_of_cons. tauto.
  - unfold podocyte_columns. simpl. rewrite !elem_of_cons. tauto.
  - unfold podocyte_columns. simpl. rewrite !elem_of_cons. tauto.
  - apply Hcell. intros pod row x y z ->.
    rewrite !list_to_map_cons. rewrite lookup_insert_ne by done.
    by rewrite lookup_insert_eq.
  - apply Hcell. intros pod row x y z ->.
    rewrite !list_to_map_cons. rewrite !lookup_insert_ne by done.
    by rewrite lookup_insert_eq.
  - apply Hcell. intros pod row x y z ->.
    rewrite !list_to_map_cons. rewrite !lookup_insert_ne by done.
    by rewrite lookup_insert_eq.
  - simpl. intros ->. apply Forall2_nil_inv_r in Hrows. done.
  - exists df'. split; [exact Havg|]. simpl in Hrows'. rewrite Hrows'.
    split; [|split].
    + unfold pd.len. rewrite Hrows', length_fmap.
      symmetry. by eapply Forall2_length.
    + apply Forall_fmap, Forall_true. intros row. simpl. split; [|split].
      * rewrite !lookup_insert_ne by done. by rewrite lookup_insert_eq.
      * rewrite lookup_insert_ne by done. by rewrite lookup_insert_eq.
      * by rewrite lookup_insert_eq.
    + simpl. apply Forall2_fmap_r, Forall_Forall2_diag, Forall_true.
      intros row column Hc. unfold podocyte_columns in Hc.
      rewrite !elem_of_cons, elem_of_nil in Hc.
      rewrite !lookup_insert_ne; [done|..];
        intros <-; repeat (destruct Hc as [Hc|Hc]; [discriminate|]); done.
Qed.

(** ** [glom_statistics] *)

(** [glom_statistics] for a glomerulus with a centroid of three coordinates
    or more: the ten glomerulus cells of every row are set. *)
Lemma glom_statistics_inr (df : pd.DataFrame) (glom : RegionProperties)
    (glom_index : Z) (voxel_volume : Qc) (x y z : Qc) rest :
  centroid glom = z :: y :: x :: rest →
  ∃ df',
    main.glom_statistics df glom glom_index voxel_volume = inr df'
    ∧ pd.rows df'
      = (λ r,
           <["glomeruli_centroid_z" := VNum z]>
           (<["glomeruli_centroid_y" := VNum y]>
           (<["glomeruli_centroid_x" := VNum x]>
           (<["glomeruli_equiv_diam_pixels" := VNum (equivalent_diameter glom)]>
           (<["glomeruli_volume"
              := VNum (Qc_of_Z (filled_area glom) * voxel_volume)%Qc]>
           (<["glomeruli_voxel_number" := VInt (filled_area glom)]>
           (<["glomeruli_label_number" := VInt (label glom)]>
           (<["glomeruli_index" := VInt glom_index]>
           (<["podocyte_density"
              := VNum (Qc_of_Z (Z.of_nat (pd.len df))
                       / (Qc_of_Z (filled_area glom) * voxel_volume))%Qc]>
           (<["number_of_podocytes"
              := VNum (Qc_of_Z (Z.of_nat (pd.len df)))]> r))))))))))
        <$> pd.rows df.
Proof.
  intros Hc. unfold main.glom_statistics. rewrite Hc.
  rewrite (getitem_inr (z :: y :: x :: rest) 2 x eq_refl), bind_ret.
  rewrite (getitem_inr (z :: y :: x :: rest) 1 y eq_refl), bind_ret.
  rewrite (getitem_inr (z :: y :: x :: rest) 0 z eq_refl), bind_ret.
  eexists. split; [done|]. simpl. by rewrite <-!list_fmap_compose.
Qed.

(** X10. [glom_statistics] fails exactly on a glomerulus whose centroid has
    fewer than three coordinates, the region of a 2-D label image: reading
    [glom.centroid[2]] is an [IndexError]. *)
Theorem glom_statistics_IndexError (df : pd.DataFrame) (glom : RegionProperties)
    (glom_index : Z) (voxel_volume : Qc) (e : exn) :
  main.glom_statistics df glom glom_index voxel_volume = inl e
  ↔ e = IndexError ∧ (length (centroid glom) < 3)%nat.
Proof.
  destruct (decide (3 ≤ length (centroid glom))%nat) as [H3|H3].
  - destruct (centroid glom) as [|z [|y [|x rest]]] eqn:Hc; simpl in H3; try lia.
    destruct (glom_statistics_inr df glom glom_index voxel_volume x y z rest Hc)
      as (df' & Hrun & _).
    rewrite Hrun. split; [discriminate|]. intros [_ Hlt]. simpl in Hlt. lia.
  - assert (Hrun : main.glom_statistics df glom glom_index voxel_volume
                   = inl IndexError).
    { unfold main.glom_statistics. rewrite (getitem_ge _ 2) by lia. done. }
    rewrite Hrun. split; [intros [= <-]; split; [done|lia]|by intros [-> _]].
Qed.

(** X11. The cells that [glom_statistics] writes. Every row of the table of a
    glomerulus receives the number of rows of the table as
    [number_of_podocytes], that number divided by the volume of the glomerulus
    (when it is not zero) as [podocyte_density], the index, the label, the
    voxel count, the volume, the equivalent diameter and the centroid
    (coordinate 2 as x, 1 as y, 0 as z) of the glomerulus; no row is added or
    removed and the other columns keep their cells. *)
Theorem glom_statistics_cells (df : pd.DataFrame) (glom : RegionProperties)
    (glom_index : Z) (voxel_volume : Qc) :
  (3 ≤ length (centroid glom))%nat →
  ∃ df',
    main.glom_statistics df glom glom_index voxel_volume = inr df'
    ∧ pd.len df' = pd.len df
    ∧ Forall (λ row,
         row !! "number_of_podocytes"
         = Some (VNum (Qc_of_Z (Z.of_nat (pd.len df))))
         ∧ ((Qc_of_Z (filled_area glom) * voxel_volume)%Qc ≠ 0%Qc →
            row !! "podocyte_density"
            = Some (VNum (Qc_of_Z (Z.of_nat (pd.len df))
                          / (Qc_of_Z (filled_area glom) * voxel_volume))%Qc))
         ∧ row !! "glomeruli_index" = Some (VInt glom_index)
         ∧ row !! "glomeruli_label_number" = Some (VInt (label glom))
         ∧ row !! "glomeruli_voxel_number" = Some (VInt (filled_area glom))
         ∧ row !! "glomeruli_volume"
           = Some (VNum (Qc_of_Z (filled_area glom) * voxel_volume)%Qc)
         ∧ row !! "glomeruli_equiv_diam_pixels"
           = Some (VNum (equivalent_diameter glom))
         ∧ row !! "glomeruli_centroid_x" = VNum <$> centroid glom !! 2%nat
         ∧ row !! "glomeruli_centroid_y" = VNum <$> centroid glom !! 1%nat
         ∧ row !! "glomeruli_centroid_z" = VNum <$> centroid glom !! 0%nat)
        (pd.rows df')
    ∧ Forall2 (λ row row', ∀ column,
         column ∉ glomerulus_columns → row' !! column = row !! column)
        (pd.rows df) (pd.rows df').
Proof.
  intros H3.
  destruct (centroid glom) as [|z [|y [|x rest]]] eqn:Hc; simpl in H3; try lia.
  destruct (glom_statistics_inr df glom glom_index voxel_volume x y z rest Hc)
    as (df' & Hrun & Hrows).
  exists df'. split; [exact Hrun|]. rewrite Hrows. split; [|split].
  - unfold pd.len. by rewrite Hrows, length_fmap.
  - apply Forall_fmap, Forall_true. intros row. simpl.
    split; [rewrite !lookup_insert_ne by done; by rewrite lookup_insert_eq|].
    split; [intros _; rewrite !lookup_insert_ne by done; by rewrite lookup_insert_eq|].
    repeat (split; [rewrite !lookup_insert_ne by done; by rewrite lookup_insert_eq|]).
    by rewrite lookup_insert_eq.
  - apply Forall2_fmap_r, Forall_Forall2_diag, Forall_true.
    intros row column Hc'. unfold glomerulus_columns in Hc'.
    rewrite !elem_of_cons, elem_of_nil in Hc'.
    rewrite !lookup_insert_ne; [done|..]; intros <-; tauto.
Qed.

(** ** The loops of [main] *)

Lemma podocyte_avg_statistics_len (df df' : pd.DataFrame) :
  main.podocyte_avg_statistics df = inr df' → pd.len df' = pd.len df.
Proof.
  unfold main.podocyte_avg_statistics. intros Hrun.
  apply bind_inr in Hrun as (m1 & _ & Hrun).
  apply bind_inr in Hrun as (m2 & _ & Hrun).
  apply bind_inr in Hrun as (m3 & _ & [= <-]).
  unfold pd.len. simpl. by rewrite !length_fmap.
Qed.

(** [df[col] = v] leaves the cells of the other columns as they are. *)
Lemma setitem_other (df : pd.DataFrame) (col : string) (v : option value) :
  Forall2 (λ r r', ∀ column, column ≠ col → r' !! column = r !! column)
    (pd.rows df) (pd.rows (pd.setitem df col v)).
Proof.
  simpl. apply Forall2_fmap_r, Forall_Forall2_diag, Forall_true.
  intros r column Hc. destruct v as [x|].
  - by rewrite lookup_insert_ne.
  - by rewrite lookup_delete_ne.
Qed.

(** [podocyte_avg_statistics] writes the three average columns only. *)
Lemma podocyte_avg_statistics_other (df df' : pd.DataFrame) :
  main.podocyte_avg_statistics df = inr df' →
  Forall2 (λ r r', ∀ column,
             column ∉ ["avg_podocyte_voxel_number"; "avg_podocyte_volume";
                       "avg_podocyte_equiv_diam_pixels"] →
             r' !! column = r !! column)
    (pd.rows df) (pd.rows df').
Proof.
  unfold main.podocyte_avg_statistics. intros Hrun.
  apply bind_inr in Hrun as (m1 & _ & Hrun).
  apply bind_inr in Hrun as (m2 & _ & Hrun).
  apply bind_inr in Hrun as (m3 & _ & [= <-]).
  simpl. rewrite <-!list_fmap_compose.
  apply Forall2_fmap_r, Forall_Forall2_diag, Forall_true.
  intros r column Hc. rewrite !elem_of_cons, elem_of_nil in Hc. simpl.
  destruct m1, m2, m3; simpl;
    repeat first [rewrite lookup_insert_ne by (intros <-; tauto)
                 |rewrite lookup_delete_ne by (intros <-; tauto)];
    done.
Qed.

Lemma nonempty_blocks_cons {X} (block : list X) (blocks : list (list X)) :
  nonempty_blocks (block :: blocks)
  = ((if decide (block = []) then 0 else 1) + nonempty_blocks blocks)%nat.
Proof.
  unfold nonempty_blocks. rewrite filter_cons.
  destruct (decide (block ≠ [])) as [Hne|He].
  - by rewrite decide_False.
  - apply dec_stable in He. by rewrite decide_True.
Qed.

Lemma nonempty_blocks_fmap {X Y} (f : X → Y) (blocks : list (list X)) :
  nonempty_blocks (fmap (M:=list) (fmap f) blocks) = nonempty_blocks blocks.
Proof.
  induction blocks as [|block blocks IH]; [done|].
  rewrite fmap_cons, !nonempty_blocks_cons, IH. f_equal.
  destruct block; simpl; by repeat case_decide.
Qed.

Section main_loops.
Context {A : Type} `{!lib.Library A}.

(** One round of the loop over the glomeruli: one row per podocyte region
    of the glomerulus is appended (none, and the glomerulus is skipped, when
    it has no podocyte), with the current glomerulus index, which moves on by
    one unless the glomerulus was skipped. *)
Lemma main_glom_round (podocytes_view : ndarray A) (voxel_volume : Qc)
    detailed_stats glom_index glom detailed_stats' glom_index' :
  main.main_glom podocytes_view voxel_volume (detailed_stats, glom_index) glom
  = inr (detailed_stats', glom_index') →
  ∃ podocyte_regions centroid_offset wshed block,
    main.find_podocytes podocytes_view glom
    = inr (podocyte_regions, centroid_offset, wshed)
    ∧ pd.rows detailed_stats' = pd.rows detailed_stats ++ block
    ∧ glom_index' = glom_index + (if decide (block = []) then 0 else 1)
    ∧ Forall2 (λ pod r,
         r !! "podocyte_label_number" = Some (VInt (label pod))
         ∧ r !! "glomeruli_label_number" = Some (VInt (label glom))
         ∧ r !! "number_of_podocytes"
           = Some (VNum (Qc_of_Z (Z.of_nat (length podocyte_regions))))
         ∧ r !! "glomeruli_index" = Some (VInt glom_index))
        podocyte_regions block.
Proof.
  unfold main.main_glom. intros Hrun.
  apply bind_inr in Hrun as ([[regions o] wshed] & Hfind & Hrun).
  apply bind_inr in Hrun as (stat & Hstat & Hrun).
  exists regions, o, wshed.
  destruct (podocyte_statistics_cases regions o voxel_volume)
    as (Hok & Herr & Hnil).
  destruct (decide (Forall (measurable o) regions)) as [Hall|Hn];
    [|by rewrite (Herr Hn) in Hstat].
  destruct (decide (regions = [])) as [->|Hne].
  { rewrite (Hnil eq_refl) in Hstat. injection Hstat as <-.
    injection Hrun as <- <-. exists []. rewrite app_nil_r.
    split; [done|]. split; [done|]. split; [simpl; lia|constructor]. }
  destruct (Hok Hall Hne) as (rows & Hstat' & Hrows).
  rewrite Hstat' in Hstat. injection Hstat as <-.
  apply bind_inr in Hrun as (x & Hx & Hrun).
  apply bind_inr in Hrun as (y & Hy & Hrun).
  apply bind_inr in Hrun as (z & Hz & Hrun).
  apply bind_inr in Hrun as (df1 & Havg & Hrun).
  apply bind_inr in Hrun as (df2 & Hglom & [= <- <-]).
  apply getitem_inv in Hx, Hy, Hz.
  destruct (centroid glom) as [|z' [|y' [|x' rest]]] eqn:Hc; try discriminate.
  injection Hx as ->. injection Hy as ->. injection Hz as ->.
  destruct (glom_statistics_inr df1 glom glom_index voxel_volume x y z rest Hc)
    as (df2' & Hglom' & Hrows2).
  rewrite Hglom' in Hglom. injection Hglom as ->.
  pose proof (podocyte_avg_statistics_len _ _ Havg) as Hlen.
  apply podocyte_avg_statistics_other in Havg. simpl in Havg.
  assert (Hlength : pd.len df1 = length regions).
  { rewrite Hlen. unfold pd.len. simpl. symmetry. by eapply Forall2_length. }
  exists (pd.rows df2). split; [done|]. split; [done|]. split.
  { rewrite decide_False; [done|]. intros Hnil2.
    apply (f_equal length) in Hnil2. rewrite Hrows2, length_fmap in Hnil2.
    unfold pd.len in Hlength. rewrite Hlength in Hnil2.
    by destruct regions. }
  rewrite Hrows2. apply Forall2_fmap_r.
  assert (Hrows1 : Forall2 (λ pod r,
            r !! "podocyte_label_number" = Some (VInt (label pod)))
            regions (pd.rows df1)).
  { eapply Forall2_trans; [|exact Hrows|exact Havg].
    intros pod row r1 (cx & cy & cz & ->) Hkeep. simpl in Hkeep.
    rewrite Hkeep.
    - by rewrite lookup_insert_eq.
    - rewrite !elem_of_cons, elem_of_nil. intros [?|[?|[?|[]]]]; done. }
  eapply Forall2_impl; [exact Hrows1|].
  intros pod r Hlabel. simpl. split; [|split; [|split]].
  - by rewrite !lookup_insert_ne.
  - rewrite !lookup_insert_ne by done. by rewrite lookup_insert_eq.
  - rewrite !lookup_insert_ne by done. rewrite lookup_insert_eq.
    by rewrite Hlength.
  - rewrite !lookup_insert_ne by done. by rewrite lookup_insert_eq.
Qed.

(** The loop over the glomeruli only appends rows: one block of rows per
    glomerulus, without a row when the glomerulus has no podocyte; the blocks
    that have rows are numbered consecutively from the index the loop starts
    with. *)
Lemma main_glom_loop (podocytes_view : ndarray A) (voxel_volume : Qc)
    glom_regions detailed_stats glom_index detailed_stats' glom_index' :
  for_each (main.main_glom podocytes_view voxel_volume)
    (detailed_stats, glom_index) glom_regions
  = inr (detailed_stats', glom_index') →
  ∃ blocks,
    pd.rows detailed_stats' = pd.rows detailed_stats ++ concat blocks
    ∧ Forall2 (λ glom block,
         ∃ podocyte_regions centroid_offset wshed,
           main.find_podocytes podocytes_view glom
           = inr (podocyte_regions, centroid_offset, wshed)
           ∧ Forall2 (λ pod r,
                r !! "podocyte_label_number" = Some (VInt (label pod))
                ∧ r !! "glomeruli_label_number" = Some (VInt (label glom))
                ∧ r !! "number_of_podocytes"
                  = Some (VNum (Qc_of_Z (Z.of_nat (length podocyte_regions)))))
               podocyte_regions block)
        glom_regions blocks
    ∧ ∀ (k : nat) block, blocks !! k = Some block →
        Forall (λ r,
           r !! "glomeruli_index"
           = Some (VInt (glom_index
                         + Z.of_nat (nonempty_blocks (take k blocks))))) block.
Proof.
  revert detailed_stats glom_index.
  induction glom_regions as [|glom gloms IH]; intros ds idx Hrun.
  { injection Hrun as <- <-. exists []. simpl. rewrite app_nil_r.
    split; [done|]. split; [constructor|]. intros k block Hk.
    by rewrite lookup_nil in Hk. }
  rewrite for_each_cons in Hrun.
  apply bind_inr in Hrun as ([ds1 idx1] & Hstep & Hrun).
  apply IH in Hrun as (blocks & Hrows & Hgloms & Hindex).
  apply main_glom_round in Hstep
    as (regions & o & wshed & block & Hfind & Hrows1 & -> & Hblock).
  exists (block :: blocks). split; [|split].
  - rewrite Hrows, Hrows1. simpl. by rewrite <-app_assoc.
  - constructor; [|exact Hgloms]. exists regions, o, wshed.
    split; [exact Hfind|]. eapply Forall2_impl; [exact Hblock|].
    intros pod r (H1 & H2 & H3 & _). done.
  - intros [|k] block' Hk; simpl in Hk.
    + injection Hk as <-. simpl.
      replace (idx + Z.of_nat (nonempty_blocks [])) with idx
        by (unfold nonempty_blocks; simpl; lia).
      apply (Forall2_Forall_r _ _ _ _ Hblock). apply Forall_true.
      intros pod r (_ & _ & _ & H4). exact H4.
    + specialize (Hindex k block' Hk). eapply Forall_impl; [exact Hindex|].
      intros r Hr. simpl in Hr.
      change (take (S k) (block :: blocks)) with (block :: take k blocks).
      rewrite nonempty_blocks_cons, Hr.
      assert (Heq : idx + (if decide (block = []) then 0 else 1)
                    + Z.of_nat (nonempty_blocks (take k blocks))
                    = idx + Z.of_nat ((if decide (block = []) then 0 else 1)
                                      + nonempty_blocks (take k blocks))%nat)
        by (case_decide; lia).
      by rewrite Heq.
Qed.

(** X12. What one series adds to the detailed table. The rows that were there
    stay in front, restamped with the identifiers of this series and otherwise
    unchanged. Then comes one block of rows per glomerulus of the series, that
    is per region that [filter_by_size] keeps of the label image of the
    glomeruli channel, in the order of these regions: the block holds one row
    per podocyte region that [find_podocytes] returns for the glomerulus, with
    the number of the glomerulus, the number of its podocytes and the
    identifiers of the series, and no row when the glomerulus has no podocyte.
    The glomeruli that have podocytes are numbered 0, 1, 2, ... within the
    series: the rows of a block carry as [glomeruli_index] the number of
    blocks with rows before it, a glomerulus without podocytes taking no
    number. *)
Theorem main_series_numbers_glomeruli (channel_glomeruli channel_podocytes : Z)
    (min_glom_diameter max_glom_diameter : Qc) (filename : string)
    (series : Series A) detailed_stats written detailed_stats' written' :
  main.main_series channel_glomeruli channel_podocytes min_glom_diameter
    max_glom_diameter filename (detailed_stats, written) series
  = inr (detailed_stats', written') →
  ∃ glomeruli_view glomeruli_labels earlier blocks,
    pims.channel (frame series) channel_glomeruli = inr glomeruli_view
    ∧ main.preprocess_glomeruli glomeruli_view = inr glomeruli_labels
    ∧ pd.rows detailed_stats' = earlier ++ concat blocks
    ∧ Forall2 (restamped filename series) (pd.rows detailed_stats) earlier
    ∧ Forall2 (glomerulus_rows channel_podocytes filename series)
        (main.filter_by_size glomeruli_labels min_glom_diameter
           max_glom_diameter)
        blocks
    ∧ ∀ (k : nat) block, blocks !! k = Some block →
        Forall (λ r,
           r !! "glomeruli_index"
           = Some (VInt (Z.of_nat (nonempty_blocks (take k blocks))))) block.
Proof.
  unfold main.main_series. intros Hrun.
  apply bind_inr in Hrun as (view & Hview & Hrun).
  apply bind_inr in Hrun as (labels & Hlabels & Hrun).
  apply bind_inr in Hrun as (table & Htable & [= <- _]).
  exists view, labels.
  set (glom_regions := main.filter_by_size labels min_glom_diameter
                         max_glom_diameter) in *.
  set (stamp := λ r : gmap string value,
         <["image_filename" := VStr filename]>
           (<["image_series_name" := VStr (ImageName series)]>
              (<["image_series_num" := VStr (ImageID series)]> r))).
  assert (Hstamped : ∀ r, restamped filename series r (stamp r)).
  { intros r. unfold stamp, restamped, stamped. split; [split; [|split]|].
    - by rewrite lookup_insert_eq.
    - rewrite !lookup_insert_ne by done. by rewrite lookup_insert_eq.
    - rewrite lookup_insert_ne by done. by rewrite lookup_insert_eq.
    - intros column Hc. rewrite !elem_of_cons, elem_of_nil in Hc.
      rewrite !lookup_insert_ne; [done|..]; intros <-; tauto. }
  assert (Hblocks : ∃ blocks,
            pd.rows table = pd.rows detailed_stats ++ concat blocks
            ∧ Forall2 (λ glom block,
                 ∃ pv podocytes_view podocyte_regions centroid_offset wshed,
                   pims.channel (frame series) channel_podocytes = inr pv
                   ∧ main.denoise_image pv = inr podocytes_view
                   ∧ main.find_podocytes podocytes_view glom
                     = inr (podocyte_regions, centroid_offset, wshed)
                   ∧ Forall2 (λ pod r,
                        r !! "podocyte_label_number" = Some (VInt (label pod))
                        ∧ r !! "glomeruli_label_number"
                          = Some (VInt (label glom))
                        ∧ r !! "number_of_podocytes"
                          = Some (VNum (Qc_of_Z (Z.of_nat
                                                   (length podocyte_regions)))))
                       podocyte_regions block)
                glom_regions blocks
            ∧ ∀ (k : nat) block, blocks !! k = Some block →
                Forall (λ r,
                   r !! "glomeruli_index"
                   = Some (VInt (Z.of_nat (nonempty_blocks (take k blocks)))))
                  block).
  { destruct (decide _) as [Hsome|Hnone] in Htable.
    - apply bind_inr in Htable as (pv & Hpv & Htable).
      apply bind_inr in Htable as (denoised & Hdenoised & Htable).
      apply bind_inr in Htable as ([table' glom_index] & Hloop & [= <-]).
      apply main_glom_loop in Hloop as (blocks & Hrows & Hgloms & Hindex).
      exists blocks. split; [done|]. split.
      + eapply Forall2_impl; [exact Hgloms|].
        intros glom block (regions & o & wshed & Hfind & Hblock).
        by exists pv, denoised, regions, o, wshed.
      + intros k block Hk. specialize (Hindex k block Hk).
        eapply Forall_impl; [exact Hindex|]. intros r Hr. simpl in Hr.
        by rewrite Z.add_0_l in Hr.
    - injection Htable as <-. exists []. simpl. rewrite app_nil_r.
      split; [done|]. split.
      + destruct glom_regions; [constructor|simpl in Hnone; lia].
      + intros k block Hk. by rewrite lookup_nil in Hk. }
  destruct Hblocks as (blocks & Hrows & Hgloms & Hindex).
  exists (stamp <$> pd.rows detailed_stats),
    (fmap (M:=list) (λ block : list (gmap string value), stamp <$> block) blocks).
  split; [exact Hview|]. split; [exact Hlabels|]. split; [|split; [|split]].
  - simpl. rewrite <-!list_fmap_compose, Hrows, fmap_app. f_equal.
    clear. induction blocks as [|block blocks IH]; simpl; [done|].
    by rewrite fmap_app, IH.
  - apply Forall2_fmap_r, Forall_Forall2_diag, Forall_true. exact Hstamped.
  - apply Forall2_fmap_r. eapply Forall2_impl; [exact Hgloms|].
    intros glom block (pv & podocytes_view & regions & o & wshed & Hpv & Hden
                       & Hfind & Hblock).
    exists pv, podocytes_view, regions, o, wshed.
    split; [exact Hpv|]. split; [exact Hden|]. split; [exact Hfind|].
    apply Forall2_fmap_r. eapply Forall2_impl; [exact Hblock|].
    intros pod r (H1 & H2 & H3). destruct (Hstamped r) as [Hst Hkeep].
    split; [|split; [|split]]; [rewrite Hkeep..|exact Hst]; try done;
      rewrite !elem_of_cons, elem_of_nil; intros [?|[?|[?|[]]]]; done.
  - intros k block Hk. apply list_lookup_fmap_Some in Hk as (block0 & -> & Hk).
    specialize (Hindex k block0 Hk). apply Forall_fmap.
    eapply Forall_impl; [exact Hindex|]. intros r Hr. simpl.
    destruct (Hstamped r) as [_ Hkeep]. rewrite Hkeep.
    + rewrite Hr. do 3 f_equal.
      by rewrite <-fmap_take, nonempty_blocks_fmap.
    + rewrite !elem_of_cons, elem_of_nil. intros [?|[?|[?|[]]]]; done.
Qed.

(** The loop of [main] over the series of a file: when the file holds a
    series, the table that results is the one written and its rows carry the
    identifiers of the last series. *)
Lemma main_series_loop (channel_glomeruli channel_podocytes : Z)
    (min_glom_diameter max_glom_diameter : Qc) (filename : string)
    (images : list (Series A)) st detailed_stats written :
  for_each (main.main_series channel_glomeruli channel_podocytes
              min_glom_diameter max_glom_diameter filename) st images
  = inr (detailed_stats, written) →
  (images = [] ∧ st = (detailed_stats, written))
  ∨ ∃ series, last images = Some series
              ∧ written = Some detailed_stats
              ∧ Forall (stamped filename series) (pd.rows detailed_stats).
Proof.
  revert st. induction images as [|series images IH]; intros st Hrun.
  { left. by injection Hrun as ->. }
  right. rewrite for_each_cons in Hrun.
  apply bind_inr in Hrun as ([ds1 written1] & Hstep & Hrun).
  apply main_series_stamps_every_row in Hstep as [-> Hstamp].
  apply IH in Hrun as [[-> [= <- <-]]|(series' & Hlast & -> & Hstamp')].
  - by exists series.
  - exists series'. split; [|done]. destruct images; [done|exact Hlast].
Qed.

(** The loop of [main] over the files: the state is left as it was when no
    file holds a series; otherwise the table is the one written and its rows
    carry the identifiers of the last series of the last file that holds
    one. *)
Lemma main_file_loop (channel_glomeruli channel_podocytes : Z)
    (min_glom_diameter max_glom_diameter : Qc) (filelist : list string)
    st detailed_stats written :
  for_each (main.main_file channel_glomeruli channel_podocytes
              min_glom_diameter max_glom_diameter) st filelist
  = inr (detailed_stats, written) →
  (st = (detailed_stats, written)
   ∧ Forall (λ f, lib.open f = inr []) filelist)
  ∨ ∃ earlier filename later images series,
      filelist = earlier ++ filename :: later
      ∧ Forall (λ f, lib.open f = inr []) later
      ∧ lib.open filename = inr images
      ∧ last images = Some series
      ∧ written = Some detailed_stats
      ∧ Forall (stamped filename series) (pd.rows detailed_stats).
Proof.
  revert st. induction filelist as [|f files IH]; intros st Hrun.
  { left. by injection Hrun as ->. }
  rewrite for_each_cons in Hrun.
  apply bind_inr in Hrun as ([ds1 written1] & Hstep & Hrun).
  unfold main.main_file in Hstep.
  apply bind_inr in Hstep as (images & Hopen & Hstep).
  apply main_series_loop in Hstep.
  apply IH in Hrun
    as [[[= <- <-] Hnone]
       |(earlier & filename & later & images' & series' & -> & Hnone & Hopen'
         & Hlast' & -> & Hstamp')].
  - destruct Hstep as [[-> ->]|(series & Hlast & -> & Hstamp)].
    + left. split; [done|]. by constructor.
    + right. by exists [], f, files, images, series.
  - right. by exists (f :: earlier), filename, later, images', series'.
Qed.

(** X13. When [main] returns, a detailed table was written; it has rows, and
    the summary written is its summary. Every row of it, whatever file and
    series its podocyte was found in, carries the file name and the series
    identifiers of the last series of the batch (the last series of the last
    file that holds one). *)
Theorem main_rows_carry_last_series (d : os.dir) (args : main.Args)
    (out : main.Output) :
  main.main d args = inr out →
  ∃ ext detailed_stats earlier filename later images series,
    main.file_extension args !! 0%nat = Some ext
    ∧ main.detailed_stats_csv out = Some detailed_stats
    ∧ pd.rows detailed_stats ≠ []
    ∧ main.create_summary_stats detailed_stats
      = inr (Some (main.summary_stats_csv out))
    ∧ main.find_files d (String.concat " " (main.input_directory args)) ext
      = earlier ++ filename :: later
    ∧ Forall (λ f, lib.open f = inr []) later
    ∧ lib.open filename = inr images
    ∧ last images = Some series
    ∧ Forall (stamped filename series) (pd.rows detailed_stats).
Proof.
  unfold main.main. intros Hrun.
  apply bind_inr in Hrun as (g & _ & Hrun).
  apply bind_inr in Hrun as (p & _ & Hrun).
  apply bind_inr in Hrun as (ext & Hext%getitem_inv & Hrun).
  apply bind_inr in Hrun as (logged & _ & Hrun).
  apply bind_inr in Hrun as ([detailed_stats written] & Hloop & Hrun).
  apply bind_inr in Hrun as ([summary|] & Hsummary & Hrun); [|discriminate].
  injection Hrun as <-. simpl.
  assert (Hrows : pd.rows detailed_stats ≠ []).
  { intros Hnil. unfold main.create_summary_stats in Hsummary.
    rewrite decide_True in Hsummary by (unfold pd.len; by rewrite Hnil).
    discriminate. }
  apply main_file_loop in Hloop
    as [[[= <- <-] _]
       |(earlier & filename & later & images & series & Hfiles & Hnone & Hopen
         & Hlast & -> & Hstamp)]; [done|].
  by exists ext, detailed_stats, earlier, filename, later, images, series.
Qed.


End main_loops.

(** ** More on [blob_dog_image] *)

Lemma normalize_index_error (n i : Z) e :
  np.normalize_index n i = inl e → e = IndexError.
Proof.
  unfold np.normalize_index. repeat case_decide; try discriminate.
  by intros [= <-].
Qed.

(** More indices than the array has axes: numpy's "too many indices". *)
Lemma normalize_indices_too_many (sh idx : list Z) :
  (length sh < length idx)%nat → np.normalize_indices sh idx = inl IndexError.
Proof.
  revert sh. induction idx as [|i idx IH]; intros sh Hlen; simpl in Hlen; [lia|].
  destruct sh as [|n sh]; [done|]. simpl in *.
  destruct (np.normalize_index n i) as [e|i'] eqn:Hi.
  - by apply normalize_index_error in Hi as ->.
  - simpl. by rewrite IH by lia.
Qed.

(** X15. The boolean image of [blob_dog_image], for blobs within an image of
    shape [image_shape]: it has that shape, and a voxel is [True] exactly when
    its first three indices are the coordinates, truncated to integers, of one
    of the blobs. *)
Theorem blob_dog_image_marks (blobs : list (list Qc)) (image_shape : list Z) :
  Forall (λ n, 0 ≤ n) image_shape →
  Forall (seed_in_image image_shape) blobs →
  ∃ blob_map,
    main.blob_dog_image blobs image_shape = inr blob_map
    ∧ shape blob_map = image_shape
    ∧ ∀ j, in_range image_shape j →
        data blob_map j = true ↔ seed_voxel blobs j.
Proof.
  intros Hsh Hseeds. unfold main.blob_dog_image, np.full.
  rewrite decide_True by done. rewrite bind_mret.
  cut (∀ blob_map0 : ndarray bool, shape blob_map0 = image_shape →
         ∃ blob_map,
           for_each (λ blob_map blob,
                       b0 ← getitem blob 0; b1 ← getitem blob 1;
                       b2 ← getitem blob 2;
                       np.setitem blob_map [py_int b0; py_int b1; py_int b2] true)
             blob_map0 blobs = inr blob_map
           ∧ shape blob_map = image_shape
           ∧ ∀ j, data blob_map j = true
                  ↔ data blob_map0 j = true ∨ seed_voxel blobs j).
  { intros Hloop.
    destruct (Hloop (NDArray image_shape (λ _, false)) eq_refl)
      as (blob_map & Hrun & Hshape & Hdata).
    exists blob_map. split; [done|]. split; [done|].
    intros j _. rewrite Hdata. simpl. split; [by intros [?|?]|by right]. }
  induction Hseeds as [|blob blobs Hblob _ IH]; intros blob_map0 Hshape0.
  - exists blob_map0. split; [done|]. split; [done|].
    intros j. split; [by left|]. intros [?|(b0 & b1 & b2 & rest & Hin & _)]; [done|].
    by apply elem_of_nil in Hin.
  - destruct Hblob as (b0 & b1 & b2 & rest & -> & Hr).
    rewrite for_each_cons.
    rewrite (getitem_inr (b0 :: b1 :: b2 :: rest) 0 b0 eq_refl), bind_ret.
    rewrite (getitem_inr (b0 :: b1 :: b2 :: rest) 1 b1 eq_refl), bind_ret.
    rewrite (getitem_inr (b0 :: b1 :: b2 :: rest) 2 b2 eq_refl), bind_ret.
    rewrite setitem_in_range by by rewrite Hshape0.
    rewrite bind_ret.
    match goal with
    | |- ∃ _, for_each _ ?marked _ = _ ∧ _ =>
        destruct (IH marked Hshape0) as (blob_map & Hrun & Hshape & Hdata)
    end.
    exists blob_map. split; [done|]. split; [done|].
    intros j. rewrite Hdata. simpl. split.
    + intros [Hj|(c0 & c1 & c2 & r & Hin & Htake)].
      * destruct (decide _) as [Htake|_]; [|by left].
        right. exists b0, b1, b2, rest. split; [by left|done].
      * right. exists c0, c1, c2, r. split; [by right|done].
    + intros [Hj|(c0 & c1 & c2 & r & Hin & Htake)].
      * left. by destruct (decide _).
      * apply elem_of_cons in Hin as [[= -> -> -> ->]|Hin].
        -- left. by rewrite decide_True.
        -- right. by exists c0, c1, c2, r.
Qed.

(** X16. [blob_dog_image] indexes the image with three coordinates: on an
    image shape of rank 2 (which the docstring allows) or less, the first blob
    is an [IndexError]. *)
Theorem blob_dog_image_needs_three_axes (blobs : list (list Qc))
    (image_shape : list Z) :
  Forall (λ n, 0 ≤ n) image_shape → (length image_shape < 3)%nat →
  blobs ≠ [] →
  main.blob_dog_image blobs image_shape = inl IndexError.
Proof.
  intros Hsh Hrank Hne. unfold main.blob_dog_image, np.full.
  rewrite decide_True by done. rewrite bind_mret.
  destruct blobs as [|blob blobs]; [done|]. rewrite for_each_cons.
  destruct (getitem blob 0) as [e|b0] eqn:H0;
    [by apply getitem_error in H0 as ->|rewrite bind_ret].
  destruct (getitem blob 1) as [e|b1] eqn:H1;
    [by apply getitem_error in H1 as ->|rewrite bind_ret].
  destruct (getitem blob 2) as [e|b2] eqn:H2;
    [by apply getitem_error in H2 as ->|rewrite bind_ret].
  unfold np.setitem. by rewrite normalize_indices_too_many.
Qed.

(** ** More on [marker_controlled_watershed] and [preprocess_glomeruli] *)

Section watershed_more.
Context {A : Type} `{!lib.Library A} `{!lib.Laws A}.

(** X17. Without a blob the only marker is the background plane, and the
    watershed image that [marker_controlled_watershed] returns is background
    (label 0) at every voxel. *)
Theorem marker_controlled_watershed_without_seeds (grayscale_image : ndarray A) :
  shape grayscale_image ≠ [] →
  Forall (λ n, 2 ≤ n) (shape grayscale_image) →
  ∃ wshed,
    main.marker_controlled_watershed grayscale_image [] = inr wshed
    ∧ shape wshed = shape grayscale_image
    ∧ ∀ i, in_range (shape grayscale_image) i → data wshed i = 0.
Proof.
  intros Hne Hsh.
  destruct (gradient_of_image_shape _ Hne Hsh) as (g & Hg & Hgshape).
  assert (Horigin : in_range (shape grayscale_image) (origin (shape grayscale_image)))
    by by apply in_range_positive.
  destruct (shape grayscale_image) as [|n0 sh'] eqn:Eshape; [done|].
  assert (Hpos : Forall (λ n, 0 ≤ n) (n0 :: sh')).
  { eapply Forall_impl; [exact Hsh|]. simpl. lia. }
  apply Forall_cons in Hsh as [Hn0 Hsh'].
  set (blob_map := NDArray (n0 :: sh') (λ _ : list Z, false)).
  assert (Hblob : main.blob_dog_image [] (n0 :: sh') = inr blob_map).
  { unfold main.blob_dog_image, np.full. by rewrite decide_True. }
  set (seeds := NDArray (n0 :: sh')
                  (λ j, if decide (take 1 j = [0]) then true else false)).
  assert (Hset : np.setitem blob_map [0] true = inr seeds).
  { rewrite setitem_in_range; [done|]. simpl. constructor; [lia|constructor]. }
  destruct (np_max_inr blob_map (origin (n0 :: sh'))) as [m Hm]; [done|].
  assert (Hmax : np.max seeds = inr true).
  { by apply (np_max_true seeds (origin (n0 :: sh'))). }
  destruct (lib.watershed_spec g (lib.label seeds)) as (w & Hw & Hwshape & Hwdata).
  { by rewrite lib.label_shape, Hgshape. }
  rewrite lib.label_shape in Hwshape, Hwdata. simpl in Hwshape, Hwdata.
  assert (Hbg : data (lib.label seeds) (origin (n0 :: sh')) = 1).
  { by apply lib.label_first. }
  assert (Hplane : ∀ j, in_range (n0 :: sh') j → take 1 j = [0] →
                        data (lib.label seeds) j = 1).
  { intros j Hj Htake. rewrite <-Hbg.
    apply Forall2_cons_inv_l in Hj as (j0 & j' & Hj0 & Hj' & ->).
    injection Htake as ->.
    apply (label_block seeds [n0] sh' [0]); [done| |done|done].
    constructor; [lia|constructor]. }
  exists (NDArray (shape w)
            (λ j, if decide (data w j = Z.b2z true) then 0 else data w j)).
  split; [|split; [done|]].
  { unfold main.marker_controlled_watershed.
    rewrite Hg, bind_ret, Eshape, Hblob, bind_ret, Hm, bind_ret.
    replace (main.bool_of_int (Z.b2z m + 1)) with true by by destruct m.
    rewrite Hset, bind_ret, Hw, bind_ret, Hmax, bind_ret. done. }
  intros i Hi. simpl.
  destruct (decide (data w i = 1)) as [|Hne1]; [done|].
  destruct (Hwdata i Hi) as [Hz|(j & Hj & Hjne & Hij)]; [done|].
  destruct Hne1. rewrite Hij. apply Hplane; [done|].
  assert (Hfg : data seeds j = true).
  { destruct (data seeds j) eqn:E; [done|].
    apply (lib.label_background seeds j Hj) in E. contradiction. }
  simpl in Hfg. by destruct (decide (take 1 j = [0])).
Qed.

(** X18. [preprocess_glomeruli] fails only where [denoise_image] does. The
    label image it returns has the shape of the denoised image, and a voxel is
    background (label 0) exactly when its denoised intensity does not exceed
    the Yen threshold of the denoised image. *)
Theorem preprocess_glomeruli_background (glomeruli_view : Frame A) :
  (∀ e, main.denoise_image glomeruli_view = inl e →
        main.preprocess_glomeruli glomeruli_view = inl e)
  ∧ (∀ denoised, main.denoise_image glomeruli_view = inr denoised →
       ∃ label_image,
         main.preprocess_glomeruli glomeruli_view = inr label_image
         ∧ shape label_image = shape denoised
         ∧ ∀ i, in_range (shape denoised) i →
             data label_image i = 0
             ↔ lib.gt (data denoised i) (lib.threshold_yen denoised) = false).
Proof.
  unfold main.preprocess_glomeruli. split.
  - by intros e ->.
  - intros denoised ->. rewrite bind_ret. eexists. split; [done|].
    split; [by rewrite lib.label_shape|].
    intros i Hi. by rewrite lib.label_background.
Qed.

End watershed_more.

(** ** More on [crop_region_of_interest] *)

Lemma box_axes_length (sh bbox : list Z) :
  length bbox = (2 * length sh)%nat → length (box_axes sh bbox) = length sh.
Proof.
  intros Hlen. unfold box_axes.
  rewrite !length_zip, length_take, length_drop. lia.
Qed.

Lemma box_axes_lower (sh bbox : list Z) :
  length bbox = (2 * length sh)%nat →
  take (length sh) bbox = (λ t, t.1) <$> box_axes sh bbox.
Proof.
  intros Hlen. unfold box_axes. symmetry. apply fst_zip.
  rewrite length_zip, length_take, length_drop. lia.
Qed.

Lemma box_axes_upper (sh bbox : list Z) :
  length bbox = (2 * length sh)%nat →
  drop (length sh) bbox = (λ t, t.2.1) <$> box_axes sh bbox.
Proof.
  intros Hlen. change (drop (length sh) bbox = (fst ∘ snd) <$> box_axes sh bbox).
  unfold box_axes. rewrite (list_fmap_compose snd fst), snd_zip, fst_zip; [done|..].
  - rewrite length_drop. lia.
  - rewrite length_zip, length_take, length_drop. lia.
Qed.

Lemma box_axes_size (sh bbox : list Z) :
  length bbox = (2 * length sh)%nat →
  sh = (λ t, t.2.2) <$> box_axes sh bbox.
Proof.
  intros Hlen. change (sh = (snd ∘ snd) <$> box_axes sh bbox).
  unfold box_axes. rewrite (list_fmap_compose snd snd), !snd_zip; [done|..].
  - rewrite length_drop. lia.
  - rewrite length_zip, length_take, length_drop. lia.
Qed.

Lemma slice_bounds_within (n s e : Z) :
  0 ≤ s ≤ e → e ≤ n → np.slice_bounds n (s, e) = (s, e - s).
Proof.
  intros Hs He. unfold np.slice_bounds. simpl.
  rewrite !decide_False by lia. f_equal; lia.
Qed.

(** The arithmetic of one axis [(lo, (hi, n))], for a box within the image
    and a margin that is not negative: the index [x] of the ROI lies in the
    window that is assigned exactly when [lo - margin + x] is an index of the
    image, and it then receives the element of the image at that index. *)
Lemma crop_axis_content (lo hi n margin x : Z) :
  0 ≤ margin → 0 ≤ lo ≤ hi → hi ≤ n →
  0 ≤ x < roi_size margin (lo, (hi, n)) →
  let ib := np.slice_bounds n (image_slice margin (lo, (hi, n))) in
  let rb := np.slice_bounds (roi_size margin (lo, (hi, n)))
              (roi_slice margin (lo, (hi, n))) in
  (rb.1 ≤ x < rb.1 + rb.2 ↔ 0 ≤ lo - margin + x < n)
  ∧ (rb.1 ≤ x < rb.1 + rb.2 →
     ib.1 + np.broadcast_index ib.2 (x - rb.1) = lo - margin + x).
Proof.
  intros Hm Hlo Hhi. unfold roi_size, image_slice, roi_slice. cbn [fst snd].
  intros Hx. cbv zeta.
  rewrite (slice_bounds_within n) by lia.
  rewrite slice_bounds_within by lia.
  cbn [fst snd]. unfold np.broadcast_index.
  split; [lia|]. intros Hw. case_decide; lia.
Qed.

Lemma zip_with_zip_with_same {T Y U V} (f : T → U → V) (h : T → Y → U)
    (l : list T) (j : list Y) :
  zip_with f l (zip_with h l j) = zip_with (λ t y, f t (h t y)) l j.
Proof.
  revert j. induction l as [|t l IH]; intros [|y j]; simpl; [done..|].
  by rewrite IH.
Qed.

Lemma Forall2_fmap_zip_with {T X Y U} (Q : X → U → Prop) (g : T → X)
    (h : T → Y → U) (l : list T) (j : list Y) :
  length l = length j →
  Forall2 Q (g <$> l) (zip_with h l j) ↔ Forall2 (λ t y, Q (g t) (h t y)) l j.
Proof.
  revert j. induction l as [|t l IH]; intros [|y j] Hlen; simpl in *; try lia.
  - split; constructor.
  - rewrite !Forall2_cons, IH by lia. done.
Qed.

Lemma Forall2_iff_pointwise {X Y} (P Q R : X → Y → Prop) l k :
  Forall2 R l k → (∀ x y, R x y → P x y ↔ Q x y) →
  Forall2 P l k ↔ Forall2 Q l k.
Proof.
  intros HR HPQ. induction HR as [|x y l k Hxy _ IH]; [split; constructor|].
  by rewrite !Forall2_cons, IH, (HPQ x y Hxy).
Qed.

Lemma zip_with_ext_Forall2 {X Y U} (f g : X → Y → U) (P : X → Y → Prop) l k :
  Forall2 P l k → (∀ x y, P x y → f x y = g x y) →
  zip_with f l k = zip_with g l k.
Proof.
  intros HP Hfg. induction HP as [|x y l k Hxy _ IH]; simpl; [done|].
  by rewrite IH, (Hfg x y Hxy).
Qed.

Lemma Forall2_conj {X Y} (P Q : X → Y → Prop) l k :
  Forall2 P l k → Forall2 Q l k → Forall2 (λ x y, P x y ∧ Q x y) l k.
Proof.
  intros HP. induction HP as [|x y l k Hxy _ IH]; intros HQ.
  - constructor.
  - apply Forall2_cons in HQ as [Hq HQ]. constructor; [done|by apply IH].
Qed.

Lemma Forall_Forall2_l {X Y} (P : X → Prop) (R : X → Y → Prop) l k :
  Forall P l → Forall2 R l k → Forall2 (λ x y, P x ∧ R x y) l k.
Proof.
  intros HP HR. induction HR as [|x y l k Hxy _ IH].
  - constructor.
  - apply Forall_cons in HP as [Hp HP]. constructor; [done|by apply IH].
Qed.

Lemma bbox_within_axes (sh bbox : list Z) :
  bbox_within sh bbox →
  length bbox = (2 * length sh)%nat
  ∧ Forall (λ t, 0 ≤ t.1 ≤ t.2.1 ∧ t.2.1 ≤ t.2.2) (box_axes sh bbox).
Proof. by intros [Hlen Hbox]. Qed.

Section crop_more.
Context {A : Type} `{!lib.Library A}.

(** [crop_region_of_interest] on a bounding box of the rank of the image:
    the arrays of coordinates are computed without error, and what is left is
    the choice of the padding, the read of the window of the image and its
    assignment to the window of the ROI. *)
Lemma crop_region_of_interest_steps (image : ndarray A) (bbox : list Z)
    (margin : Z) (pad_mode : string) :
  length bbox = (2 * ndim image)%nat →
  main.crop_region_of_interest image bbox margin pad_mode
  = (if decide (pad_mode = "zeros")
     then np.full (roi_size margin <$> box_axes (shape image) bbox) lib.zero
     else if decide (pad_mode = "mean")
     then valid ← np.getitem_slices image
                    (image_slice margin <$> box_axes (shape image) bbox);
          np.full (roi_size margin <$> box_axes (shape image) bbox)
            (lib.mean valid)
     else raise ValueError)
    ≫= λ roi_image,
         np.getitem_slices image
           (image_slice margin <$> box_axes (shape image) bbox)
         ≫= λ valid,
              np.setitem_slices roi_image
                (roi_slice margin <$> box_axes (shape image) bbox) valid.
Proof.
  intros Hlen. unfold ndim in Hlen.
  assert (Hn := box_axes_length _ _ Hlen).
  assert (HL := box_axes_lower _ _ Hlen).
  assert (HH := box_axes_upper _ _ Hlen).
  assert (HS := box_axes_size _ _ Hlen).
  set (T := box_axes (shape image) bbox) in *. clearbody T.
  unfold main.crop_region_of_interest. cbv zeta. unfold ndim.
  rewrite HL, HH, <-Hn, HS. rewrite <-!list_fmap_compose.
  unfold np.minimum, np.subtract.
  rewrite broadcast2_fmap. simpl.
  rewrite for_dims_fmap2. simpl.
  rewrite broadcast2_fmap. simpl.
  rewrite broadcast2_fmap. simpl.
  rewrite <-!list_fmap_compose.
  rewrite broadcast2_fmap. simpl.
  rewrite for_dims_fmap2. simpl.
  rewrite for_dims_fmap2. simpl.
  reflexivity.
Qed.

(** X19. An unrecognised [pad_mode] is a [ValueError], whatever the image and
    the box (of the rank of the image) are. *)
Theorem crop_region_of_interest_pad_mode (image : ndarray A) (bbox : list Z)
    (margin : Z) (pad_mode : string) :
  pad_mode ≠ "zeros" → pad_mode ≠ "mean" →
  length bbox = (2 * ndim image)%nat →
  main.crop_region_of_interest image bbox margin pad_mode = inl ValueError.
Proof.
  intros Hzeros Hmean Hlen. rewrite crop_region_of_interest_steps by done.
  by rewrite !decide_False by done.
Qed.

(** The array that [crop_region_of_interest] returns for a box within the
    image, a margin that is not negative and a known pad mode. *)
Lemma crop_region_of_interest_explicit (image : ndarray A) (bbox : list Z)
    (margin : Z) (pad_mode : string) :
  pad_mode = "zeros" ∨ pad_mode = "mean" →
  0 ≤ margin →
  bbox_within (shape image) bbox →
  ∃ roi_image valid,
    main.crop_region_of_interest image bbox margin pad_mode = inr roi_image
    ∧ np.getitem_slices image
        (image_slice margin <$> box_axes (shape image) bbox) = inr valid
    ∧ shape roi_image = roi_size margin <$> box_axes (shape image) bbox
    ∧ ∀ j,
        data roi_image j
        = if decide (Forall2
                       (λ t x,
                          (np.slice_bounds (roi_size margin t)
                             (roi_slice margin t)).1 ≤ x
                          < (np.slice_bounds (roi_size margin t)
                               (roi_slice margin t)).1
                            + (np.slice_bounds (roi_size margin t)
                                 (roi_slice margin t)).2)
                       (box_axes (shape image) bbox) j)
          then data image
                 (zip_with
                    (λ t x,
                       (np.slice_bounds t.2.2 (image_slice margin t)).1
                       + np.broadcast_index
                           (np.slice_bounds t.2.2 (image_slice margin t)).2
                           (x - (np.slice_bounds (roi_size margin t)
                                   (roi_slice margin t)).1))
                    (box_axes (shape image) bbox) j)
          else if decide (pad_mode = "zeros") then lib.zero
               else lib.mean valid.
Proof.
  intros Hpad Hmargin Hwithin.
  destruct (bbox_within_axes _ _ Hwithin) as [Hlen Hbox].
  rewrite crop_region_of_interest_steps by done.
  assert (Hn := box_axes_length _ _ Hlen).
  assert (HS := box_axes_size _ _ Hlen).
  set (T := box_axes (shape image) bbox) in *. clearbody T.
  set (ib := λ t : Z * (Z * Z), np.slice_bounds t.2.2 (image_slice margin t)).
  set (rb := λ t : Z * (Z * Z),
               np.slice_bounds (roi_size margin t) (roi_slice margin t)).
  assert (Hvalid : np.getitem_slices image (image_slice margin <$> T)
                   = inr (NDArray ((λ t, (ib t).2) <$> T)
                            (λ k, data image
                                    (zip_with (λ b x, b.1 + x) (ib <$> T) k)))).
  { unfold np.getitem_slices.
    rewrite decide_True by (unfold ndim; rewrite length_fmap; lia).
    cbv zeta. rewrite HS, bounds_fmap. fold ib.
    by rewrite <-list_fmap_compose. }
  assert (Hfull : ∀ v : A, np.full (roi_size margin <$> T) v
                           = inr (NDArray (roi_size margin <$> T) (λ _, v))).
  { intros v. unfold np.full. rewrite decide_True; [done|].
    apply Forall_fmap, Forall_true. intros t. unfold roi_size. simpl. lia. }
  set (pad := if decide (pad_mode = "zeros") then lib.zero
              else lib.mean (NDArray ((λ t, (ib t).2) <$> T)
                               (λ k, data image
                                       (zip_with (λ b x, b.1 + x) (ib <$> T) k)))).
  assert (Hroi : (if decide (pad_mode = "zeros")
                  then np.full (roi_size margin <$> T) lib.zero
                  else if decide (pad_mode = "mean")
                  then valid ← np.getitem_slices image (image_slice margin <$> T);
                       np.full (roi_size margin <$> T) (lib.mean valid)
                  else raise ValueError)
                 = inr (NDArray (roi_size margin <$> T) (λ _, pad))).
  { unfold pad. destruct Hpad as [->| ->].
    - rewrite !decide_True by done. apply Hfull.
    - rewrite !decide_False by done. rewrite decide_True by done.
      rewrite Hvalid, bind_ret. apply Hfull. }
  rewrite Hroi, bind_ret, Hvalid, bind_ret.
  unfold np.setitem_slices. cbn [shape ndim data].
  rewrite decide_True by (unfold ndim; cbn [shape]; rewrite !length_fmap; lia).
  cbv zeta. rewrite bounds_fmap. fold rb.
  rewrite decide_True.
  2:{ unfold np.broadcastable. rewrite <-list_fmap_compose.
      apply Forall2_fmap, Forall_Forall2_diag.
      eapply Forall_impl; [exact Hbox|]. intros [lo [hi n]] [Hlo Hhi]. simpl in *.
      left. unfold ib, rb, image_slice, roi_slice, roi_size. cbn [fst snd].
      by apply crop_axis_windows. }
  eexists _, _. split; [reflexivity|]. split; [reflexivity|]. split; [reflexivity|].
  intros j. cbn [data].
  match goal with
  | |- ?lhs = _ =>
      change (lhs = if decide (Forall2 (λ t x, (rb t).1 ≤ x < (rb t).1 + (rb t).2)
                                 T j)
                    then data image
                           (zip_with
                              (λ t x, (ib t).1
                                      + np.broadcast_index (ib t).2 (x - (rb t).1))
                              T j)
                    else pad)
  end.
  rewrite (decide_ext _ (Forall2 (λ t x, (rb t).1 ≤ x < (rb t).1 + (rb t).2) T j))
    by apply Forall2_fmap_l.
  destruct (decide (Forall2 _ T j)) as [Hw|Hw]; [|done].
  f_equal. rewrite (zip_with_fmap_same pair (λ t, (ib t).2) rb).
  by rewrite !zip_with_fmap_l, zip_with_zip_with_same.
Qed.

(** X20. The content of the ROI that [crop_region_of_interest] returns, for a
    box within the image, a margin that is not negative and a known pad mode.
    The ROI is the image seen from the lower corner of the box moved back by
    the margin: the voxel [j] holds the voxel [lower - margin + j] of the
    image when this is a voxel of the image, and the padding otherwise, which
    is zero for [zeros] and the mean of the part of the image that lies in the
    enlarged box for [mean]. *)
Theorem crop_region_of_interest_content (image : ndarray A) (bbox : list Z)
    (margin : Z) (pad_mode : string) :
  pad_mode = "zeros" ∨ pad_mode = "mean" →
  0 ≤ margin →
  bbox_within (shape image) bbox →
  ∃ roi_image valid,
    main.crop_region_of_interest image bbox margin pad_mode = inr roi_image
    ∧ np.getitem_slices image
        (image_slice margin <$> box_axes (shape image) bbox) = inr valid
    ∧ ∀ j, in_range (shape roi_image) j →
        data roi_image j
        = let source :=
            zip_with (λ lower x, lower - margin + x) (take (ndim image) bbox) j in
          if decide (in_range (shape image) source) then data image source
          else if decide (pad_mode = "zeros") then lib.zero
               else lib.mean valid.
Proof.
  intros Hpad Hmargin Hwithin.
  destruct (crop_region_of_interest_explicit image bbox margin pad_mode
              Hpad Hmargin Hwithin)
    as (roi_image & valid & Hrun & Hvalid & Hshape & Hdata).
  exists roi_image, valid. split; [exact Hrun|]. split; [exact Hvalid|].
  intros j Hj. rewrite Hdata. clear Hdata Hrun Hvalid. cbv zeta.
  destruct (bbox_within_axes _ _ Hwithin) as [Hlen Hbox].
  unfold ndim. rewrite (box_axes_lower _ _ Hlen), zip_with_fmap_l.
  rewrite Hshape in Hj. apply Forall2_fmap_l in Hj.
  assert (Hsame : length (box_axes (shape image) bbox) = length j)
    by by eapply Forall2_length.
  assert (Hrange : ∀ source,
            in_range (shape image) source
            ↔ in_range ((λ t, t.2.2) <$> box_axes (shape image) bbox) source).
  { intros source. by rewrite <-(box_axes_size _ _ Hlen). }
  set (T := box_axes (shape image) bbox) in *. clearbody T.
  assert (Hbase := Forall_Forall2_l _ _ _ _ Hbox Hj). cbv beta in Hbase.
  assert (Hiff : Forall2
                   (λ t x,
                      (np.slice_bounds (roi_size margin t) (roi_slice margin t)).1
                      ≤ x
                      < (np.slice_bounds (roi_size margin t)
                           (roi_slice margin t)).1
                        + (np.slice_bounds (roi_size margin t)
                             (roi_slice margin t)).2) T j
                 ↔ in_range (shape image)
                     (zip_with (λ t x, t.1 - margin + x) T j)).
  { rewrite Hrange. unfold in_range. rewrite Forall2_fmap_zip_with by done.
    apply (Forall2_iff_pointwise _ _ _ _ _ Hbase).
    intros [lo [hi n]] x [[Hlo Hhi] Hx]. simpl in Hlo, Hhi.
    by destruct (crop_axis_content lo hi n margin x Hmargin Hlo Hhi Hx) as [-> _]. }
  rewrite (decide_ext _ _ _ _ Hiff).
  destruct (decide (in_range _ _)) as [Hin|Hout]; [|done].
  f_equal. apply Hiff in Hin.
  apply (zip_with_ext_Forall2 _ _ _ _ _ (Forall2_conj _ _ _ _ Hbase Hin)).
  intros [lo [hi n]] x [[[Hlo Hhi] Hx] Hw]. simpl in Hlo, Hhi.
  destruct (crop_axis_content lo hi n margin x Hmargin Hlo Hhi Hx) as [_ Heq].
  exact (Heq Hw).
Qed.

End crop_more.

(** ** More on [find_podocytes] *)

Section find_podocytes_more.
Context {A : Type} `{!lib.Library A} `{!lib.Laws A}.

(** [marker_controlled_watershed] returns a label image of the shape of
    the ROI. *)
Lemma marker_controlled_watershed_inr (grayscale_image : ndarray A)
    (marker_coords : list (list Qc)) :
  shape grayscale_image ≠ [] →
  Forall (λ n, 2 ≤ n) (shape grayscale_image) →
  Forall (seed_in_image (shape grayscale_image)) marker_coords →
  ∃ wshed,
    main.marker_controlled_watershed grayscale_image marker_coords = inr wshed
    ∧ shape wshed = shape grayscale_image.
Proof.
  intros Hne Hsh Hseeds.
  destruct (gradient_of_image_shape _ Hne Hsh) as (g & Hg & Hgshape).
  destruct (blob_dog_image_spec _ _ Hsh Hseeds) as (blob_map & Hblob & Hbshape & _).
  assert (Horigin : in_range (shape grayscale_image) (origin (shape grayscale_image)))
    by by apply in_range_positive.
  destruct (np_max_inr blob_map (origin (shape grayscale_image))) as [m Hm];
    [by rewrite Hbshape|].
  assert (Hfirst : in_range (take 1 (shape blob_map)) [0]).
  { rewrite Hbshape. destruct (shape grayscale_image) as [|n0 sh']; [done|].
    apply Forall_cons in Hsh as [Hn0 _]. simpl.
    constructor; [lia|constructor]. }
  destruct (np_max_inr
              (NDArray (shape blob_map)
                 (λ j, if decide (take 1 j = [0])
                       then main.bool_of_int (Z.b2z m + 1) else data blob_map j))
              (origin (shape grayscale_image))) as [m' Hm'];
    [by rewrite Hbshape|].
  destruct (lib.watershed_spec g
              (lib.label
                 (NDArray (shape blob_map)
                    (λ j, if decide (take 1 j = [0])
                          then main.bool_of_int (Z.b2z m + 1)
                          else data blob_map j))))
    as (w & Hw & Hwshape & _).
  { by rewrite lib.label_shape, Hgshape, Hbshape. }
  rewrite lib.label_shape in Hwshape. simpl in Hwshape.
  eexists. split.
  - unfold main.marker_controlled_watershed.
    rewrite Hg, bind_ret, Hblob, bind_ret, Hm, bind_ret.
    rewrite (setitem_in_range blob_map [0]) by done.
    rewrite bind_ret. cbn [length]. rewrite Hw, bind_ret, Hm', bind_ret. done.
  - simpl. by rewrite Hwshape.
Qed.

(** X21. On a podocyte image of three axes, [find_podocytes] returns for a
    glomerulus whose bounding box lies within the image, provided the blobs
    that [blob_dog] reports have their three coordinates within the ROI it is
    given: the offset is the lower corner of the box moved back by the margin
    of 10 voxels, the watershed image has the extent of the box plus 20 voxels
    on every axis, and the regions are those that [regionprops] measures in
    it. *)
Theorem find_podocytes_returns (podocyte_image : ndarray A)
    (glomeruli_region : RegionProperties) :
  ndim podocyte_image = 3%nat →
  bbox_within (shape podocyte_image) (bbox glomeruli_region) →
  (∀ image_roi,
     main.crop_region_of_interest podocyte_image (bbox glomeruli_region) 10 "mean"
     = inr image_roi →
     Forall (seed_in_image (shape image_roi))
       (lib.blob_dog image_roi (Qc_of_Z 1) (Qc_of_Z 4) (Q2Qc (17 # 100)))) →
  ∃ regions centroid_offset wshed image_roi,
    main.find_podocytes podocyte_image glomeruli_region
    = inr (regions, centroid_offset, wshed)
    ∧ main.crop_region_of_interest podocyte_image (bbox glomeruli_region) 10 "mean"
      = inr image_roi
    ∧ centroid_offset
      = (λ b, b - 10) <$> take (ndim podocyte_image) (bbox glomeruli_region)
    ∧ shape wshed
      = zip_with (λ lower upper, upper - lower + 20)
          (take (ndim podocyte_image) (bbox glomeruli_region))
          (drop (ndim podocyte_image) (bbox glomeruli_region))
    ∧ regions = lib.regionprops wshed (Some image_roi).
Proof.
  intros Hrank Hwithin Hblobs.
  assert (Hne : shape podocyte_image ≠ []).
  { intros Hnil. unfold ndim in Hrank. by rewrite Hnil in Hrank. }
  destruct (crop_region_of_interest_explicit podocyte_image
              (bbox glomeruli_region) 10 "mean") as
    (image_roi & valid & Hcrop & _ & Hshape & _); [by right|lia|done|].
  specialize (Hblobs image_roi Hcrop).
  destruct (bbox_within_axes _ _ Hwithin) as [Hlen Hbox].
  assert (Hoffset : main.for_dims (ndim podocyte_image)
                      (λ dim, b ← getitem (bbox glomeruli_region) dim; mret (b - 10))
                    = inr ((λ b, b - 10)
                           <$> take (ndim podocyte_image) (bbox glomeruli_region))).
  { apply for_dims_intro.
    - rewrite length_fmap, length_take. unfold ndim. lia.
    - intros i y Hy. apply list_lookup_fmap_Some in Hy as (b & -> & Hb).
      apply lookup_take_Some in Hb as [Hb _]. by rewrite (getitem_inr _ _ _ Hb). }
  assert (Hsize : shape image_roi
                  = zip_with (λ lower upper, upper - lower + 20)
                      (take (ndim podocyte_image) (bbox glomeruli_region))
                      (drop (ndim podocyte_image) (bbox glomeruli_region))).
  { rewrite Hshape. unfold ndim.
    rewrite (box_axes_lower _ _ Hlen), (box_axes_upper _ _ Hlen).
    rewrite zip_with_fmap_same. apply Forall_fmap_ext_1.
    eapply Forall_impl; [exact Hbox|]. intros [lo [hi n]] [Hlo Hhi].
    unfold roi_size. simpl in *. lia. }
  destruct (marker_controlled_watershed_inr image_roi
              (lib.blob_dog image_roi (Qc_of_Z 1) (Qc_of_Z 4) (Q2Qc (17 # 100))))
    as (wshed & Hwshed & Hwshape); [| |done|].
  { rewrite Hshape. intros Hnil. apply fmap_nil_inv in Hnil.
    apply Hne. by rewrite (box_axes_size _ _ Hlen), Hnil. }
  { rewrite Hshape. apply Forall_fmap.
    eapply Forall_impl; [exact Hbox|]. intros [lo [hi n]] [Hlo Hhi].
    unfold roi_size. simpl in *. lia. }
  eexists _, _, wshed, image_roi. split; [|split; [done|split; [done|split]]].
  - unfold main.find_podocytes. cbv zeta.
    by rewrite Hoffset, bind_ret, Hcrop, bind_ret, Hwshed, bind_ret.
  - by rewrite Hwshape.
  - done.
Qed.

End find_podocytes_more.

(** ** The statements on concrete inputs *)

(** A range the wrong way round, [[2, 1]], on the label image with a region
    of diameter 1 and one of diameter 2. *)
Lemma filter_by_size_inverted_range_witness :
  (2 ≤ ndim toy.two_regions ≤ 3)%nat
  ∧ (Qc_of_Z 1 < Qc_of_Z 2)%Qc
  ∧ main.filter_by_size toy.two_regions (Qc_of_Z 2) (Qc_of_Z 1) = [].
Proof.
  assert (Hrank : (2 ≤ ndim toy.two_regions ≤ 3)%nat) by (unfold ndim; simpl; lia).
  assert (Hlt : (Qc_of_Z 1 < Qc_of_Z 2)%Qc) by reflexivity.
  split; [exact Hrank|]. split; [exact Hlt|].
  exact (filter_by_size_inverted_range toy.two_regions (Qc_of_Z 2) (Qc_of_Z 1)
           Hrank Hlt).
Defined.

Lemma consistent_summary :
  ∃ summary, main.create_summary_stats toy.consistent = inr (Some summary).
Proof.
  eexists. apply create_summary_stats_rows; [done|].
  apply (bool_decide_unpack _). vm_compute. exact I.
Qed.

(** The summary of the rows of the two podocytes of one glomerulus,
    summarised again. *)
Lemma create_summary_stats_idempotent_witness :
  ∃ summary,
    main.create_summary_stats toy.consistent = inr (Some summary)
    ∧ main.create_summary_stats summary = inr (Some summary).
Proof.
  destruct consistent_summary as [summary Hrun].
  exists summary. split; [exact Hrun|].
  exact (create_summary_stats_idempotent toy.consistent summary Hrun).
Defined.

Lemma conflicting_summary :
  ∃ summary, main.create_summary_stats toy.conflicting = inr (Some summary).
Proof.
  eexists. apply create_summary_stats_rows; [done|].
  apply (bool_decide_unpack _). vm_compute. exact I.
Qed.

(** The summary of two rows that differ in a summary column: it has two
    rows, in the order of the detailed rows. *)
Lemma create_summary_stats_layout_witness :
  ∃ summary,
    main.create_summary_stats toy.conflicting = inr (Some summary)
    ∧ pd.columns summary = main.summary_columns
    ∧ pd.rows summary
        `sublist_of` (pd.project main.summary_columns <$> pd.rows toy.conflicting)
    ∧ Forall (λ r, ∀ column, is_Some (r !! column) → column ∈ main.summary_columns)
        (pd.rows summary)
    ∧ ∀ (i j : nat) r1 r2,
        (i < j)%nat →
        pd.rows summary !! i = Some r1 → pd.rows summary !! j = Some r2 →
        appears_before
          (pd.project main.summary_columns <$> pd.rows toy.conflicting) r1 r2.
Proof.
  destruct conflicting_summary as [summary Hrun].
  exists summary. split; [exact Hrun|].
  exact (create_summary_stats_layout toy.conflicting summary Hrun).
Defined.

Lemma podocyte_measurable : Forall (measurable [-10; -10; -10]) [toy.podocyte].
Proof. constructor; [|constructor]. unfold measurable. simpl. lia. Qed.

(** The table of the podocyte of the bright voxel. *)
Lemma podocyte_statistics_table_witness :
  Forall (measurable [-10; -10; -10]) [toy.podocyte]
  ∧ [toy.podocyte] ≠ []
  ∧ ∃ df,
      main.podocyte_statistics [toy.podocyte] [-10; -10; -10] (Qc_of_Z 2)
      = inr (Some df)
      ∧ pd.columns df = podocyte_columns
      ∧ pd.len df = 1%nat.
Proof.
  assert (Hne : [toy.podocyte] ≠ []) by discriminate.
  split; [exact podocyte_measurable|]. split; [exact Hne|].
  destruct (podocyte_statistics_table [toy.podocyte] [-10; -10; -10] (Qc_of_Z 2)
              podocyte_measurable Hne) as (df & Hrun & Hcols & Hlen & _).
  exists df. split; [exact Hrun|]. split; [exact Hcols|exact Hlen].
Defined.

(** The averages over the one podocyte of the bright voxel. *)
Lemma podocyte_avg_statistics_means_witness :
  main.podocyte_statistics [toy.podocyte] [-10; -10; -10] (Qc_of_Z 2)
  = inr (Some toy.podocyte_table)
  ∧ ∃ df',
      main.podocyte_avg_statistics toy.podocyte_table = inr df'
      ∧ pd.len df' = 1%nat
      ∧ Forall (λ row,
           row !! "avg_podocyte_voxel_number"
           = Some (VNum (average [Qc_of_Z 1]))
           ∧ row !! "avg_podocyte_volume"
             = Some (VNum (average [(Qc_of_Z 1 * Qc_of_Z 2)%Qc]))
           ∧ row !! "avg_podocyte_equiv_diam_pixels"
             = Some (VNum (average [Qc_of_Z 1])))
          (pd.rows df').
Proof.
  split; [exact podocyte_table_inr|].
  destruct (podocyte_avg_statistics_means [toy.podocyte] [-10; -10; -10]
              (Qc_of_Z 2) toy.podocyte_table podocyte_table_inr)
    as (df' & Hrun & Hlen & Hrows & _).
  exists df'. split; [exact Hrun|]. split; [exact Hlen|exact Hrows].
Defined.

(** The cells of the glomerulus that fills the volume, on the table of its
    podocyte. *)
Lemma glom_statistics_cells_witness :
  (3 ≤ length (centroid toy.glom))%nat
  ∧ ∃ df',
      main.glom_statistics toy.podocyte_table toy.glom 0 (Qc_of_Z 2) = inr df'
      ∧ pd.len df' = pd.len toy.podocyte_table.
Proof.
  assert (H3 : (3 ≤ length (centroid toy.glom))%nat) by (simpl; lia).
  split; [exact H3|].
  destruct (glom_statistics_cells toy.podocyte_table toy.glom 0 (Qc_of_Z 2) H3)
    as (df' & Hrun & Hlen & _).
  exists df'. split; [exact Hrun|exact Hlen].
Defined.

(** The first series of [scans/more/b.lif] on the table of one row that
    the series of [scans/a.lif] leaves: the row is restamped, and the block of
    the glomerulus of the series follows. *)
Lemma main_series_numbers_glomeruli_witness :
  ∃ detailed_stats written detailed_stats' written',
    main.main_series 0 1 (Qc_of_Z 1) (Qc_of_Z 300) "scans/a.lif" (pd.empty, None)
      {| ImageID := "Image:0"; ImageName := "kidney A"; frame := toy.volume 0 5 |}
    = inr (detailed_stats, written)
    ∧ main.main_series 0 1 (Qc_of_Z 1) (Qc_of_Z 300) "scans/more/b.lif"
        (detailed_stats, written)
        {| ImageID := "Image:0"; ImageName := "kidney B";
           frame := toy.volume 1 7 |}
      = inr (detailed_stats', written')
    ∧ ∃ glomeruli_view glomeruli_labels earlier blocks,
        pims.channel (toy.volume 1 7) 0 = inr glomeruli_view
        ∧ main.preprocess_glomeruli glomeruli_view = inr glomeruli_labels
        ∧ pd.rows detailed_stats' = earlier ++ concat blocks
        ∧ Forall2 (restamped "scans/more/b.lif"
                     {| ImageID := "Image:0"; ImageName := "kidney B";
                        frame := toy.volume 1 7 |})
            (pd.rows detailed_stats) earlier
        ∧ Forall2 (glomerulus_rows 1 "scans/more/b.lif"
                     {| ImageID := "Image:0"; ImageName := "kidney B";
                        frame := toy.volume 1 7 |})
            (main.filter_by_size glomeruli_labels (Qc_of_Z 1) (Qc_of_Z 300))
            blocks
        ∧ ∀ (k : nat) block, blocks !! k = Some block →
            Forall (λ r,
               r !! "glomeruli_index"
               = Some (VInt (Z.of_nat (nonempty_blocks (take k blocks))))) block.
Proof.
  destruct (run_inr
              (main.main_series 0 1 (Qc_of_Z 1) (Qc_of_Z 300) "scans/a.lif"
                 (pd.empty, None)
                 {| ImageID := "Image:0"; ImageName := "kidney A";
                    frame := toy.volume 0 5 |})
              (λ _, True)) as ([detailed_stats written] & Hfirst & _).
  { vm_compute. reflexivity. }
  destruct (run_inr
              (st ← main.main_series 0 1 (Qc_of_Z 1) (Qc_of_Z 300)
                      "scans/a.lif" (pd.empty, None)
                      {| ImageID := "Image:0"; ImageName := "kidney A";
                         frame := toy.volume 0 5 |};
               main.main_series 0 1 (Qc_of_Z 1) (Qc_of_Z 300) "scans/more/b.lif"
                 st
                 {| ImageID := "Image:0"; ImageName := "kidney B";
                    frame := toy.volume 1 7 |})
              (λ _, True)) as ([detailed_stats' written'] & Hsecond & _).
  { vm_compute. reflexivity. }
  rewrite Hfirst in Hsecond. change (inr ?x ≫= ?f) with (f x) in Hsecond.
  exists detailed_stats, written, detailed_stats', written'.
  split; [exact Hfirst|]. split; [exact Hsecond|].
  exact (main_series_numbers_glomeruli 0 1 (Qc_of_Z 1) (Qc_of_Z 300)
           "scans/more/b.lif"
           {| ImageID := "Image:0"; ImageName := "kidney B";
              frame := toy.volume 1 7 |}
           detailed_stats written detailed_stats' written' Hsecond).
Defined.

(** The batch of [scans/a.lif] and [scans/more/b.lif]. *)
Lemma main_rows_carry_last_series_witness :
  ∃ out,
    main.main toy.scans (toy.args "scans" ".lif") = inr out
    ∧ ∃ ext detailed_stats earlier filename later images series,
        main.file_extension (toy.args "scans" ".lif") !! 0%nat = Some ext
        ∧ main.detailed_stats_csv out = Some detailed_stats
        ∧ pd.rows detailed_stats ≠ []
        ∧ main.create_summary_stats detailed_stats
          = inr (Some (main.summary_stats_csv out))
        ∧ main.find_files toy.scans
            (String.concat " " (main.input_directory (toy.args "scans" ".lif"))) ext
          = earlier ++ filename :: later
        ∧ Forall (λ f, lib.open f = inr []) later
        ∧ lib.open filename = inr images
        ∧ last images = Some series
        ∧ Forall (stamped filename series) (pd.rows detailed_stats).
Proof.
  destruct (run_inr (main.main toy.scans (toy.args "scans" ".lif")) (λ _, True))
    as (out & Hrun & _).
  { vm_compute. reflexivity. }
  exists out. split; [exact Hrun|].
  exact (main_rows_carry_last_series toy.scans (toy.args "scans" ".lif") out Hrun).
Defined.


Lemma block_seeds_in_image :
  Forall (seed_in_image (shape toy.block)) toy.block_seeds.
Proof.
  constructor; [|constructor].
  exists (Qc_of_Z 2), (Qc_of_Z 1), (Qc_of_Z 1), [Qc_of_Z 1].
  split; [reflexivity|]. rewrite !py_int_of_Z. simpl.
  repeat constructor; lia.
Qed.

(** The seed image of a [3 x 2 x 2] ROI with one seed. *)
Lemma blob_dog_image_marks_witness :
  Forall (λ n, 0 ≤ n) (shape toy.block)
  ∧ Forall (seed_in_image (shape toy.block)) toy.block_seeds
  ∧ ∃ blob_map,
      main.blob_dog_image toy.block_seeds (shape toy.block) = inr blob_map
      ∧ shape blob_map = shape toy.block
      ∧ ∀ j, in_range (shape toy.block) j →
          data blob_map j = true ↔ seed_voxel toy.block_seeds j.
Proof.
  assert (Hsh : Forall (λ n, 0 ≤ n) (shape toy.block)).
  { simpl. repeat constructor; lia. }
  split; [exact Hsh|]. split; [exact block_seeds_in_image|].
  exact (blob_dog_image_marks toy.block_seeds (shape toy.block) Hsh
           block_seeds_in_image).
Defined.

(** The same seed on the shape of a [3 x 4] image. *)
Lemma blob_dog_image_needs_three_axes_witness :
  Forall (λ n, 0 ≤ n) (shape toy.plate)
  ∧ (length (shape toy.plate) < 3)%nat
  ∧ toy.block_seeds ≠ []
  ∧ main.blob_dog_image toy.block_seeds (shape toy.plate) = inl IndexError.
Proof.
  assert (Hsh : Forall (λ n, 0 ≤ n) (shape toy.plate)).
  { simpl. repeat constructor; lia. }
  assert (Hrank : (length (shape toy.plate) < 3)%nat) by (simpl; lia).
  assert (Hne : toy.block_seeds ≠ []) by discriminate.
  split; [exact Hsh|]. split; [exact Hrank|]. split; [exact Hne|].
  exact (blob_dog_image_needs_three_axes toy.block_seeds (shape toy.plate)
           Hsh Hrank Hne).
Defined.

(** The [3 x 2 x 2] ROI without a seed. *)
Lemma marker_controlled_watershed_without_seeds_witness :
  lib.Laws Z
  ∧ shape toy.block ≠ []
  ∧ Forall (λ n, 2 ≤ n) (shape toy.block)
  ∧ ∃ wshed,
      main.marker_controlled_watershed toy.block [] = inr wshed
      ∧ shape wshed = shape toy.block
      ∧ ∀ i, in_range (shape toy.block) i → data wshed i = 0.
Proof.
  assert (Hne : shape toy.block ≠ []) by discriminate.
  assert (Hsh : Forall (λ n, 2 ≤ n) (shape toy.block)).
  { simpl. repeat constructor; lia. }
  split; [exact toy_laws|]. split; [exact Hne|]. split; [exact Hsh|].
  exact (marker_controlled_watershed_without_seeds toy.block Hne Hsh).
Defined.

(** The glomeruli channel of the volume of [scans/a.lif]. *)
Lemma preprocess_glomeruli_background_witness :
  lib.Laws Z
  ∧ ∃ view denoised label_image,
      pims.channel (toy.volume 0 5) 0 = inr view
      ∧ main.denoise_image view = inr denoised
      ∧ main.preprocess_glomeruli view = inr label_image
      ∧ shape label_image = shape denoised
      ∧ ∀ i, in_range (shape denoised) i →
          data label_image i = 0
          ↔ lib.gt (data denoised i) (lib.threshold_yen denoised) = false.
Proof.
  split; [exact toy_laws|].
  eexists _, _. 
  destruct (preprocess_glomeruli_background
              {| pixels := NDArray [1; 1; 2]
                             (λ j, data (pixels (toy.volume 0 5)) (j ++ [0]));
                 mpp := Qc_of_Z 1; mppZ := Qc_of_Z 2;
                 axes := ["z"; "y"; "x"; "c"]%char |}) as [_ Hok].
  destruct (Hok _ eq_refl) as (label_image & Hrun & Hshape & Hdata).
  exists label_image. split; [reflexivity|]. split; [reflexivity|].
  split; [exact Hrun|]. split; [exact Hshape|exact Hdata].
Defined.

Lemma plate_bbox_within : bbox_within (shape toy.plate) toy.plate_bbox.
Proof. split; [reflexivity|]. simpl. repeat constructor; simpl; lia. Qed.

(** A pad mode that is not known, on the [3 x 4] image. *)
Lemma crop_region_of_interest_pad_mode_witness :
  "median" ≠ "zeros"
  ∧ "median" ≠ "mean"
  ∧ length toy.plate_bbox = (2 * ndim toy.plate)%nat
  ∧ main.crop_region_of_interest toy.plate toy.plate_bbox 2 "median"
    = inl ValueError.
Proof.
  assert (Hzeros : "median" ≠ "zeros") by discriminate.
  assert (Hmean : "median" ≠ "mean") by discriminate.
  assert (Hlen : length toy.plate_bbox = (2 * ndim toy.plate)%nat) by reflexivity.
  split; [exact Hzeros|]. split; [exact Hmean|]. split; [exact Hlen|].
  exact (crop_region_of_interest_pad_mode toy.plate toy.plate_bbox 2 "median"
           Hzeros Hmean Hlen).
Defined.

(** The content of the ROI of the box at the border of the [3 x 4] image. *)
Lemma crop_region_of_interest_content_witness :
  ("zeros" = "zeros" ∨ "zeros" = "mean")
  ∧ 0 ≤ 2
  ∧ bbox_within (shape toy.plate) toy.plate_bbox
  ∧ ∃ roi_image valid,
      main.crop_region_of_interest toy.plate toy.plate_bbox 2 "zeros"
      = inr roi_image
      ∧ np.getitem_slices toy.plate
          (image_slice 2 <$> box_axes (shape toy.plate) toy.plate_bbox)
        = inr valid
      ∧ ∀ j, in_range (shape roi_image) j →
          data roi_image j
          = let source :=
              zip_with (λ lower x, lower - 2 + x)
                (take (ndim toy.plate) toy.plate_bbox) j in
            if decide (in_range (shape toy.plate) source)
            then data toy.plate source
            else if decide ("zeros" = "zeros") then lib.zero else lib.mean valid.
Proof.
  assert (Hpad : "zeros" = "zeros" ∨ "zeros" = "mean") by (left; reflexivity).
  assert (Hmargin : 0 ≤ 2) by lia.
  split; [exact Hpad|]. split; [exact Hmargin|]. split; [exact plate_bbox_within|].
  exact (crop_region_of_interest_content toy.plate toy.plate_bbox 2 "zeros"
           Hpad Hmargin plate_bbox_within).
Defined.

(** The blobs of the small instance lie within a 3-D image. *)
Lemma toy_blob_dog_in_image (a : ndarray Z) (min_sigma max_sigma threshold : Qc) :
  length (shape a) = 3%nat →
  Forall (seed_in_image (shape a)) (toy.blob_dog a min_sigma max_sigma threshold).
Proof.
  intros Hrank. unfold toy.blob_dog. apply Forall_fmap, Forall_forall.
  intros i Hi. apply list_elem_of_filter in Hi as [_ Hi].
  apply elem_of_indices in Hi.
  destruct (shape a) as [|n0 [|n1 [|n2 [|]]]]; try discriminate.
  apply Forall2_cons_inv_l in Hi as (i0 & ia & H0 & Hi & ->).
  apply Forall2_cons_inv_l in Hi as (i1 & ib & H1 & Hi & ->).
  apply Forall2_cons_inv_l in Hi as (i2 & ic & H2 & Hi & ->).
  apply Forall2_nil_inv_l in Hi as ->.
  exists (Qc_of_Z i0), (Qc_of_Z i1), (Qc_of_Z i2), [min_sigma].
  split; [done|]. rewrite !py_int_of_Z. simpl. repeat constructor; lia.
Qed.

Lemma glom_bbox_within : bbox_within (shape toy.bright_view) (bbox toy.glom).
Proof. split; [reflexivity|]. simpl. repeat constructor; simpl; lia. Qed.

Lemma bright_roi_blobs (image_roi : ndarray Z) :
  main.crop_region_of_interest toy.bright_view (bbox toy.glom) 10 "mean"
  = inr image_roi →
  Forall (seed_in_image (shape image_roi))
    (lib.blob_dog image_roi (Qc_of_Z 1) (Qc_of_Z 4) (Q2Qc (17 # 100))).
Proof.
  intros Hroi. apply toy_blob_dog_in_image.
  destruct (crop_region_of_interest_explicit toy.bright_view (bbox toy.glom) 10
              "mean") as (roi & valid & Hrun & _ & Hshape & _);
    [by right|lia|exact glom_bbox_within|].
  rewrite Hrun in Hroi. injection Hroi as <-. by rewrite Hshape.
Qed.

(** The glomerulus that fills the [1 x 1 x 2] volume with a bright voxel. *)
Lemma find_podocytes_returns_witness :
  lib.Laws Z
  ∧ ndim toy.bright_view = 3%nat
  ∧ bbox_within (shape toy.bright_view) (bbox toy.glom)
  ∧ (∀ image_roi,
       main.crop_region_of_interest toy.bright_view (bbox toy.glom) 10 "mean"
       = inr image_roi →
       Forall (seed_in_image (shape image_roi))
         (lib.blob_dog image_roi (Qc_of_Z 1) (Qc_of_Z 4) (Q2Qc (17 # 100))))
  ∧ ∃ regions centroid_offset wshed,
      main.find_podocytes toy.bright_view toy.glom
      = inr (regions, centroid_offset, wshed)
      ∧ centroid_offset = [-10; -10; -10]
      ∧ shape wshed = [21; 21; 22].
Proof.
  assert (Hne : ndim toy.bright_view = 3%nat) by reflexivity.
  split; [exact toy_laws|]. split; [exact Hne|]. split; [exact glom_bbox_within|].
  split; [exact bright_roi_blobs|].
  destruct (find_podocytes_returns toy.bright_view toy.glom Hne glom_bbox_within
              bright_roi_blobs)
    as (regions & centroid_offset & wshed & image_roi & Hrun & _ & Hoffset
        & Hshape & _).
  exists regions, centroid_offset, wshed.
  split; [exact Hrun|]. split; [exact Hoffset|exact Hshape].
Defined.

(** ** [marker_coords] *)

Lemma outcome_bind_inr {X Y} (m : util.outcome X) (f : X → util.outcome Y) y :
  m ≫= f = inr y ↔ ∃ x, m = inr x ∧ f x = inr y.
Proof.
  destruct m as [e|x]; simpl; split.
  - discriminate.
  - by intros (x & ? & _).
  - eauto.
  - by intros (x' & [= <-] & ?).
Qed.

Lemma outcome_bind_ret {X Y} (x : X) (f : X → util.outcome Y) : inr x ≫= f = f x.
Proof. done. Qed.

(** A loop whose rounds each add one row to the table, or fail. *)
Lemma loop_inr {S X R} (body : S → X → util.outcome S) (rel : X → R → Prop)
    (add : S → R → S) (xs : list X) (s s' : S) :
  (∀ s x s', body s x = inr s' ↔ ∃ r, rel x r ∧ s' = add s r) →
  util.loop body s xs = inr s'
  ↔ ∃ rs, Forall2 rel xs rs ∧ s' = foldl add s rs.
Proof.
  intros Hbody. revert s. induction xs as [|x xs IH]; intros s; simpl.
  - split.
    + intros [= <-]. exists []. by split; [constructor|].
    + intros (rs & Hrs & ->). by apply Forall2_nil_inv_l in Hrs as ->.
  - rewrite outcome_bind_inr. split.
    + intros (s1 & Hstep & Hrest). apply Hbody in Hstep as (r & Hr & ->).
      apply IH in Hrest as (rs & Hrs & ->). exists (r :: rs).
      by split; [constructor|].
    + intros (rs & Hrs & ->).
      apply Forall2_cons_inv_l in Hrs as (r & rs' & Hr & Hrs & ->).
      exists (add s r). split; [apply Hbody; eauto|]. apply IH. eauto.
Qed.

Lemma outcome_bind_inl {X Y} (m : util.outcome X) (f : X → util.outcome Y) e :
  m ≫= f = inl e ↔ m = inl e ∨ ∃ x, m = inr x ∧ f x = inl e.
Proof.
  destruct m as [e'|x]; simpl; split.
  - intros [= <-]. by left.
  - intros [[= <-]|(x & ? & _)]; done.
  - right. eauto.
  - intros [?|(x' & [= <-] & ?)]; done.
Qed.

(** Such a loop fails at the first round that fails, with its exception. *)
Lemma loop_inl {S X R} (body : S → X → util.outcome S) (rel : X → R → Prop)
    (add : S → R → S) (err : X → util.raised → Prop) (xs : list X) (s : S)
    (e : util.raised) :
  (∀ s x s', body s x = inr s' ↔ ∃ r, rel x r ∧ s' = add s r) →
  (∀ s x e, body s x = inl e ↔ err x e) →
  util.loop body s xs = inl e
  ↔ ∃ done x todo, xs = done ++ x :: todo
                   ∧ Forall (λ x, ∃ r, rel x r) done ∧ err x e.
Proof.
  intros Hbody Herr. revert s. induction xs as [|x xs IH]; intros s; simpl.
  - split; [discriminate|]. intros (done & y & todo & Hxs & _).
    by destruct done.
  - rewrite outcome_bind_inl. split.
    + intros [Hstep|(s1 & Hstep & Hrest)].
      * exists [], x, xs. split; [done|]. split; [constructor|]. by apply Herr in Hstep.
      * apply Hbody in Hstep as (r & Hr & ->).
        apply IH in Hrest as (done & y & todo & -> & Hdone & Hy).
        exists (x :: done), y, todo. split; [done|]. split; [|done].
        constructor; eauto.
    + intros (done & y & todo & Hxs & Hdone & Hy).
      destruct done as [|x' done]; simpl in Hxs; injection Hxs as <- ->.
      * left. by apply Herr.
      * apply Forall_cons in Hdone as [(r & Hr) Hdone].
        right. exists (add s r). split; [apply Hbody; eauto|].
        apply IH. by exists done, y, todo.
Qed.

Lemma floor_div (z n : Z) :
  n ≠ 0 → np.floor (Qc_of_Z z / Qc_of_Z n)%Qc = Qc_of_Z (z `div` n).
Proof.
  intros Hn. unfold np.floor. f_equal.
  assert (Hq : (this (Qc_of_Z z / Qc_of_Z n)%Qc == inject_Z z / inject_Z n)%Q).
  { change (this (Qc_of_Z z / Qc_of_Z n)%Qc)
      with (Qred (inject_Z z * Qred (/ inject_Z n))).
    rewrite !Qred_correct. reflexivity. }
  set (q := this (Qc_of_Z z / Qc_of_Z n)%Qc) in *. clearbody q.
  destruct q as [a b]. simpl.
  assert (Hab : a * n = z * Z.pos b).
  { unfold Qeq, Qdiv, Qmult, Qinv, inject_Z in Hq. simpl in Hq.
    destruct n as [|p|p]; [done|simpl in Hq; lia..]. }
  rewrite <-(Z.div_mul_cancel_r a (Z.pos b) n) by lia.
  rewrite Hab, (Z.mul_comm (Z.pos b) n).
  by rewrite Z.div_mul_cancel_r by lia.
Qed.

Section marker_coords.
Variable int : string → result Z.

Lemma lift_child_int (e : xml.Element) (t : string) (n : Z) :
  util.lift (s ← util.text (xml.find e t); util.int_text int s) = inr n
  ↔ child_int int e t n.
Proof.
  unfold child_int. destruct (xml.find e t) as [child|] eqn:Hfind; simpl.
  - destruct (xml.text child) as [s|] eqn:Htext; simpl.
    + destruct (int s) as [err|m] eqn:Hs; simpl.
      * split; [discriminate|]. intros (c & s' & Hc & Hs' & Hint). simplify_eq; congruence.
      * split.
        -- intros [= <-]. by exists child, s.
        -- intros (c & s' & Hc & Hs' & Hint). simplify_eq; congruence.
    + split; [discriminate|]. intros (c & s' & Hc & Hs' & _). simplify_eq; congruence.
  - split; [discriminate|]. by intros (c & s' & Hc & _).
Qed.

(** One round of the loop of [marker_coords]. *)
Lemma marker_coords_round (image_name : option string) (n_channels : Z)
    (df : pd.DataFrame) (marker : xml.Element) (df' : pd.DataFrame) :
  (x_coord ← util.lift (t ← util.text (xml.find marker "MarkerX");
                        util.int_text int t);
   y_coord ← util.lift (t ← util.text (xml.find marker "MarkerY");
                        util.int_text int t);
   z ← util.lift (t ← util.text (xml.find marker "MarkerZ");
                  util.int_text int t);
   quotient ← util.truediv z n_channels;
   let z_coord := np.floor quotient in
   let contents :=
     [("Image_Filename", VStr <$> image_name);
      ("MarkerX", Some (VInt x_coord));
      ("MarkerY", Some (VInt y_coord));
      ("MarkerZ", Some (VNum z_coord))] in
   mret (pd.append_dict_missing df contents)) = inr df'
  ↔ ∃ row,
      (∃ x y z,
         marker_at int marker x y z
         ∧ n_channels ≠ 0
         ∧ ¬ util.too_large_for_float z n_channels
         ∧ row = [("Image_Filename", VStr <$> image_name);
                  ("MarkerX", Some (VInt x));
                  ("MarkerY", Some (VInt y));
                  ("MarkerZ", Some (VInt (z `div` n_channels)))])
      ∧ df' = pd.append_dict_missing df row.
Proof.
  split.
  - intros Hrun.
    apply outcome_bind_inr in Hrun as (x & Hx & Hrun).
    apply outcome_bind_inr in Hrun as (y & Hy & Hrun).
    apply outcome_bind_inr in Hrun as (z & Hz & Hrun).
    apply outcome_bind_inr in Hrun as (quotient & Hdiv & [= <-]).
    apply lift_child_int in Hx, Hy, Hz.
    unfold util.truediv in Hdiv.
    destruct (decide (n_channels = 0)); [discriminate|].
    destruct (decide (util.too_large_for_float z n_channels)); [discriminate|].
    injection Hdiv as <-. rewrite floor_div by done.
    eexists. split; [|done]. by exists x, y, z.
  - intros (row & (x & y & z & (Hx & Hy & Hz) & Hn & Hfloat & ->) & ->).
    apply lift_child_int in Hx, Hy, Hz.
    rewrite Hx, outcome_bind_ret, Hy, outcome_bind_ret, Hz, outcome_bind_ret.
    unfold util.truediv. rewrite !decide_False by done.
    change (mret ?q ≫= ?f) with (f q). cbv beta zeta. by rewrite floor_div.
Qed.

(** The rows of the table, one per marker. *)
Lemma marker_coords_inr (tree : xml.Element) (n_channels : Z) (df : pd.DataFrame) :
  util.marker_coords int tree n_channels = inr df
  ↔ ∃ image rows,
      xml.find_below tree "Image_Filename" = Some image
      ∧ Forall2 (λ marker row, ∃ x y z,
           marker_at int marker x y z
           ∧ n_channels ≠ 0
           ∧ ¬ util.too_large_for_float z n_channels
           ∧ row = [("Image_Filename", VStr <$> xml.text image);
                    ("MarkerX", Some (VInt x));
                    ("MarkerY", Some (VInt y));
                    ("MarkerZ", Some (VInt (z `div` n_channels)))])
          (xml.findall_below tree "Marker") rows
      ∧ df = foldl pd.append_dict_missing pd.empty rows.
Proof.
  unfold util.marker_coords. cbv zeta. rewrite outcome_bind_inr.
  split.
  - intros (image_name & Himage & Hloop).
    destruct (xml.find_below tree "Image_Filename") as [image|]; [|discriminate].
    injection Himage as <-.
    eapply loop_inr in Hloop as (rows & Hrows & ->).
    { exists image, rows. split; [done|]. split; [exact Hrows|done]. }
    intros s marker s'. apply marker_coords_round.
  - intros (image & rows & Himage & Hrows & ->). rewrite Himage. simpl.
    eexists. split; [done|].
    eapply loop_inr; [|exists rows; split; [exact Hrows|done]].
    intros s marker s'. apply marker_coords_round.
Qed.

Lemma rows_append_dict_missing (df : pd.DataFrame)
    (rows : list (list (string * option value))) :
  pd.rows (foldl pd.append_dict_missing df rows)
  = pd.rows df
    ++ ((λ contents, list_to_map (omap (λ kv, pair kv.1 <$> kv.2) contents))
        <$> rows).
Proof.
  revert df. induction rows as [|row rows IH]; intros df; simpl.
  - by rewrite app_nil_r.
  - rewrite IH. simpl. by rewrite <-app_assoc.
Qed.

Lemma Forall_exists_Forall2 {X Y} (R : X → Y → Prop) (l : list X) :
  Forall (λ x, ∃ y, R x y) l → ∃ k, Forall2 R l k.
Proof.
  induction 1 as [|x l [y Hy] _ [k Hk]].
  - exists []. constructor.
  - exists (y :: k). by constructor.
Qed.

(** X22. The table of [marker_coords]: one row per [Marker] element below the
    root, in document order. The row of a marker holds the text of the first
    [Image_Filename] element of the file, the integers read from the children
    [MarkerX] and [MarkerY] of the marker, and as [MarkerZ] the integer read
    from its child [MarkerZ] divided by the number of channels and rounded
    down (the plane of the marker in one channel of an interleaved stack). *)
Theorem marker_coords_rows (tree : xml.Element) (n_channels : Z)
    (df : pd.DataFrame) :
  util.marker_coords int tree n_channels = inr df →
  ∃ image,
    xml.find_below tree "Image_Filename" = Some image
    ∧ Forall2 (λ marker row, ∃ x y z,
         marker_at int marker x y z
         ∧ row !! "Image_Filename" = VStr <$> xml.text image
         ∧ row !! "MarkerX" = Some (VInt x)
         ∧ row !! "MarkerY" = Some (VInt y)
         ∧ row !! "MarkerZ" = Some (VInt (z `div` n_channels)))
        (xml.findall_below tree "Marker") (pd.rows df).
Proof.
  intros Hrun. apply marker_coords_inr in Hrun as (image & rows & Himage & Hrows & ->).
  exists image. split; [exact Himage|].
  rewrite rows_append_dict_missing. simpl. apply Forall2_fmap_r.
  eapply Forall2_impl; [exact Hrows|].
  intros marker row (x & y & z & Hat & _ & _ & ->). exists x, y, z.
  split; [exact Hat|]. destruct (xml.text image) as [name|]; simpl.
  - rewrite ?list_to_map_cons. split; [by rewrite lookup_insert_eq|].
    split; [|split].
    + rewrite lookup_insert_ne by done. by rewrite lookup_insert_eq.
    + rewrite !lookup_insert_ne by done. by rewrite lookup_insert_eq.
    + rewrite !lookup_insert_ne by done. by rewrite lookup_insert_eq.
  - rewrite ?list_to_map_cons, ?list_to_map_nil. split.
    { rewrite !lookup_insert_ne by done. apply lookup_empty. }
    split; [|split].
    + by rewrite lookup_insert_eq.
    + rewrite lookup_insert_ne by done. by rewrite lookup_insert_eq.
    + rewrite !lookup_insert_ne by done. by rewrite lookup_insert_eq.
Qed.

(** X23. [marker_coords] returns a table exactly when the file has an
    [Image_Filename] element and every [Marker] element has children
    [MarkerX], [MarkerY] and [MarkerZ] whose texts [int] accepts, the number
    of channels being other than zero and the quotient of [MarkerZ] by it
    within the range of the floats when there is a marker. *)
Theorem marker_coords_returns (tree : xml.Element) (n_channels : Z) :
  (∃ df, util.marker_coords int tree n_channels = inr df)
  ↔ is_Some (xml.find_below tree "Image_Filename")
    ∧ Forall (λ marker,
         n_channels ≠ 0
         ∧ ∃ x y z, marker_at int marker x y z
                    ∧ ¬ util.too_large_for_float z n_channels)
        (xml.findall_below tree "Marker").
Proof.
  split.
  - intros (df & Hrun).
    apply marker_coords_inr in Hrun as (image & rows & Himage & Hrows & _).
    split; [by rewrite Himage|].
    apply (Forall2_Forall_l _ _ _ _ Hrows). apply Forall_true.
    intros row marker (x & y & z & Hat & Hn & Hfloat & _). eauto 10.
  - intros [[image Himage] Hmarkers].
    destruct (Forall_exists_Forall2
                (λ marker row, ∃ x y z,
                   marker_at int marker x y z
                   ∧ n_channels ≠ 0
                   ∧ ¬ util.too_large_for_float z n_channels
                   ∧ row = [("Image_Filename", VStr <$> xml.text image);
                            ("MarkerX", Some (VInt x));
                            ("MarkerY", Some (VInt y));
                            ("MarkerZ", Some (VInt (z `div` n_channels)))])
                (xml.findall_below tree "Marker")) as [rows Hrows].
    { eapply Forall_impl; [exact Hmarkers|].
      intros marker (Hn & x & y & z & Hat & Hfloat). eexists. by exists x, y, z. }
    eexists. apply marker_coords_inr. by exists image, rows.
Qed.

Lemma lift_child_error (e : xml.Element) (t : string) (err : util.raised) :
  util.lift (s ← util.text (xml.find e t); util.int_text int s) = inl err
  ↔ ∃ e', child_error int e t e' ∧ err = util.Raised e'.
Proof.
  unfold child_error. destruct (xml.find e t) as [child|]; simpl.
  - destruct (xml.text child) as [s|]; simpl.
    + destruct (int s) as [e'|m]; simpl.
      * split; [intros [= <-]; eauto|]. by intros (e'' & [= <-] & ->).
      * split; [discriminate|]. by intros (e'' & ? & _).
    + split; [intros [= <-]; eauto|]. by intros (e'' & -> & ->).
  - split; [intros [= <-]; eauto|]. by intros (e'' & -> & ->).
Qed.

(** One round of the loop of [marker_coords] that fails. *)
Lemma marker_coords_round_error (image_name : option string) (n_channels : Z)
    (df : pd.DataFrame) (marker : xml.Element) (err : util.raised) :
  (x_coord ← util.lift (t ← util.text (xml.find marker "MarkerX");
                        util.int_text int t);
   y_coord ← util.lift (t ← util.text (xml.find marker "MarkerY");
                        util.int_text int t);
   z ← util.lift (t ← util.text (xml.find marker "MarkerZ");
                  util.int_text int t);
   quotient ← util.truediv z n_channels;
   let z_coord := np.floor quotient in
   let contents :=
     [("Image_Filename", VStr <$> image_name);
      ("MarkerX", Some (VInt x_coord));
      ("MarkerY", Some (VInt y_coord));
      ("MarkerZ", Some (VNum z_coord))] in
   mret (pd.append_dict_missing df contents)) = inl err
  ↔ marker_error int n_channels marker err.
Proof.
  unfold marker_error, marker_at. split.
  - intros Hrun.
    apply outcome_bind_inl in Hrun as [Hx|(x & Hx & Hrun)];
      [left; by apply lift_child_error|].
    apply lift_child_int in Hx. right.
    apply outcome_bind_inl in Hrun as [Hy|(y & Hy & Hrun)].
    { left. apply lift_child_error in Hy as (e & He & ->). by exists x, e. }
    apply lift_child_int in Hy. right.
    apply outcome_bind_inl in Hrun as [Hz|(z & Hz & Hrun)].
    { left. apply lift_child_error in Hz as (e & He & ->). by exists x, y, e. }
    apply lift_child_int in Hz. right.
    apply outcome_bind_inl in Hrun as [Hdiv|(quotient & _ & Hrun)]; [|discriminate].
    unfold util.truediv in Hdiv.
    destruct (decide (n_channels = 0)) as [Hn|Hn].
    { injection Hdiv as <-. left. by exists x, y, z. }
    destruct (decide (util.too_large_for_float z n_channels)); [|discriminate].
    injection Hdiv as <-. right. by exists x, y, z.
  - intros [(e & He & ->)
           |[(x & e & Hx & He & ->)
            |[(x & y & e & Hx & Hy & He & ->)
             |[(x & y & z & (Hx & Hy & Hz) & -> & ->)
              |(x & y & z & (Hx & Hy & Hz) & Hn & Hfloat & ->)]]]].
    + assert (Herr : ∃ e', child_error int marker "MarkerX" e'
                           ∧ util.Raised e = util.Raised e') by eauto.
      apply lift_child_error in Herr. by rewrite Herr.
    + assert (Herr : ∃ e', child_error int marker "MarkerY" e'
                           ∧ util.Raised e = util.Raised e') by eauto.
      apply lift_child_error in Herr. apply lift_child_int in Hx.
      by rewrite Hx, outcome_bind_ret, Herr.
    + assert (Herr : ∃ e', child_error int marker "MarkerZ" e'
                           ∧ util.Raised e = util.Raised e') by eauto.
      apply lift_child_error in Herr. apply lift_child_int in Hx, Hy.
      by rewrite Hx, outcome_bind_ret, Hy, outcome_bind_ret, Herr.
    + apply lift_child_int in Hx, Hy, Hz.
      by rewrite Hx, outcome_bind_ret, Hy, outcome_bind_ret, Hz, outcome_bind_ret.
    + apply lift_child_int in Hx, Hy, Hz.
      rewrite Hx, outcome_bind_ret, Hy, outcome_bind_ret, Hz, outcome_bind_ret.
      unfold util.truediv. rewrite decide_False by done.
      by rewrite decide_True by done.
Qed.

(** X24. The exception of [marker_coords]. A file without an [Image_Filename]
    element is an [AttributeError] ([None] has no [text]), markers or not.
    Otherwise the markers are read in document order and the first one whose
    round fails gives the exception: the [AttributeError] of a missing
    [MarkerX], [MarkerY] or [MarkerZ] child, the [TypeError] of [int(None)]
    for a child without text, the exception of [int] for a text it rejects,
    or, the three coordinates read, the exception of the division of [MarkerZ]
    by [n_channels]: a [ZeroDivisionError] for [n_channels = 0], an
    [OverflowError] for a quotient too large for a float. *)
Theorem marker_coords_raises (tree : xml.Element) (n_channels : Z)
    (err : util.raised) :
  util.marker_coords int tree n_channels = inl err
  ↔ (xml.find_below tree "Image_Filename" = None
     ∧ err = util.Raised AttributeError)
    ∨ (is_Some (xml.find_below tree "Image_Filename")
       ∧ ∃ read marker rest,
           xml.findall_below tree "Marker" = read ++ marker :: rest
           ∧ Forall (λ marker,
                n_channels ≠ 0
                ∧ ∃ x y z, marker_at int marker x y z
                           ∧ ¬ util.too_large_for_float z n_channels) read
           ∧ marker_error int n_channels marker err).
Proof.
  unfold util.marker_coords. cbv zeta. rewrite outcome_bind_inl.
  destruct (xml.find_below tree "Image_Filename") as [image|]; simpl.
  - set (rel := λ (marker : xml.Element) (row : list (string * option value)),
                  ∃ x y z,
                    marker_at int marker x y z
                    ∧ n_channels ≠ 0
                    ∧ ¬ util.too_large_for_float z n_channels
                    ∧ row = [("Image_Filename", VStr <$> xml.text image);
                             ("MarkerX", Some (VInt x));
                             ("MarkerY", Some (VInt y));
                             ("MarkerZ", Some (VInt (z `div` n_channels)))]).
    split.
    + intros [?|(image_name & [= <-] & Hloop)]; [done|]. right.
      split; [done|].
      apply (loop_inl _ rel pd.append_dict_missing (marker_error int n_channels))
        in Hloop as (read & marker & rest & Hmarkers & Hread & Herr).
      * exists read, marker, rest. split; [exact Hmarkers|]. split; [|exact Herr].
        eapply Forall_impl; [exact Hread|].
        intros m (row & x & y & z & Hat & Hn & Hfloat & _). eauto 10.
      * intros s marker s'. apply marker_coords_round.
      * intros s marker e. apply marker_coords_round_error.
    + intros [[? _]|(_ & read & marker & rest & Hmarkers & Hread & Herr)]; [done|].
      right. eexists. split; [done|].
      apply (loop_inl _ rel pd.append_dict_missing (marker_error int n_channels)).
      * intros s m s'. apply marker_coords_round.
      * intros s m e. apply marker_coords_round_error.
      * exists read, marker, rest. split; [exact Hmarkers|]. split; [|exact Herr].
        eapply Forall_impl; [exact Hread|].
        intros m (Hn & x & y & z & Hat & Hfloat). eexists. by exists x, y, z.
  - split.
    + intros [[= <-]|(image_name & ? & _)]; [by left|done].
    + intros [[_ ->]|([image ?] & _)]; [by left|done].
Qed.

End marker_coords.

(** ** [marker_coords] on a concrete file *)

Lemma outcome_inr {X} (r : util.outcome X) :
  match r with inr _ => true | inl _ => false end = true → ∃ x, r = inr x.
Proof. destruct r as [e|x]; [discriminate|eauto]. Qed.

(** The CellCounter file with two markers, for a stack of two channels. *)
Lemma marker_coords_rows_witness :
  ∃ df,
    util.marker_coords toy.int toy.counter 2 = inr df
    ∧ ∃ image,
        xml.find_below toy.counter "Image_Filename" = Some image
        ∧ Forall2 (λ marker row, ∃ x y z,
             marker_at toy.int marker x y z
             ∧ row !! "Image_Filename" = VStr <$> xml.text image
             ∧ row !! "MarkerX" = Some (VInt x)
             ∧ row !! "MarkerY" = Some (VInt y)
             ∧ row !! "MarkerZ" = Some (VInt (z `div` 2)))
            (xml.findall_below toy.counter "Marker") (pd.rows df).
Proof.
  destruct (outcome_inr (util.marker_coords toy.int toy.counter 2)) as [df Hrun].
  { vm_compute. reflexivity. }
  exists df. split; [exact Hrun|].
  exact (marker_coords_rows toy.int toy.counter 2 df Hrun).
Defined.

(** The same file for no channel at all, a file without its
    [Image_Properties], and a marker on a plane beyond the floats. *)
Lemma marker_coords_counter_raises :
  util.marker_coords toy.int toy.counter 0 = inl util.ZeroDivisionError
  ∧ util.marker_coords toy.int (xml.Elem "CellCounter_Marker_File" None []) 2
    = inl (util.Raised AttributeError)
  ∧ util.marker_coords (λ _, inr (2 ^ 1025)) toy.counter 2
    = inl util.OverflowError.
Proof. repeat split; vm_compute; reflexivity. Qed.
